(** * RayDB Python layer: mutation builders, traversal engine, path queries

    A shallow embedding of [raydb/builders.py] and [raydb/traversal.py].
    Python objects become records and inductive types, dictionaries become
    association lists in insertion order, the Python sets that are only
    tested for membership become [gset] (the one set that is turned into
    a list, in a [both] step, is listed in an order that is left open),
    and every call into the storage engine or into an injected resolver
    is threaded through an explicit state-and-exception monad that also
    records the sequence of calls. *)

From stdpp Require Import base relations gmap sets list strings pretty sorting.

Open Scope Z_scope.
Open Scope list_scope.

(** ** Python values, exceptions *)

(** The values the builders receive as field values.  A float is kept as
    its IEEE-754 binary64 bit pattern; a vector as the list of the bit
    patterns of its components. *)
Inductive PyValue :=
| PyNone
| PyBool (b : bool)
| PyInt (z : Z)
| PyFloat (bits : Z)
| PyStr (s : string)
| PyVector (v : list Z).

(** The exceptions raised by this layer ([ValueError], [AttributeError]),
    by the built-in conversions ([TypeError]), by indexing an empty list
    ([IndexError]) and by the engine. *)
Inductive PyExn :=
| ValueError (msg : string)
| AttributeError (msg : string)
| TypeError (msg : string)
| IndexError (msg : string)
| EngineError (msg : string).

(** Outcome of a Python call: a value or a raised exception. *)
Inductive Exc (A : Type) :=
| Ok (a : A)
| Raise (e : PyExn).
Arguments Ok {A} a.
Arguments Raise {A} e.

(** [value is None] *)
Definition is_none (v : PyValue) : bool :=
  match v with PyNone => true | _ => false end.

(** ** Dictionaries

    A Python [dict] with string keys, as the list of its items in
    insertion order. *)
Module Dict.
Definition t (V : Type) := list (string * V).

(** [d.get(k)] *)
Fixpoint get {V} (k : string) (d : t V) : option V :=
  match d with
  | [] => None
  | (k', v) :: d' => if String.eqb k k' then Some v else get k d'
  end.

(** [k in d] *)
Definition mem {V} (k : string) (d : t V) : bool :=
  match get k d with Some _ => true | None => false end.

(** the dictionary left by [d.pop(k, default)] *)
Fixpoint remove {V} (k : string) (d : t V) : t V :=
  match d with
  | [] => []
  | (k', v) :: d' => if String.eqb k k' then remove k d' else (k', v) :: remove k d'
  end.

(** [d[k] = v]: overwrite in place, or append a new item *)
Fixpoint set {V} (k : string) (v : V) (d : t V) : t V :=
  match d with
  | [] => [(k, v)]
  | (k', v') :: d' => if String.eqb k k' then (k, v) :: d' else (k', v') :: set k v d'
  end.

(** [{**a, **b}] *)
Definition merge {V} (a b : t V) : t V :=
  fold_left (fun acc kv => set kv.1 kv.2 acc) b a.
End Dict.

(** ** Schema descriptors *)

(** Modelled from the spec: [raydb/schema.py] is not part of the sources;
    the descriptors carry the fields the builders read: a property
    descriptor has a [type] tag, a node type has a name, an ordered
    property-name to descriptor mapping and a key-formatting function, an
    edge type has a name, its properties and the memoized resolved
    identifier [_etype_id]. *)
Record PropDef := { prop_type : string }.

Record NodeDef := {
  nd_name : string;
  nd_props : Dict.t PropDef;
  key_fn : PyValue -> Exc string
}.

Record EdgeDef := {
  ed_name : string;
  ed_props : Dict.t PropDef;
  _etype_id : option Z
}.

(** ** Node handles ([builders.py], class [NodeRef]) *)

Record NodeRef := {
  nr_id : Z;
  nr_key : string;
  nr_node_def : NodeDef;
  nr_props : Dict.t PyValue
}.

(** Anything a handle can be compared with. *)
Inductive PyObject :=
| ObjValue (v : PyValue)
| ObjNodeRef (r : NodeRef).

(** What the attribute access [handle.name] evaluates to: the value of
    one of the four slots, an attribute that the class or one of its
    bases defines (a method such as [__repr__]), or whatever the hook
    [__getattr__] returns or raises. *)
Inductive Attribute :=
| AttrId (id : Z)
| AttrKey (key : string)
| AttrNodeDef (node_def : NodeDef)
| AttrProps (props : Dict.t PyValue)
| AttrOfClass (name : string)
| AttrHook (r : Exc PyValue).

Module NodeRefM.
(** [NodeRef.__getattr__] *)
Definition __getattr__ (self : NodeRef) (name : string) : Exc PyValue :=
  match Dict.get name (nr_props self) with
  | Some v => Ok v
  | None =>
      if Dict.mem name (nd_props (nr_node_def self)) then Ok PyNone
      else Raise (AttributeError
                    ("'NodeRef' object has no attribute '" +:+ name +:+ "'"))
  end.

(** [__slots__] *)
Definition slots : list string := ["id"; "key"; "node_def"; "props"].

Section Access.
(** The names, other than the slots, that the class [NodeRef] and its
    bases define. *)
Variable class_attrs : string -> bool.

(** [handle.name], as the language evaluates it for a class with
    [__slots__] and a [__getattr__] hook: the slots, which [__init__]
    always sets, and the attributes of the class are found by the normal
    lookup; the hook is called only for a name that lookup does not
    find. *)
Definition getattr (self : NodeRef) (name : string) : Attribute :=
  if String.eqb name "id" then AttrId (nr_id self)
  else if String.eqb name "key" then AttrKey (nr_key self)
  else if String.eqb name "node_def" then AttrNodeDef (nr_node_def self)
  else if String.eqb name "props" then AttrProps (nr_props self)
  else if class_attrs name then AttrOfClass name
  else AttrHook (__getattr__ self name).
End Access.

(** [NodeRef.__eq__] *)
Definition __eq__ (self : NodeRef) (other : PyObject) : bool :=
  match other with
  | ObjNodeRef o => bool_decide (nr_id self = nr_id o)
  | ObjValue _ => false
  end.

Section Hash.
(** The built-in [hash] on integers. *)
Variable hash_int : Z -> Z.

(** [NodeRef.__hash__] *)
Definition __hash__ (self : NodeRef) : Z := hash_int (nr_id self).
End Hash.
End NodeRefM.

(** ** Property values ([PropValue] of the engine) *)

Inductive PropValue :=
| PVNull
| PVString (s : string)
| PVInt (z : Z)
| PVFloat (bits : Z)
| PVBool (b : bool).

(** The built-in conversions [str], [int] and [float]; [bool] is [truthy]. *)
Record Builtins := {
  py_str : PyValue -> string;
  py_int : PyValue -> Exc Z;
  py_float : PyValue -> Exc Z
}.

(** [bool(value)] *)
Definition truthy (v : PyValue) : bool :=
  match v with
  | PyNone => false
  | PyBool b => b
  | PyInt z => negb (Z.eqb z 0)
  | PyFloat bits => negb (Z.eqb bits 0 || Z.eqb bits (2 ^ 63))
  | PyStr s => negb (String.eqb s EmptyString)
  | PyVector v => negb (Nat.eqb (length v) 0)
  end.

(** [to_prop_value] *)
Definition to_prop_value (py : Builtins) (prop_def : PropDef) (value : PyValue)
  : Exc PropValue :=
  if is_none value then Ok PVNull
  else if String.eqb (prop_type prop_def) "string" then Ok (PVString (py_str py value))
  else if String.eqb (prop_type prop_def) "int" then
    match py_int py value with Ok z => Ok (PVInt z) | Raise e => Raise e end
  else if String.eqb (prop_type prop_def) "float" then
    match py_float py value with Ok f => Ok (PVFloat f) | Raise e => Raise e end
  else if String.eqb (prop_type prop_def) "bool" then Ok (PVBool (truthy value))
  else if String.eqb (prop_type prop_def) "vector" then
    Raise (ValueError "Vector properties should be set using set_node_vector")
  else Raise (ValueError ("Unknown property type: " +:+ prop_type prop_def)).

(** [from_prop_value]: the engine's [PropValue.value()] *)
Definition from_prop_value (pv : PropValue) : PyValue :=
  match pv with
  | PVNull => PyNone
  | PVString s => PyStr s
  | PVInt z => PyInt z
  | PVFloat f => PyFloat f
  | PVBool b => PyBool b
  end.

(** ** The storage engine interface *)

(** What [find_path_bfs] and [find_path_dijkstra] return. *)
Record EnginePath := {
  ep_found : bool;
  ep_path : list Z;
  ep_total_weight : Z
}.

(** One call into the engine or into one of the identifier resolvers, with
    its arguments; the log of a run is the list of the calls it made. *)
Inductive Call :=
| CBegin
| CCommit
| CRollback
| CCreateNode (key : string)
| CGetNodeByKey (key : string)
| CGetNodeKey (id : Z)
| CSetNodeProp (id pk : Z) (v : PropValue)
| CDeleteNodeProp (id pk : Z)
| CGetNodeProp (id pk : Z)
| CDeleteNode (id : Z)
| CAddEdge (src et dst : Z)
| CDeleteEdge (src et dst : Z)
| CSetEdgeProp (src et dst pk : Z) (v : PropValue)
| CDeleteEdgeProp (src et dst pk : Z)
| CTraverseOut (id : Z) (et : option Z)
| CTraverseIn (id : Z) (et : option Z)
| CTraverseOutWithKeys (id : Z) (et : option Z)
| CTraverseInWithKeys (id : Z) (et : option Z)
| CFindPathBfs (src tgt : Z) (et max_depth : option Z) (dir : string)
| CFindPathDijkstra (src tgt : Z) (et max_depth : option Z) (dir : string)
| CHasPath (src tgt : Z) (et max_depth : option Z)
| CResolveEtypeId (edge : string)
| CResolveNodePropKeyId (node : string) (name : string)
| CResolveEdgePropKeyId (edge : string) (name : string)
| CGetNodeDef (id : Z).

(** Modelled from the spec: the native module [raydb._raydb] and the
    resolver callables handed to the builders are not part of the sources.
    The engine is any implementation of the synchronous operations the
    builders call; every one of them may fail.  Operations that write take
    the engine state to a new one; lookups, traversals and path searches
    read it.  [get_node_def] is the callable that resolves the node type of
    an identifier: a lookup like the others, it reads the state and may
    fail.

    The last three fields are not the engine's but the host's:
    [union_list out_ids in_ids] is [list(set(out_ids) | set(in_ids))].  The
    language fixes the members of that list, each once, and leaves their
    order to the implementation of sets, so the order is left open here
    in the same way as the engine is. *)
Record Engine (St : Type) := {
  db_begin : St -> Exc unit * St;
  db_commit : St -> Exc unit * St;
  db_rollback : St -> Exc unit * St;
  db_create_node : string -> St -> Exc Z * St;
  db_get_node_by_key : string -> St -> Exc (option Z);
  db_get_node_key : Z -> St -> Exc (option string);
  db_set_node_prop : Z -> Z -> PropValue -> St -> Exc unit * St;
  db_delete_node_prop : Z -> Z -> St -> Exc unit * St;
  db_get_node_prop : Z -> Z -> St -> Exc (option PropValue);
  db_delete_node : Z -> St -> Exc bool * St;
  db_add_edge : Z -> Z -> Z -> St -> Exc unit * St;
  db_delete_edge : Z -> Z -> Z -> St -> Exc unit * St;
  db_set_edge_prop : Z -> Z -> Z -> Z -> PropValue -> St -> Exc unit * St;
  db_delete_edge_prop : Z -> Z -> Z -> Z -> St -> Exc unit * St;
  db_traverse_out : Z -> option Z -> St -> Exc (list Z);
  db_traverse_in : Z -> option Z -> St -> Exc (list Z);
  db_traverse_out_with_keys : Z -> option Z -> St -> Exc (list (Z * option string));
  db_traverse_in_with_keys : Z -> option Z -> St -> Exc (list (Z * option string));
  db_find_path_bfs : Z -> Z -> option Z -> option Z -> string -> St -> Exc EnginePath;
  db_find_path_dijkstra : Z -> Z -> option Z -> option Z -> string -> St -> Exc EnginePath;
  db_has_path : Z -> Z -> option Z -> option Z -> St -> Exc bool;
  resolve_etype_id : EdgeDef -> St -> Exc Z * St;
  resolve_node_prop_key_id : NodeDef -> string -> St -> Exc Z * St;
  resolve_edge_prop_key_id : EdgeDef -> string -> St -> Exc Z * St;
  get_node_def : Z -> St -> Exc (option NodeDef);
  union_list : list Z -> list Z -> list Z;
  union_list_NoDup : forall out_ids in_ids, NoDup (union_list out_ids in_ids);
  union_list_elem : forall out_ids in_ids x,
      x ∈ union_list out_ids in_ids <-> x ∈ out_ids \/ x ∈ in_ids
}.
Arguments db_begin {St} _ _.
Arguments db_commit {St} _ _.
Arguments db_rollback {St} _ _.
Arguments db_create_node {St} _ _ _.
Arguments db_get_node_by_key {St} _ _ _.
Arguments db_get_node_key {St} _ _ _.
Arguments db_set_node_prop {St} _ _ _ _ _.
Arguments db_delete_node_prop {St} _ _ _ _.
Arguments db_get_node_prop {St} _ _ _ _.
Arguments db_delete_node {St} _ _ _.
Arguments db_add_edge {St} _ _ _ _ _.
Arguments db_delete_edge {St} _ _ _ _ _.
Arguments db_set_edge_prop {St} _ _ _ _ _ _ _.
Arguments db_delete_edge_prop {St} _ _ _ _ _ _.
Arguments db_traverse_out {St} _ _ _ _.
Arguments db_traverse_in {St} _ _ _ _.
Arguments db_traverse_out_with_keys {St} _ _ _ _.
Arguments db_traverse_in_with_keys {St} _ _ _ _.
Arguments db_find_path_bfs {St} _ _ _ _ _ _ _.
Arguments db_find_path_dijkstra {St} _ _ _ _ _ _ _.
Arguments db_has_path {St} _ _ _ _ _ _.
Arguments resolve_etype_id {St} _ _ _.
Arguments resolve_node_prop_key_id {St} _ _ _ _.
Arguments resolve_edge_prop_key_id {St} _ _ _ _.
Arguments get_node_def {St} _ _ _.
Arguments union_list {St} _ _ _.
Arguments union_list_NoDup {St} _ _ _.
Arguments union_list_elem {St} _ _ _ _.

(** ** The monad of the builders: engine state, call log, exceptions *)

Record World (St : Type) := { w_db : St; w_log : list Call }.
Arguments w_db {St} _.
Arguments w_log {St} _.
Arguments Build_World {St} _ _.

Definition M (St A : Type) : Type := World St -> Exc A * World St.

Definition ret {St A} (a : A) : M St A := fun w => (Ok a, w).

Definition raise {St A} (e : PyExn) : M St A := fun w => (Raise e, w).

Definition bind {St A B} (m : M St A) (k : A -> M St B) : M St B :=
  fun w => match m w with
           | (Ok a, w') => k a w'
           | (Raise e, w') => (Raise e, w')
           end.

Declare Scope py_scope.
Delimit Scope py_scope with py.
Notation "'let*' x ':=' m 'in' k" := (bind m (fun x => k))
  (at level 10, x pattern, m at level 100, k at level 200) : py_scope.
Notation "m ';;;' k" := (bind m (fun _ => k))
  (at level 100, k at level 200, right associativity) : py_scope.
Open Scope py_scope.

(** Lift a result computed outside the engine (a conversion, [key_fn]). *)
Definition lift {St A} (r : Exc A) : M St A := fun w => (r, w).

(** A call that writes: logged, then run on the engine state. *)
Definition call_w {St A} (c : Call) (f : St -> Exc A * St) : M St A :=
  fun w => let '(r, s) := f (w_db w) in
           (r, {| w_db := s; w_log := w_log w ++ [c] |}).

(** A call that reads: logged, the engine state is left as it is. *)
Definition call_r {St A} (c : Call) (f : St -> Exc A) : M St A :=
  fun w => (f (w_db w), {| w_db := w_db w; w_log := w_log w ++ [c] |}).

(** [for x in xs: body(x)] *)
Fixpoint for_each {St A} (xs : list A) (body : A -> M St unit) : M St unit :=
  match xs with
  | [] => ret tt
  | x :: xs' => body x ;;; for_each xs' body
  end.

(** [for x in xs: acc = body(acc, x)] *)
Fixpoint for_fold {St A B} (xs : list A) (acc : B) (body : B -> A -> M St B) : M St B :=
  match xs with
  | [] => ret acc
  | x :: xs' => let* acc' := body acc x in for_fold xs' acc' body
  end.

Section Builders.
Context {St : Type}.
Variable E : Engine St.
Variable py : Builtins.

Definition begin : M St unit := call_w CBegin (db_begin E).
Definition commit : M St unit := call_w CCommit (db_commit E).
Definition rollback : M St unit := call_w CRollback (db_rollback E).

(** [try: body  except Exception: self._db.rollback(); raise] *)
Definition try_rollback {A} (body : M St A) : M St A :=
  fun w => match body w with
           | (Ok a, w') => (Ok a, w')
           | (Raise e, w') =>
               match rollback w' with
               | (Ok _, w'') => (Raise e, w'')
               | (Raise e', w'') => (Raise e', w'')
               end
           end.

Definition create_node (key : string) : M St Z :=
  call_w (CCreateNode key) (db_create_node E key).
Definition get_node_by_key (key : string) : M St (option Z) :=
  call_r (CGetNodeByKey key) (db_get_node_by_key E key).
Definition get_node_key (id : Z) : M St (option string) :=
  call_r (CGetNodeKey id) (db_get_node_key E id).
Definition set_node_prop (id pk : Z) (v : PropValue) : M St unit :=
  call_w (CSetNodeProp id pk v) (db_set_node_prop E id pk v).
Definition delete_node_prop (id pk : Z) : M St unit :=
  call_w (CDeleteNodeProp id pk) (db_delete_node_prop E id pk).
Definition get_node_prop (id pk : Z) : M St (option PropValue) :=
  call_r (CGetNodeProp id pk) (db_get_node_prop E id pk).
Definition delete_node (id : Z) : M St bool :=
  call_w (CDeleteNode id) (db_delete_node E id).
Definition add_edge (src et dst : Z) : M St unit :=
  call_w (CAddEdge src et dst) (db_add_edge E src et dst).
Definition delete_edge (src et dst : Z) : M St unit :=
  call_w (CDeleteEdge src et dst) (db_delete_edge E src et dst).
Definition set_edge_prop (src et dst pk : Z) (v : PropValue) : M St unit :=
  call_w (CSetEdgeProp src et dst pk v) (db_set_edge_prop E src et dst pk v).
Definition delete_edge_prop (src et dst pk : Z) : M St unit :=
  call_w (CDeleteEdgeProp src et dst pk) (db_delete_edge_prop E src et dst pk).
Definition traverse_out (id : Z) (et : option Z) : M St (list Z) :=
  call_r (CTraverseOut id et) (db_traverse_out E id et).
Definition traverse_in (id : Z) (et : option Z) : M St (list Z) :=
  call_r (CTraverseIn id et) (db_traverse_in E id et).
Definition traverse_out_with_keys (id : Z) (et : option Z) : M St (list (Z * option string)) :=
  call_r (CTraverseOutWithKeys id et) (db_traverse_out_with_keys E id et).
Definition traverse_in_with_keys (id : Z) (et : option Z) : M St (list (Z * option string)) :=
  call_r (CTraverseInWithKeys id et) (db_traverse_in_with_keys E id et).
Definition find_path_bfs (src tgt : Z) (et md : option Z) (dir : string) : M St EnginePath :=
  call_r (CFindPathBfs src tgt et md dir) (db_find_path_bfs E src tgt et md dir).
Definition find_path_dijkstra (src tgt : Z) (et md : option Z) (dir : string) : M St EnginePath :=
  call_r (CFindPathDijkstra src tgt et md dir) (db_find_path_dijkstra E src tgt et md dir).
Definition has_path (src tgt : Z) (et md : option Z) : M St bool :=
  call_r (CHasPath src tgt et md) (db_has_path E src tgt et md).
Definition _resolve_etype_id (e : EdgeDef) : M St Z :=
  call_w (CResolveEtypeId (ed_name e)) (resolve_etype_id E e).
Definition _resolve_prop_key_id (n : NodeDef) (name : string) : M St Z :=
  call_w (CResolveNodePropKeyId (nd_name n) name) (resolve_node_prop_key_id E n name).
Definition _resolve_edge_prop_key_id (e : EdgeDef) (name : string) : M St Z :=
  call_w (CResolveEdgePropKeyId (ed_name e) name) (resolve_edge_prop_key_id E e name).
Definition _get_node_def (id : Z) : M St (option NodeDef) :=
  call_r (CGetNodeDef id) (get_node_def E id).

(** *** Insert ([InsertExecutor], [InsertBuilder]) *)

(** The argument of the executor: one record or a list of records. *)
Inductive InsertData :=
| OneRecord (d : Dict.t PyValue)
| ManyRecords (l : list (Dict.t PyValue)).

(** What [returning] hands back: one handle or a list of handles. *)
Inductive InsertResult :=
| OneRef (r : NodeRef)
| ManyRefs (l : list NodeRef).

Record InsertExecutor := {
  ie_node_def : NodeDef;
  ie_data : list (Dict.t PyValue);
  ie_is_single : bool
}.

(** [InsertExecutor.__init__] *)
Definition InsertExecutor_init (node_def : NodeDef) (data : InsertData) : InsertExecutor :=
  match data with
  | ManyRecords l => {| ie_node_def := node_def; ie_data := l; ie_is_single := false |}
  | OneRecord d => {| ie_node_def := node_def; ie_data := [d]; ie_is_single := true |}
  end.

(** Body of [for prop_name, value in item.items()] in [returning]. *)
Definition insert_prop (node_def : NodeDef) (node_id : Z) (kv : string * PyValue)
  : M St unit :=
  let '(prop_name, value) := kv in
  if is_none value then ret tt
  else
    match Dict.get prop_name (nd_props node_def) with
    | None => ret tt
    | Some prop_def =>
        let* prop_key_id := _resolve_prop_key_id node_def prop_name in
        let* prop_value := lift (to_prop_value py prop_def value) in
        set_node_prop node_id prop_key_id prop_value
    end.

(** [item.pop("key", None)]: the popped value, [None] when absent. *)
Definition pop_key (item : Dict.t PyValue) : PyValue :=
  match Dict.get "key" item with Some v => v | None => PyNone end.

Definition key_required : PyExn := ValueError "Insert requires a 'key' field".

(** Body of [for item in self._data] in [returning]. *)
Definition insert_item (node_def : NodeDef) (results : list NodeRef)
    (item : Dict.t PyValue) : M St (list NodeRef) :=
  let key_arg := pop_key item in
  let item := Dict.remove "key" item in
  if is_none key_arg then raise key_required
  else
    let* full_key := lift (key_fn node_def key_arg) in
    let* node_id := create_node full_key in
    for_each item (insert_prop node_def node_id) ;;;
    ret (results ++ [ {| nr_id := node_id; nr_key := full_key;
                         nr_node_def := node_def; nr_props := item |} ]).

(** The [try] block of [returning]. *)
Definition insert_body (self : InsertExecutor) : M St (list NodeRef) :=
  let* results := for_fold (ie_data self) [] (insert_item (ie_node_def self)) in
  commit ;;;
  ret results.

(** [InsertExecutor.returning] *)
Definition returning (self : InsertExecutor) : M St InsertResult :=
  begin ;;;
  let* results := try_rollback (insert_body self) in
  if ie_is_single self then
    match results with
    | r :: _ => ret (OneRef r)
    | [] => raise (IndexError "list index out of range")
    end
  else ret (ManyRefs results).

(** [InsertExecutor.execute] *)
Definition insert_execute (self : InsertExecutor) : M St unit :=
  returning self ;;; ret tt.

(** [data = kwargs if data is None else {**data, **kwargs}] *)
Definition merge_kwargs (data : option (Dict.t PyValue)) (kwargs : Dict.t PyValue)
  : Dict.t PyValue :=
  match data with
  | None => kwargs
  | Some d => Dict.merge d kwargs
  end.

(** [InsertBuilder.values] *)
Definition values (node_def : NodeDef) (data : option (Dict.t PyValue))
    (kwargs : Dict.t PyValue) : InsertExecutor :=
  InsertExecutor_init node_def (OneRecord (merge_kwargs data kwargs)).

(** [InsertBuilder.values_many] *)
Definition values_many (node_def : NodeDef) (data : list (Dict.t PyValue)) : InsertExecutor :=
  InsertExecutor_init node_def (ManyRecords data).

(** *** Update ([UpdateExecutor], [UpdateByRefExecutor]) *)

Record UpdateExecutor := {
  ue_node_def : NodeDef;
  ue_data : Dict.t PyValue;
  ue_where_id : option Z;
  ue_where_key : option string
}.

(** [UpdateBuilder.set] *)
Definition update_set (node_def : NodeDef) (data : option (Dict.t PyValue))
    (kwargs : Dict.t PyValue) : UpdateExecutor :=
  {| ue_node_def := node_def; ue_data := merge_kwargs data kwargs;
     ue_where_id := None; ue_where_key := None |}.

(** [UpdateExecutor.where] *)
Definition update_where (self : UpdateExecutor) (id : option Z) (key : option string)
  : UpdateExecutor :=
  {| ue_node_def := ue_node_def self; ue_data := ue_data self;
     ue_where_id := id; ue_where_key := key |}.

(** Body of [for prop_name, value in self._data.items()] in both node
    update executors. *)
Definition update_prop (node_def : NodeDef) (node_id : Z) (kv : string * PyValue)
  : M St unit :=
  let '(prop_name, value) := kv in
  match Dict.get prop_name (nd_props node_def) with
  | None => ret tt
  | Some prop_def =>
      let* prop_key_id := _resolve_prop_key_id node_def prop_name in
      if is_none value then delete_node_prop node_id prop_key_id
      else
        let* prop_value := lift (to_prop_value py prop_def value) in
        set_node_prop node_id prop_key_id prop_value
  end.

(** The [try] block of the node update executors. *)
Definition update_body (node_def : NodeDef) (node_id : Z) (data : Dict.t PyValue)
  : M St unit :=
  for_each data (update_prop node_def node_id) ;;;
  commit.

(** A string in a condition: true unless empty. *)
Definition str_truthy (s : string) : bool := negb (String.eqb s EmptyString).

(** The selector resolution shared by update and delete:
    [node_id = self._where_id]
    [if node_id is None and self._where_key: node_id = get_node_by_key(...)] *)
Definition resolve_where (where_id : option Z) (where_key : option string)
  : M St (option Z) :=
  match where_id with
  | Some id => ret (Some id)
  | None =>
      match where_key with
      | Some k => if str_truthy k then get_node_by_key k else ret None
      | None => ret None
      end
  end.

(** [f"{key}"] for an optional string *)
Definition fmt_opt_str (k : option string) : string :=
  match k with Some s => s | None => "None" end.

(** [UpdateExecutor.execute] *)
Definition update_execute (self : UpdateExecutor) : M St unit :=
  match ue_where_id self, ue_where_key self with
  | None, None => raise (ValueError "Update requires a where condition (id or key)")
  | _, _ =>
      let* node_id := resolve_where (ue_where_id self) (ue_where_key self) in
      match node_id with
      | None => raise (ValueError ("Node not found: " +:+ fmt_opt_str (ue_where_key self)))
      | Some resolved_node_id =>
          begin ;;;
          try_rollback (update_body (ue_node_def self) resolved_node_id (ue_data self))
      end
  end.

Record UpdateByRefExecutor := {
  ur_node_ref : NodeRef;
  ur_data : Dict.t PyValue
}.

(** [UpdateByRefBuilder.set] *)
Definition update_ref_set (node_ref : NodeRef) (data : option (Dict.t PyValue))
    (kwargs : Dict.t PyValue) : UpdateByRefExecutor :=
  {| ur_node_ref := node_ref; ur_data := merge_kwargs data kwargs |}.

(** [UpdateByRefExecutor.execute] *)
Definition update_ref_execute (self : UpdateByRefExecutor) : M St unit :=
  begin ;;;
  try_rollback (update_body (nr_node_def (ur_node_ref self)) (nr_id (ur_node_ref self))
                            (ur_data self)).

(** *** Delete ([DeleteExecutor]) *)

Record DeleteExecutor := {
  de_where_id : option Z;
  de_where_key : option string
}.

(** [DeleteBuilder.where] *)
Definition delete_where (id : option Z) (key : option string) : DeleteExecutor :=
  {| de_where_id := id; de_where_key := key |}.

(** The [try] block of [DeleteExecutor.execute]. *)
Definition delete_body (node_id : Z) : M St bool :=
  delete_node node_id ;;;
  commit ;;;
  ret true.

(** [DeleteExecutor.execute] *)
Definition delete_execute (self : DeleteExecutor) : M St bool :=
  match de_where_id self, de_where_key self with
  | None, None => raise (ValueError "Delete requires a where condition (id or key)")
  | _, _ =>
      let* node_id := resolve_where (de_where_id self) (de_where_key self) in
      match node_id with
      | None => ret false
      | Some resolved_node_id =>
          begin ;;;
          try_rollback (delete_body resolved_node_id)
      end
  end.

(** *** Link, unlink, edge update *)

(** Body of [for prop_name, value in props.items()] in [create_link]. *)
Definition link_prop (edge_def : EdgeDef) (src etype_id dst : Z) (kv : string * PyValue)
  : M St unit :=
  let '(prop_name, value) := kv in
  if is_none value then ret tt
  else
    match Dict.get prop_name (ed_props edge_def) with
    | None => ret tt
    | Some prop_def =>
        let* prop_key_id := _resolve_edge_prop_key_id edge_def prop_name in
        let* prop_value := lift (to_prop_value py prop_def value) in
        set_edge_prop src etype_id dst prop_key_id prop_value
    end.

(** The items visited by [if props: for ... in props.items()]: none when
    [props] is [None] or empty. *)
Definition props_items (props : option (Dict.t PyValue)) : Dict.t PyValue :=
  match props with Some d => d | None => [] end.

(** The [try] block of [create_link]. *)
Definition create_link_body (src : NodeRef) (edge_def : EdgeDef) (dst : NodeRef)
    (props : option (Dict.t PyValue)) (etype_id : Z) : M St unit :=
  add_edge (nr_id src) etype_id (nr_id dst) ;;;
  for_each (props_items props) (link_prop edge_def (nr_id src) etype_id (nr_id dst)) ;;;
  commit.

(** [create_link] *)
Definition create_link (src : NodeRef) (edge_def : EdgeDef) (dst : NodeRef)
    (props : option (Dict.t PyValue)) : M St unit :=
  let* etype_id := _resolve_etype_id edge_def in
  begin ;;;
  try_rollback (create_link_body src edge_def dst props etype_id).

(** The [try] block of [delete_link]. *)
Definition delete_link_body (src : NodeRef) (dst : NodeRef) (etype_id : Z) : M St unit :=
  delete_edge (nr_id src) etype_id (nr_id dst) ;;;
  commit.

(** [delete_link] *)
Definition delete_link (src : NodeRef) (edge_def : EdgeDef) (dst : NodeRef) : M St unit :=
  let* etype_id := _resolve_etype_id edge_def in
  begin ;;;
  try_rollback (delete_link_body src dst etype_id).

Record UpdateEdgeExecutor := {
  ee_src : NodeRef;
  ee_edge_def : EdgeDef;
  ee_dst : NodeRef;
  ee_data : Dict.t PyValue
}.

(** [UpdateEdgeBuilder.set] *)
Definition update_edge_set (src : NodeRef) (edge_def : EdgeDef) (dst : NodeRef)
    (data : option (Dict.t PyValue)) (kwargs : Dict.t PyValue) : UpdateEdgeExecutor :=
  {| ee_src := src; ee_edge_def := edge_def; ee_dst := dst;
     ee_data := merge_kwargs data kwargs |}.

(** Body of [for prop_name, value in self._data.items()] in
    [UpdateEdgeExecutor.execute]. *)
Definition update_edge_prop (edge_def : EdgeDef) (src etype_id dst : Z)
    (kv : string * PyValue) : M St unit :=
  let '(prop_name, value) := kv in
  match Dict.get prop_name (ed_props edge_def) with
  | None => ret tt
  | Some prop_def =>
      let* prop_key_id := _resolve_edge_prop_key_id edge_def prop_name in
      if is_none value then delete_edge_prop src etype_id dst prop_key_id
      else
        let* prop_value := lift (to_prop_value py prop_def value) in
        set_edge_prop src etype_id dst prop_key_id prop_value
  end.

(** The [try] block of [UpdateEdgeExecutor.execute]. *)
Definition update_edge_body (self : UpdateEdgeExecutor) (etype_id : Z) : M St unit :=
  for_each (ee_data self)
    (update_edge_prop (ee_edge_def self) (nr_id (ee_src self)) etype_id (nr_id (ee_dst self))) ;;;
  commit.

(** [UpdateEdgeExecutor.execute] *)
Definition update_edge_execute (self : UpdateEdgeExecutor) : M St unit :=
  let* etype_id := _resolve_etype_id (ee_edge_def self) in
  begin ;;;
  try_rollback (update_edge_body self etype_id).

(** ** Traversal ([traversal.py]) *)

Inductive TraversalStep :=
| OutStep (edge_def : option EdgeDef)
| InStep (edge_def : option EdgeDef)
| BothStep (edge_def : option EdgeDef).

Definition step_edge_def (step : TraversalStep) : option EdgeDef :=
  match step with OutStep e | InStep e | BothStep e => e end.

Record PropLoadStrategy := {
  load_all : bool;
  prop_names : option (gset string)
}.

(** [PropLoadStrategy.none] *)
Definition strategy_none : PropLoadStrategy := {| load_all := false; prop_names := None |}.
(** [PropLoadStrategy.all] *)
Definition strategy_all : PropLoadStrategy := {| load_all := true; prop_names := None |}.
(** [PropLoadStrategy.only] *)
Definition strategy_only (names : list string) : PropLoadStrategy :=
  {| load_all := false; prop_names := Some (list_to_set names) |}.

(** [PropLoadStrategy.should_load] *)
Definition should_load (self : PropLoadStrategy) (prop_name : string) : bool :=
  if load_all self then true
  else match prop_names self with
       | Some names => bool_decide (prop_name ∈ names)
       | None => false
       end.

(** [PropLoadStrategy.needs_any_props] *)
Definition needs_any_props (self : PropLoadStrategy) : bool :=
  load_all self ||
  match prop_names self with
  | Some names => bool_decide (0 < size names)%nat
  | None => false
  end.

Record TraversalResult := {
  tr_start_nodes : list NodeRef;
  tr_steps : list TraversalStep;
  tr_node_filter : option (NodeRef -> bool);
  tr_prop_strategy : PropLoadStrategy
}.

(** [f"node:{node_id}"] *)
Definition default_key (node_id : Z) : string := "node:" +:+ pretty node_id.

(** One property of [_load_node_props]'s loop over [node_def.props.items()]. *)
Definition load_prop (strategy : PropLoadStrategy) (node_id : Z) (node_def : NodeDef)
    (props : Dict.t PyValue) (item : string * PropDef) : M St (Dict.t PyValue) :=
  let prop_name := item.1 in
  if should_load strategy prop_name then
    let* prop_key_id := _resolve_prop_key_id node_def prop_name in
    let* prop_value := get_node_prop node_id prop_key_id in
    match prop_value with
    | Some pv => ret (Dict.set prop_name (from_prop_value pv) props)
    | None => ret props
    end
  else ret props.

(** [TraversalResult._load_node_props] *)
Definition _load_node_props (self : TraversalResult) (node_id : Z) (node_def : NodeDef)
  : M St (Dict.t PyValue) :=
  if negb (needs_any_props (tr_prop_strategy self)) then ret []
  else for_fold (nd_props node_def) [] (load_prop (tr_prop_strategy self) node_id node_def).

(** [TraversalResult._create_node_ref] *)
Definition _create_node_ref (self : TraversalResult) (node_id : Z) (load_props : bool)
  : M St (option NodeRef) :=
  let* node_def := _get_node_def node_id in
  match node_def with
  | None => ret None
  | Some node_def =>
      let* key := get_node_key node_id in
      let key := match key with Some k => k | None => default_key node_id end in
      let* props := (if load_props then _load_node_props self node_id node_def else ret []) in
      ret (Some {| nr_id := node_id; nr_key := key; nr_node_def := node_def;
                   nr_props := props |})
  end.

(** The edge type identifier of a step: the one memoized on the
    descriptor, else the resolver's. *)
Definition step_etype_id (step : TraversalStep) : M St (option Z) :=
  match step_edge_def step with
  | None => ret None
  | Some edge_def =>
      match _etype_id edge_def with
      | Some etype_id => ret (Some etype_id)
      | None => let* etype_id := _resolve_etype_id edge_def in ret (Some etype_id)
      end
  end.

(** The neighbours of one frontier member; for [both],
    [list(set(out_ids) | set(in_ids))]. *)
Definition neighbor_ids (step : TraversalStep) (node_id : Z) (etype_id : option Z)
  : M St (list Z) :=
  match step with
  | OutStep _ => traverse_out node_id etype_id
  | InStep _ => traverse_in node_id etype_id
  | BothStep _ =>
      let* out_ids := traverse_out node_id etype_id in
      let* in_ids := traverse_in node_id etype_id in
      ret (union_list E out_ids in_ids)
  end.

(** [if neighbor_id not in visited: visited.add(...); next_ids.append(...)] *)
Definition visit (acc : gset Z * list Z) (neighbor_id : Z) : gset Z * list Z :=
  let '(visited, next_ids) := acc in
  if decide (neighbor_id ∈ visited) then acc
  else ({[neighbor_id]} ∪ visited, next_ids ++ [neighbor_id]).

(** Body of [for node_id in current_ids]. *)
Definition expand (step : TraversalStep) (etype_id : option Z) (acc : gset Z * list Z)
    (node_id : Z) : M St (gset Z * list Z) :=
  let* ns := neighbor_ids step node_id etype_id in
  ret (fold_left visit ns acc).

(** Body of [for step in self._steps] in [_execute_fast] and
    [_execute_fast_count]: the next frontier. *)
Definition fast_step (current_ids : list Z) (step : TraversalStep) : M St (list Z) :=
  let* etype_id := step_etype_id step in
  let* acc := for_fold current_ids (∅, []) (expand step etype_id) in
  ret acc.2.

(** [TraversalResult._execute_fast]: everything up to its first [yield]. *)
Definition _execute_fast (self : TraversalResult) : M St (list Z) :=
  for_fold (tr_steps self) (map nr_id (tr_start_nodes self)) fast_step.

(** [TraversalResult._execute_fast_count] *)
Definition _execute_fast_count (self : TraversalResult) : M St Z :=
  let* current_ids := for_fold (tr_steps self) (map nr_id (tr_start_nodes self)) fast_step in
  ret (Z.of_nat (length current_ids)).

(** The deduplication by identifier of [out_pairs + in_pairs]. *)
Definition dedup_pair (acc : gset Z * list (Z * option string)) (p : Z * option string)
  : gset Z * list (Z * option string) :=
  let '(seen, pairs) := acc in
  if decide (p.1 ∈ seen) then acc else ({[p.1]} ∪ seen, pairs ++ [p]).

Definition neighbor_pairs (step : TraversalStep) (node_id : Z) (etype_id : option Z)
  : M St (list (Z * option string)) :=
  match step with
  | OutStep _ => traverse_out_with_keys node_id etype_id
  | InStep _ => traverse_in_with_keys node_id etype_id
  | BothStep _ =>
      let* out_pairs := traverse_out_with_keys node_id etype_id in
      let* in_pairs := traverse_in_with_keys node_id etype_id in
      ret (fold_left dedup_pair (out_pairs ++ in_pairs) (∅, [])).2
  end.

(** [key or f"node:{neighbor_id}"] *)
Definition key_or_default (key : option string) (neighbor_id : Z) : string :=
  match key with
  | Some k => if str_truthy k then k else default_key neighbor_id
  | None => default_key neighbor_id
  end.

Definition visit_pair (acc : gset Z * list (Z * string)) (p : Z * option string)
  : gset Z * list (Z * string) :=
  let '(visited, next_pairs) := acc in
  if decide (p.1 ∈ visited) then acc
  else ({[p.1]} ∪ visited, next_pairs ++ [(p.1, key_or_default p.2 p.1)]).

Definition expand_pairs (step : TraversalStep) (etype_id : option Z)
    (acc : gset Z * list (Z * string)) (node_id : Z) : M St (gset Z * list (Z * string)) :=
  let* pairs := neighbor_pairs step node_id etype_id in
  ret (fold_left visit_pair pairs acc).

(** Body of [for step in self._steps] in [_execute_fast_with_keys]; the
    state is [(current_ids, next_pairs)]. *)
Definition keys_step (st : list Z * list (Z * string)) (step : TraversalStep)
  : M St (list Z * list (Z * string)) :=
  let* etype_id := step_etype_id step in
  let* acc := for_fold st.1 (∅, []) (expand_pairs step etype_id) in
  ret (map fst acc.2, acc.2).

(** [TraversalResult._execute_fast_with_keys]: everything up to its first
    [yield]. *)
Definition _execute_fast_with_keys (self : TraversalResult) : M St (list (Z * string)) :=
  match tr_steps self with
  | [] => ret (map (fun node => (nr_id node, nr_key node)) (tr_start_nodes self))
  | _ =>
      let* st := for_fold (tr_steps self) (map nr_id (tr_start_nodes self), []) keys_step in
      ret st.2
  end.

(** A generator, as far as its consumers can tell: the work done up to the
    first [yield], then one pending action per remaining loop iteration,
    each yielding a handle or nothing.  Nothing runs beyond the last item a
    consumer asks for. *)
Definition Gen (A : Type) : Type := M St (list (M St (option A))).

(** [list(gen)] *)
Fixpoint gen_collect {A} (items : list (M St (option A))) : M St (list A) :=
  match items with
  | [] => ret []
  | item :: rest =>
      let* r := item in
      let* l := gen_collect rest in
      ret (match r with Some a => a :: l | None => l end)
  end.

(** [for x in gen: return x] then [return None] *)
Fixpoint gen_first {A} (items : list (M St (option A))) : M St (option A) :=
  match items with
  | [] => ret None
  | item :: rest =>
      let* r := item in
      match r with
      | Some a => ret (Some a)
      | None => gen_first rest
      end
  end.

(** One iteration of the fast path of [_execute]. *)
Definition fast_item (p : Z * string) : M St (option NodeRef) :=
  let* node_def := _get_node_def p.1 in
  ret (match node_def with
       | Some node_def => Some {| nr_id := p.1; nr_key := p.2; nr_node_def := node_def;
                                  nr_props := [] |}
       | None => None
       end).

(** One iteration of the standard path of [_execute]. *)
Definition standard_item (self : TraversalResult) (load_props : bool) (node_id : Z)
  : M St (option NodeRef) :=
  let* node_ref := _create_node_ref self node_id load_props in
  ret (match node_ref with
       | Some node_ref =>
           match tr_node_filter self with
           | None => Some node_ref
           | Some node_filter => if node_filter node_ref then Some node_ref else None
           end
       | None => None
       end).

(** [TraversalResult._execute] *)
Definition _execute (self : TraversalResult) : Gen NodeRef :=
  let needs_filter := bool_decide (is_Some (tr_node_filter self)) in
  let needs_props := needs_any_props (tr_prop_strategy self) in
  if negb needs_filter && negb needs_props then
    let* pairs := _execute_fast_with_keys self in
    ret (map fast_item pairs)
  else
    let* ids := _execute_fast self in
    ret (map (standard_item self (needs_props || needs_filter)) ids).

(** [TraversalResult.to_list] *)
Definition to_list (self : TraversalResult) : M St (list NodeRef) :=
  let* items := _execute self in gen_collect items.

(** [TraversalResult.first] *)
Definition first (self : TraversalResult) : M St (option NodeRef) :=
  let* items := _execute self in gen_first items.

(** [TraversalResult.count] *)
Definition count (self : TraversalResult) : M St Z :=
  match tr_node_filter self with
  | None => _execute_fast_count self
  | Some _ =>
      let* items := _execute self in
      let* l := gen_collect items in
      ret (Z.of_nat (length l))
  end.

(** [TraversalResult.ids] *)
Definition ids (self : TraversalResult) : M St (list Z) := _execute_fast self.

(** Body of the loop of [TraversalResult.keys]. *)
Definition keys_item (result : list string) (node_id : Z) : M St (list string) :=
  let* key := get_node_key node_id in
  ret (match key with
       | Some k => if str_truthy k then result ++ [k] else result
       | None => result
       end).

(** [TraversalResult.keys] *)
Definition keys (self : TraversalResult) : M St (list string) :=
  let* node_ids := _execute_fast self in
  for_fold node_ids [] keys_item.

(** *** The traversal builder *)

Record TraversalBuilder := {
  tb_start_nodes : list NodeRef;
  tb_steps : list TraversalStep;
  tb_node_filter : option (NodeRef -> bool);
  tb_prop_strategy : PropLoadStrategy
}.

(** [TraversalBuilder.__init__] *)
Definition from_ (start_nodes : list NodeRef) : TraversalBuilder :=
  {| tb_start_nodes := start_nodes; tb_steps := []; tb_node_filter := None;
     tb_prop_strategy := strategy_none |}.

Definition add_step (self : TraversalBuilder) (step : TraversalStep) : TraversalBuilder :=
  {| tb_start_nodes := tb_start_nodes self; tb_steps := tb_steps self ++ [step];
     tb_node_filter := tb_node_filter self; tb_prop_strategy := tb_prop_strategy self |}.

(** [TraversalBuilder.out], [in_], [both] *)
Definition out (self : TraversalBuilder) (edge : option EdgeDef) := add_step self (OutStep edge).
Definition in_ (self : TraversalBuilder) (edge : option EdgeDef) := add_step self (InStep edge).
Definition both (self : TraversalBuilder) (edge : option EdgeDef) := add_step self (BothStep edge).

Definition set_strategy (self : TraversalBuilder) (s : PropLoadStrategy) : TraversalBuilder :=
  {| tb_start_nodes := tb_start_nodes self; tb_steps := tb_steps self;
     tb_node_filter := tb_node_filter self; tb_prop_strategy := s |}.

(** [TraversalBuilder.with_props] *)
Definition with_props (self : TraversalBuilder) : TraversalBuilder :=
  set_strategy self strategy_all.

(** [TraversalBuilder.load_props] *)
Definition load_props (self : TraversalBuilder) (names : list string) : TraversalBuilder :=
  set_strategy self (strategy_only names).

(** [TraversalBuilder.where_node] *)
Definition where_node (self : TraversalBuilder) (predicate : NodeRef -> bool)
  : TraversalBuilder :=
  {| tb_start_nodes := tb_start_nodes self; tb_steps := tb_steps self;
     tb_node_filter := Some predicate; tb_prop_strategy := strategy_all |}.

(** [TraversalBuilder._build_result] *)
Definition _build_result (self : TraversalBuilder) : TraversalResult :=
  {| tr_start_nodes := tb_start_nodes self; tr_steps := tb_steps self;
     tr_node_filter := tb_node_filter self; tr_prop_strategy := tb_prop_strategy self |}.

(** ** Path queries ([PathFindingBuilder]) *)

Record PathResult := {
  pr_nodes : list NodeRef;
  pr_found : bool;
  pr_total_weight : Z
}.

Record PathFindingBuilder := {
  pf_source : NodeRef;
  pf_target : option NodeRef;
  pf_edge_type : option EdgeDef;
  pf_max_depth : option Z;
  pf_direction : string;
  pf_load_props : bool
}.

(** [PathFindingBuilder.__init__] *)
Definition shortest_path (source : NodeRef) : PathFindingBuilder :=
  {| pf_source := source; pf_target := None; pf_edge_type := None; pf_max_depth := None;
     pf_direction := "out"; pf_load_props := false |}.

(** [PathFindingBuilder.to] *)
Definition to (self : PathFindingBuilder) (target : NodeRef) : PathFindingBuilder :=
  {| pf_source := pf_source self; pf_target := Some target;
     pf_edge_type := pf_edge_type self; pf_max_depth := pf_max_depth self;
     pf_direction := pf_direction self; pf_load_props := pf_load_props self |}.

(** [PathFindingBuilder.via] *)
Definition via (self : PathFindingBuilder) (edge : EdgeDef) : PathFindingBuilder :=
  {| pf_source := pf_source self; pf_target := pf_target self;
     pf_edge_type := Some edge; pf_max_depth := pf_max_depth self;
     pf_direction := pf_direction self; pf_load_props := pf_load_props self |}.

(** [PathFindingBuilder.max_depth] *)
Definition max_depth (self : PathFindingBuilder) (depth : Z) : PathFindingBuilder :=
  {| pf_source := pf_source self; pf_target := pf_target self;
     pf_edge_type := pf_edge_type self; pf_max_depth := Some depth;
     pf_direction := pf_direction self; pf_load_props := pf_load_props self |}.

(** [PathFindingBuilder.with_props] *)
Definition path_with_props (self : PathFindingBuilder) : PathFindingBuilder :=
  {| pf_source := pf_source self; pf_target := pf_target self;
     pf_edge_type := pf_edge_type self; pf_max_depth := pf_max_depth self;
     pf_direction := pf_direction self; pf_load_props := true |}.

(** [PathFindingBuilder.direction] *)
Definition direction (self : PathFindingBuilder) (dir : string) : PathFindingBuilder :=
  {| pf_source := pf_source self; pf_target := pf_target self;
     pf_edge_type := pf_edge_type self; pf_max_depth := pf_max_depth self;
     pf_direction := dir; pf_load_props := pf_load_props self |}.

(** One property of the loop of [PathFindingBuilder._create_node_ref]. *)
Definition path_load_prop (node_id : Z) (node_def : NodeDef) (props : Dict.t PyValue)
    (item : string * PropDef) : M St (Dict.t PyValue) :=
  let prop_name := item.1 in
  let* prop_key_id := _resolve_prop_key_id node_def prop_name in
  let* prop_value := get_node_prop node_id prop_key_id in
  match prop_value with
  | Some pv => ret (Dict.set prop_name (from_prop_value pv) props)
  | None => ret props
  end.

(** [PathFindingBuilder._create_node_ref] *)
Definition path_create_node_ref (self : PathFindingBuilder) (node_id : Z)
  : M St (option NodeRef) :=
  let* node_def := _get_node_def node_id in
  match node_def with
  | None => ret None
  | Some node_def =>
      let* key := get_node_key node_id in
      let key := match key with Some k => k | None => default_key node_id end in
      let* props := (if pf_load_props self
                     then for_fold (nd_props node_def) [] (path_load_prop node_id node_def)
                     else ret []) in
      ret (Some {| nr_id := node_id; nr_key := key; nr_node_def := node_def;
                   nr_props := props |})
  end.

(** [etype_id = None; if self._edge_type is not None: etype_id = resolve(...)] *)
Definition path_etype_id (self : PathFindingBuilder) : M St (option Z) :=
  match pf_edge_type self with
  | None => ret None
  | Some edge => let* etype_id := _resolve_etype_id edge in ret (Some etype_id)
  end.

(** The conversion of the engine's path into handles, shared by [find] and
    [find_weighted]. *)
Definition path_nodes (self : PathFindingBuilder) (nodes : list NodeRef) (node_id : Z)
  : M St (list NodeRef) :=
  let* node_ref := path_create_node_ref self node_id in
  ret (match node_ref with Some r => nodes ++ [r] | None => nodes end).

Definition path_result (self : PathFindingBuilder) (result : EnginePath) : M St PathResult :=
  if negb (ep_found result) then
    ret {| pr_nodes := []; pr_found := false; pr_total_weight := 0 |}
  else
    let* nodes := for_fold (ep_path result) [] (path_nodes self) in
    ret {| pr_nodes := nodes; pr_found := true;
           pr_total_weight := ep_total_weight result |}.

Definition target_required : PyExn :=
  ValueError "Target node required. Use .to(target) first.".

(** [PathFindingBuilder.find] *)
Definition find (self : PathFindingBuilder) : M St PathResult :=
  match pf_target self with
  | None => raise target_required
  | Some target =>
      let* etype_id := path_etype_id self in
      let* result := find_path_bfs (nr_id (pf_source self)) (nr_id target) etype_id
                       (pf_max_depth self) (pf_direction self) in
      path_result self result
  end.

(** [PathFindingBuilder.find_weighted] *)
Definition find_weighted (self : PathFindingBuilder) : M St PathResult :=
  match pf_target self with
  | None => raise target_required
  | Some target =>
      let* etype_id := path_etype_id self in
      let* result := find_path_dijkstra (nr_id (pf_source self)) (nr_id target) etype_id
                       (pf_max_depth self) (pf_direction self) in
      path_result self result
  end.

(** [PathFindingBuilder.exists] *)
Definition path_exists (self : PathFindingBuilder) : M St bool :=
  match pf_target self with
  | None => raise target_required
  | Some target =>
      let* etype_id := path_etype_id self in
      has_path (nr_id (pf_source self)) (nr_id target) etype_id (pf_max_depth self)
  end.

End Builders.

(** ** An in-memory engine *)

(** Modelled from the spec: the storage engine itself is an external
    collaborator; this is the simplest store with the interface of section
    6 of the specification.  Nodes have an identifier that is never reused
    and a unique key; edges are typed, directed and may be parallel; at most
    one transaction is active, [begin] snapshots the store, [rollback]
    restores the snapshot and [commit] drops it; identifiers of property
    names and edge types are interned in the store. *)
Module Mem.

Record Store := {
  nodes : list (Z * string);
  next_id : Z;
  node_props : gmap (Z * Z) PropValue;
  edges : list (Z * Z * Z);
  edge_props : gmap (Z * Z * Z * Z) PropValue;
  prop_keys : list string;
  etypes : list string
}.

Record Db := {
  store : Store;
  saved : option Store;
  schema : list NodeDef
}.

Definition empty_store : Store :=
  {| nodes := []; next_id := 1; node_props := ∅; edges := []; edge_props := ∅;
     prop_keys := []; etypes := [] |}.

Definition open (schema : list NodeDef) : Db :=
  {| store := empty_store; saved := None; schema := schema |}.

Definition with_store (db : Db) (s : Store) : Db :=
  {| store := s; saved := saved db; schema := schema db |}.

Definition begin (db : Db) : Exc unit * Db :=
  match saved db with
  | Some _ => (Raise (EngineError "transaction already active"), db)
  | None => (Ok tt, {| store := store db; saved := Some (store db); schema := schema db |})
  end.

Definition commit (db : Db) : Exc unit * Db :=
  match saved db with
  | None => (Raise (EngineError "no active transaction"), db)
  | Some _ => (Ok tt, {| store := store db; saved := None; schema := schema db |})
  end.

Definition rollback (db : Db) : Exc unit * Db :=
  match saved db with
  | None => (Raise (EngineError "no active transaction"), db)
  | Some s => (Ok tt, {| store := s; saved := None; schema := schema db |})
  end.

Definition key_of (s : Store) (id : Z) : option string :=
  snd <$> List.find (fun n => Z.eqb n.1 id) (nodes s).

Definition id_of (s : Store) (key : string) : option Z :=
  fst <$> List.find (fun n => String.eqb n.2 key) (nodes s).

Definition create_node (key : string) (db : Db) : Exc Z * Db :=
  match id_of (store db) key with
  | Some _ => (Raise (EngineError "conflict: key exists"), db)
  | None =>
      let s := store db in
      (Ok (next_id s),
       with_store db {| nodes := nodes s ++ [(next_id s, key)]; next_id := next_id s + 1;
                        node_props := node_props s; edges := edges s;
                        edge_props := edge_props s; prop_keys := prop_keys s;
                        etypes := etypes s |})
  end.

Definition set_node_prop (id pk : Z) (v : PropValue) (db : Db) : Exc unit * Db :=
  let s := store db in
  (Ok tt, with_store db {| nodes := nodes s; next_id := next_id s;
                           node_props := <[(id, pk) := v]> (node_props s);
                           edges := edges s; edge_props := edge_props s;
                           prop_keys := prop_keys s; etypes := etypes s |}).

Definition delete_node_prop (id pk : Z) (db : Db) : Exc unit * Db :=
  let s := store db in
  (Ok tt, with_store db {| nodes := nodes s; next_id := next_id s;
                           node_props := delete (id, pk) (node_props s);
                           edges := edges s; edge_props := edge_props s;
                           prop_keys := prop_keys s; etypes := etypes s |}).

Definition touches (id : Z) (e : Z * Z * Z) : bool :=
  Z.eqb e.1.1 id || Z.eqb e.2 id.

Definition delete_node (id : Z) (db : Db) : Exc bool * Db :=
  let s := store db in
  match key_of s id with
  | None => (Ok false, db)
  | Some _ =>
      (Ok true,
       with_store db {| nodes := List.filter (fun n => negb (Z.eqb n.1 id)) (nodes s);
                        next_id := next_id s;
                        node_props := filter (fun kv => kv.1.1 ≠ id) (node_props s);
                        edges := List.filter (fun e => negb (touches id e)) (edges s);
                        edge_props :=
                          filter (fun kv => kv.1.1.1.1 ≠ id ∧ kv.1.1.2 ≠ id) (edge_props s);
                        prop_keys := prop_keys s; etypes := etypes s |})
  end.

Definition same_edge (src et dst : Z) (e : Z * Z * Z) : bool :=
  Z.eqb e.1.1 src && Z.eqb e.1.2 et && Z.eqb e.2 dst.

Definition add_edge (src et dst : Z) (db : Db) : Exc unit * Db :=
  let s := store db in
  (Ok tt, with_store db {| nodes := nodes s; next_id := next_id s;
                           node_props := node_props s;
                           edges := edges s ++ [(src, et, dst)];
                           edge_props := edge_props s;
                           prop_keys := prop_keys s; etypes := etypes s |}).

Definition delete_edge (src et dst : Z) (db : Db) : Exc unit * Db :=
  let s := store db in
  (Ok tt, with_store db {| nodes := nodes s; next_id := next_id s;
                           node_props := node_props s;
                           edges := List.filter (fun e => negb (same_edge src et dst e)) (edges s);
                           edge_props := edge_props s;
                           prop_keys := prop_keys s; etypes := etypes s |}).

Definition set_edge_prop (src et dst pk : Z) (v : PropValue) (db : Db) : Exc unit * Db :=
  let s := store db in
  (Ok tt, with_store db {| nodes := nodes s; next_id := next_id s;
                           node_props := node_props s; edges := edges s;
                           edge_props := <[(src, et, dst, pk) := v]> (edge_props s);
                           prop_keys := prop_keys s; etypes := etypes s |}).

Definition delete_edge_prop (src et dst pk : Z) (db : Db) : Exc unit * Db :=
  let s := store db in
  (Ok tt, with_store db {| nodes := nodes s; next_id := next_id s;
                           node_props := node_props s; edges := edges s;
                           edge_props := delete (src, et, dst, pk) (edge_props s);
                           prop_keys := prop_keys s; etypes := etypes s |}).

Definition et_matches (et : option Z) (e : Z * Z * Z) : bool :=
  match et with Some t => Z.eqb e.1.2 t | None => true end.

Definition out_of (s : Store) (id : Z) (et : option Z) : list Z :=
  map snd (List.filter (fun e => Z.eqb e.1.1 id && et_matches et e) (edges s)).

Definition in_of (s : Store) (id : Z) (et : option Z) : list Z :=
  map (fun e => e.1.1) (List.filter (fun e => Z.eqb e.2 id && et_matches et e) (edges s)).

Definition with_key (s : Store) (id : Z) : Z * option string := (id, key_of s id).

Definition traverse_out (id : Z) (et : option Z) (db : Db) : Exc (list Z) :=
  Ok (out_of (store db) id et).

Definition traverse_in (id : Z) (et : option Z) (db : Db) : Exc (list Z) :=
  Ok (in_of (store db) id et).

Definition traverse_out_with_keys (id : Z) (et : option Z) (db : Db)
  : Exc (list (Z * option string)) :=
  Ok (map (with_key (store db)) (out_of (store db) id et)).

Definition traverse_in_with_keys (id : Z) (et : option Z) (db : Db)
  : Exc (list (Z * option string)) :=
  Ok (map (with_key (store db)) (in_of (store db) id et)).

(** The neighbours followed by a path search in direction [dir]. *)
Definition toward (s : Store) (dir : string) (et : option Z) (id : Z) : list Z :=
  if String.eqb dir "in" then in_of s id et
  else if String.eqb dir "both" then out_of s id et ++ in_of s id et
  else out_of s id et.

(** Extend the path [p] (last node first) by every neighbour not yet seen. *)
Definition extend (nbrs : Z -> list Z) (acc : gset Z * list (list Z)) (p : list Z)
  : gset Z * list (list Z) :=
  match p with
  | [] => acc
  | n :: _ =>
      fold_left (fun a m => if decide (m ∈ a.1) then a
                            else ({[m]} ∪ a.1, a.2 ++ [m :: p]))
                (nbrs n) acc
  end.

(** Breadth-first search over paths of growing length, at most [fuel] hops. *)
Fixpoint bfs (fuel : nat) (nbrs : Z -> list Z) (tgt : Z) (seen : gset Z)
    (frontier : list (list Z)) : option (list Z) :=
  match List.find (fun p => match p with n :: _ => Z.eqb n tgt | [] => false end) frontier with
  | Some p => Some (rev p)
  | None =>
      match fuel with
      | O => None
      | S fuel' =>
          let '(seen', next) := fold_left (extend nbrs) frontier (seen, []) in
          match next with
          | [] => None
          | _ => bfs fuel' nbrs tgt seen' next
          end
      end
  end.

Definition hops (s : Store) (max_depth : option Z) : nat :=
  match max_depth with
  | Some d => Z.to_nat d
  | None => length (nodes s)
  end.

Definition shortest (s : Store) (src tgt : Z) (et max_depth : option Z) (dir : string)
  : option (list Z) :=
  bfs (hops s max_depth) (toward s dir et) tgt {[src]} [[src]].

(** The binary64 bit pattern of a natural number below [2 ^ 53]. *)
Definition float_of_nat (n : nat) : Z :=
  let z := Z.of_nat n in
  if Z.eqb z 0 then 0
  else let e := Z.log2 z in (1023 + e) * 2 ^ 52 + (z - 2 ^ e) * 2 ^ (52 - e).

Definition find_path_bfs (src tgt : Z) (et max_depth : option Z) (dir : string) (db : Db)
  : Exc EnginePath :=
  Ok match shortest (store db) src tgt et max_depth dir with
     | Some p => {| ep_found := true; ep_path := p; ep_total_weight := 0 |}
     | None => {| ep_found := false; ep_path := []; ep_total_weight := 0 |}
     end.

(** Every edge has weight one. *)
Definition find_path_dijkstra (src tgt : Z) (et max_depth : option Z) (dir : string) (db : Db)
  : Exc EnginePath :=
  Ok match shortest (store db) src tgt et max_depth dir with
     | Some p => {| ep_found := true; ep_path := p;
                    ep_total_weight := float_of_nat (length p - 1) |}
     | None => {| ep_found := false; ep_path := []; ep_total_weight := 0 |}
     end.

Definition has_path (src tgt : Z) (et max_depth : option Z) (db : Db) : Exc bool :=
  Ok (bool_decide (is_Some (shortest (store db) src tgt et max_depth "out"))).

Definition get_node_by_key (key : string) (db : Db) : Exc (option Z) :=
  Ok (id_of (store db) key).

Definition get_node_key (id : Z) (db : Db) : Exc (option string) :=
  Ok (key_of (store db) id).

Definition get_node_prop (id pk : Z) (db : Db) : Exc (option PropValue) :=
  Ok (node_props (store db) !! (id, pk)).

(** Position of [x] in [l], counted from [i]. *)
Fixpoint index_of (x : string) (l : list string) (i : Z) : option Z :=
  match l with
  | [] => None
  | y :: l' => if String.eqb x y then Some i else index_of x l' (i + 1)
  end.

Definition intern_prop_key (name : string) (db : Db) : Exc Z * Db :=
  let s := store db in
  match index_of name (prop_keys s) 0 with
  | Some i => (Ok i, db)
  | None =>
      (Ok (Z.of_nat (length (prop_keys s))),
       with_store db {| nodes := nodes s; next_id := next_id s;
                        node_props := node_props s; edges := edges s;
                        edge_props := edge_props s;
                        prop_keys := prop_keys s ++ [name]; etypes := etypes s |})
  end.

Definition intern_etype (name : string) (db : Db) : Exc Z * Db :=
  let s := store db in
  match index_of name (etypes s) 0 with
  | Some i => (Ok i, db)
  | None =>
      (Ok (Z.of_nat (length (etypes s))),
       with_store db {| nodes := nodes s; next_id := next_id s;
                        node_props := node_props s; edges := edges s;
                        edge_props := edge_props s;
                        prop_keys := prop_keys s; etypes := etypes s ++ [name] |})
  end.

(** The node type of an identifier: the registered type whose name is the
    prefix of the node's key. *)
Definition node_def_of (id : Z) (db : Db) : option NodeDef :=
  match key_of (store db) id with
  | None => None
  | Some key => List.find (fun nd => String.prefix (nd_name nd +:+ ":") key) (schema db)
  end.

(** [list(set(out_ids) | set(in_ids))] for the examples: the members in
    increasing order, which is the order in which CPython lists a set of
    distinct non-negative integers that are all smaller than its table,
    as the identifiers of the examples are. *)
Definition sorted_union (out_ids in_ids : list Z) : list Z :=
  merge_sort Z.le (elements ((list_to_set out_ids : gset Z) ∪ list_to_set in_ids)).

Definition sorted_union_NoDup (out_ids in_ids : list Z) : NoDup (sorted_union out_ids in_ids) :=
  ltac:(unfold sorted_union; rewrite merge_sort_Permutation; apply NoDup_elements).

Definition sorted_union_elem (out_ids in_ids : list Z) (x : Z)
  : x ∈ sorted_union out_ids in_ids <-> x ∈ out_ids \/ x ∈ in_ids :=
  ltac:(unfold sorted_union;
        rewrite merge_sort_Permutation, elem_of_elements, elem_of_union,
          !elem_of_list_to_set; reflexivity).

Definition engine : Engine Db := {|
  db_begin := begin;
  db_commit := commit;
  db_rollback := rollback;
  db_create_node := create_node;
  db_get_node_by_key := get_node_by_key;
  db_get_node_key := get_node_key;
  db_set_node_prop := set_node_prop;
  db_delete_node_prop := delete_node_prop;
  db_get_node_prop := get_node_prop;
  db_delete_node := delete_node;
  db_add_edge := add_edge;
  db_delete_edge := delete_edge;
  db_set_edge_prop := set_edge_prop;
  db_delete_edge_prop := delete_edge_prop;
  db_traverse_out := traverse_out;
  db_traverse_in := traverse_in;
  db_traverse_out_with_keys := traverse_out_with_keys;
  db_traverse_in_with_keys := traverse_in_with_keys;
  db_find_path_bfs := find_path_bfs;
  db_find_path_dijkstra := find_path_dijkstra;
  db_has_path := has_path;
  resolve_etype_id := fun e => intern_etype (ed_name e);
  resolve_node_prop_key_id := fun _ name => intern_prop_key name;
  resolve_edge_prop_key_id := fun _ name => intern_prop_key name;
  get_node_def := fun id db => Ok (node_def_of id db);
  union_list := sorted_union;
  union_list_NoDup := sorted_union_NoDup;
  union_list_elem := sorted_union_elem
|}.

(** The conversions for the examples: exact on [None], booleans, strings
    and integers below [2 ^ 53] in magnitude.  The examples convert no
    float and no vector to a string and no string to a number; there
    [str] answers as for [None] and [int] and [float] raise. *)
Definition builtins : Builtins := {|
  py_str := fun v => match v with
                     | PyStr s => s
                     | PyInt z => pretty z
                     | PyBool true => "True"
                     | PyBool false => "False"
                     | _ => "None"
                     end;
  py_int := fun v => match v with
                     | PyInt z => Ok z
                     | PyBool b => Ok (if b then 1 else 0)
                     | _ => Raise (TypeError "int() argument must be a number")
                     end;
  py_float := fun v => match v with
                       | PyInt z => Ok (if Z.ltb z 0
                                        then 2 ^ 63 + float_of_nat (Z.to_nat (- z))
                                        else float_of_nat (Z.to_nat z))
                       | PyFloat f => Ok f
                       | _ => Raise (TypeError "float() argument must be a number")
                       end
|}.

(** A schema for the examples: users with a name and an age, keyed
    [user:<name>]; the edge type [knows]. *)
Definition user : NodeDef := {|
  nd_name := "user";
  nd_props := [("name", {| prop_type := "string" |}); ("age", {| prop_type := "int" |});
               ("embedding", {| prop_type := "vector" |})];
  key_fn := fun v => match v with
                     | PyStr s => Ok ("user:" +:+ s)
                     | _ => Raise (TypeError "key must be a string")
                     end
|}.

Definition knows : EdgeDef :=
  {| ed_name := "knows"; ed_props := [("since", {| prop_type := "int" |})];
     _etype_id := None |}.

(** The world in which the examples start: an empty store, nothing logged. *)
Definition fresh : World Db := {| w_db := open [user]; w_log := [] |}.

End Mem.

(** ** Observations used to state the properties *)

(** [w'] was reached from [w] by logging further calls. *)
Definition extends {St} (w w' : World St) : Prop :=
  exists l, w_log w' = w_log w ++ l.

(** The neighbours the engine reports for [m] in state [s]: what
    [neighbor_ids] computes, as a function of the engine state. *)
Definition neighbors_of {St} (E : Engine St) (step : TraversalStep) (et : option Z) (s : St) (m : Z)
  : Exc (list Z) :=
  match step with
  | OutStep _ => db_traverse_out E m et s
  | InStep _ => db_traverse_in E m et s
  | BothStep _ =>
      match db_traverse_out E m et s with
      | Raise e => Raise e
      | Ok out_ids =>
          match db_traverse_in E m et s with
          | Raise e => Raise e
          | Ok in_ids => Ok (union_list E out_ids in_ids)
          end
      end
  end.

(** The same for the calls that also return keys. *)
Definition pairs_of {St} (E : Engine St) (step : TraversalStep) (et : option Z) (s : St) (m : Z)
  : Exc (list (Z * option string)) :=
  match step with
  | OutStep _ => db_traverse_out_with_keys E m et s
  | InStep _ => db_traverse_in_with_keys E m et s
  | BothStep _ =>
      match db_traverse_out_with_keys E m et s with
      | Raise e => Raise e
      | Ok out_pairs =>
          match db_traverse_in_with_keys E m et s with
          | Raise e => Raise e
          | Ok in_pairs => Ok (fold_left dedup_pair (out_pairs ++ in_pairs) (∅, [])).2
          end
      end
  end.

(** The invariant of the inner loops: [visited] is the set of the
    identifiers appended so far, and none was appended twice. *)
Definition dedup_inv {A} (key : A -> Z) (acc : gset Z * list A) : Prop :=
  NoDup (map key acc.2) /\ forall x, x ∈ acc.1 <-> x ∈ map key acc.2.

(** The node type resolver answers for the identifier, with a node type
    or with [None]. *)
Definition resolver_answers {St} (E : Engine St) (s : St) (id : Z) : Prop :=
  exists node_def, get_node_def E id s = Ok node_def.

(** The handle the fast path of [_execute] builds for a pair, if any,
    when the node type resolver answers. *)
Definition fast_ref {St} (E : Engine St) (s : St) (p : Z * string) : option NodeRef :=
  match get_node_def E p.1 s with
  | Ok (Some node_def) => Some {| nr_id := p.1; nr_key := p.2; nr_node_def := node_def;
                                  nr_props := [] |}
  | _ => None
  end.

(** ** Mutations as one family *)

(** The mutation operations of [builders.py] with their arguments. *)
Inductive Mutation :=
| MInsert (self : InsertExecutor)
| MUpdate (self : UpdateExecutor)
| MUpdateRef (self : UpdateByRefExecutor)
| MDelete (self : DeleteExecutor)
| MLink (src : NodeRef) (edge_def : EdgeDef) (dst : NodeRef) (props : option (Dict.t PyValue))
| MUnlink (src : NodeRef) (edge_def : EdgeDef) (dst : NodeRef)
| MUpdateEdge (self : UpdateEdgeExecutor).

Section Mutations.
Context {St : Type}.
Variable E : Engine St.
Variable py : Builtins.

(** Running a mutation, its result dropped. *)
Definition run_mutation (m : Mutation) : M St unit :=
  match m with
  | MInsert self => insert_execute E py self
  | MUpdate self => update_execute E py self
  | MUpdateRef self => update_ref_execute E py self
  | MDelete self => let* _ := delete_execute E self in ret tt
  | MLink src edge_def dst props => create_link E py src edge_def dst props
  | MUnlink src edge_def dst => delete_link E src edge_def dst
  | MUpdateEdge self => update_edge_execute E py self
  end.

(** What a mutation does before it opens its transaction: the validation
    and the resolution of the node or edge type identifier the [try] block
    works on; [None] when the operation returns without a transaction. *)
Definition txn_prologue (m : Mutation) : M St (option Z) :=
  match m with
  | MInsert _ => ret (Some 0)
  | MUpdate self =>
      match ue_where_id self, ue_where_key self with
      | None, None => raise (ValueError "Update requires a where condition (id or key)")
      | _, _ =>
          let* node_id := resolve_where E (ue_where_id self) (ue_where_key self) in
          match node_id with
          | None => raise (ValueError ("Node not found: " +:+ fmt_opt_str (ue_where_key self)))
          | Some id => ret (Some id)
          end
      end
  | MUpdateRef self => ret (Some (nr_id (ur_node_ref self)))
  | MDelete self =>
      match de_where_id self, de_where_key self with
      | None, None => raise (ValueError "Delete requires a where condition (id or key)")
      | _, _ => resolve_where E (de_where_id self) (de_where_key self)
      end
  | MLink _ edge_def _ _ | MUnlink _ edge_def _ =>
      let* etype_id := _resolve_etype_id E edge_def in ret (Some etype_id)
  | MUpdateEdge self =>
      let* etype_id := _resolve_etype_id E (ee_edge_def self) in ret (Some etype_id)
  end.

(** The [try] block of a mutation, on the identifier its prologue
    resolved. *)
Definition txn_body (m : Mutation) (x : Z) : M St unit :=
  match m with
  | MInsert self => let* _ := insert_body E py self in ret tt
  | MUpdate self => update_body E py (ue_node_def self) x (ue_data self)
  | MUpdateRef self => update_body E py (nr_node_def (ur_node_ref self)) x (ur_data self)
  | MDelete _ => let* _ := delete_body E x in ret tt
  | MLink src edge_def dst props => create_link_body E py src edge_def dst props x
  | MUnlink src _ dst => delete_link_body E src dst x
  | MUpdateEdge self => update_edge_body E py self x
  end.

(** One engine call that can happen inside a [try] block before its
    [commit] succeeds: a data write, an identifier resolution, or a
    failed [commit]; whether the call succeeded or failed. *)
Inductive tx_step : St -> St -> Prop :=
| tx_create_node key s r s' : db_create_node E key s = (r, s') -> tx_step s s'
| tx_set_node_prop id pk v s r s' : db_set_node_prop E id pk v s = (r, s') -> tx_step s s'
| tx_delete_node_prop id pk s r s' : db_delete_node_prop E id pk s = (r, s') -> tx_step s s'
| tx_delete_node id s r s' : db_delete_node E id s = (r, s') -> tx_step s s'
| tx_add_edge a t b s r s' : db_add_edge E a t b s = (r, s') -> tx_step s s'
| tx_delete_edge a t b s r s' : db_delete_edge E a t b s = (r, s') -> tx_step s s'
| tx_set_edge_prop a t b pk v s r s' :
    db_set_edge_prop E a t b pk v s = (r, s') -> tx_step s s'
| tx_delete_edge_prop a t b pk s r s' :
    db_delete_edge_prop E a t b pk s = (r, s') -> tx_step s s'
| tx_resolve_etype e s r s' : resolve_etype_id E e s = (r, s') -> tx_step s s'
| tx_resolve_node_prop n name s r s' :
    resolve_node_prop_key_id E n name s = (r, s') -> tx_step s s'
| tx_resolve_edge_prop e name s r s' :
    resolve_edge_prop_key_id E e name s = (r, s') -> tx_step s s'
| tx_commit_failed s e s' : db_commit E s = (Raise e, s') -> tx_step s s'.

(** The engine's side of the contract: a successful [rollback] undoes
    whatever was done since the matching [begin]. *)
Definition transactional : Prop :=
  forall s0 s1 s2 s3,
    db_begin E s0 = (Ok tt, s1) ->
    rtc tx_step s1 s2 ->
    db_rollback E s2 = (Ok tt, s3) ->
    s3 = s0.

(** [m] changes the engine state through such calls only. *)
Definition writes_only {A} (m : M St A) : Prop :=
  forall w r w', m w = (r, w') -> rtc tx_step (w_db w) (w_db w').

(** When [m] raises, the engine state was changed through such calls only. *)
Definition raises_within {A} (m : M St A) : Prop :=
  forall w e w', m w = (Raise e, w') -> rtc tx_step (w_db w) (w_db w').

End Mutations.

(** Between the worlds [w] and [w'] the update of the declared field
    [name] was issued: its property key was resolved and the next call
    deleted the property (value [None]) or set it to the converted
    value. *)
Definition field_updated {St} (E : Engine St) (py : Builtins) (node_def : NodeDef)
    (node_id : Z) (name : string) (value : PyValue) (prop_def : PropDef)
    (w w' : World St) : Prop :=
  exists pk s s1 c l1 l2,
    resolve_node_prop_key_id E node_def name s = (Ok pk, s1) /\
    w_log w' = w_log w ++ l1 ++ [CResolveNodePropKeyId (nd_name node_def) name; c] ++ l2 /\
    (value = PyNone -> c = CDeleteNodeProp node_id pk) /\
    (value <> PyNone ->
     exists pv, to_prop_value py prop_def value = Ok pv /\ c = CSetNodeProp node_id pk pv).

(** ** Sample data for the examples *)

Module Sample.
Definition alice : NodeRef :=
  {| nr_id := 1; nr_key := "user:alice"; nr_node_def := Mem.user; nr_props := [] |}.
Definition bob : NodeRef :=
  {| nr_id := 2; nr_key := "user:bob"; nr_node_def := Mem.user; nr_props := [] |}.
Definition carol : NodeRef :=
  {| nr_id := 3; nr_key := "user:carol"; nr_node_def := Mem.user; nr_props := [] |}.

(** A handle to a node that has since been deleted, and a handle to Alice
    with a materialized property. *)
Definition dave : NodeRef :=
  {| nr_id := 9; nr_key := "user:dave"; nr_node_def := Mem.user; nr_props := [] |}.

(** Alice knows Bob through two parallel edges, Carol knows Bob, and Bob
    knows Alice; Alice has a name and an age. *)
Definition friends_store : Mem.Store :=
  {| Mem.nodes := [(1, "user:alice"); (2, "user:bob"); (3, "user:carol")];
     Mem.next_id := 4;
     Mem.node_props := {[ (1, 0) := PVString "Alice"; (1, 1) := PVInt 30 ]};
     Mem.edges := [(1, 0, 2); (1, 0, 2); (3, 0, 2); (2, 0, 1)];
     Mem.edge_props := ∅;
     Mem.prop_keys := ["name"; "age"];
     Mem.etypes := ["knows"] |}.

Definition friends : World Mem.Db :=
  {| w_db := {| Mem.store := friends_store; Mem.saved := None; Mem.schema := [Mem.user] |};
     w_log := [] |}.
End Sample.

(** ** The remaining methods of the two files *)

(** [NodeRef.__init__]: [props] defaults to an empty dictionary. *)
Definition NodeRef_init (id : Z) (key : string) (node_def : NodeDef)
    (props : option (Dict.t PyValue)) : NodeRef :=
  {| nr_id := id; nr_key := key; nr_node_def := node_def;
     nr_props := match props with Some d => d | None => [] end |}.

(** [TraversalResult._create_node_ref_fast] *)
Definition _create_node_ref_fast (node_id : Z) (node_def : NodeDef) : NodeRef :=
  {| nr_id := node_id; nr_key := EmptyString; nr_node_def := node_def; nr_props := [] |}.

(** [PathResult.__bool__] and [PathResult.__len__] *)
Definition PathResult_bool (self : PathResult) : bool := pr_found self.
Definition PathResult_len (self : PathResult) : nat := length (pr_nodes self).

Section Shortcuts.
Context {St : Type}.
Variable E : Engine St.

(** [TraversalResult.__iter__] *)
Definition __iter__ (self : TraversalResult) : @Gen St NodeRef := _execute E self.

(** [TraversalBuilder.nodes] and the shortcuts [to_list], [first], [count],
    [ids] and [keys] of the builder. *)
Definition nodes (self : TraversalBuilder) : TraversalResult := _build_result self.
Definition builder_to_list (self : TraversalBuilder) : M St (list NodeRef) :=
  to_list E (_build_result self).
Definition builder_first (self : TraversalBuilder) : M St (option NodeRef) :=
  first E (_build_result self).
Definition builder_count (self : TraversalBuilder) : M St Z := count E (_build_result self).
Definition builder_ids (self : TraversalBuilder) : M St (list Z) := ids E (_build_result self).
Definition builder_keys (self : TraversalBuilder) : M St (list string) :=
  keys E (_build_result self).

End Shortcuts.

(** ** Observations on the call log *)

(** Every call that [m] logs satisfies [P]. *)
Definition logs {St A} (P : Call -> bool) (m : M St A) : Prop :=
  forall w r w', m w = (r, w') ->
    exists l, w_log w' = w_log w ++ l /\ Forall (fun c => P c = true) l.

(** Transaction control. *)
Definition is_tx_control (c : Call) : bool :=
  match c with CBegin | CCommit | CRollback => true | _ => false end.

Definition not_tx_control (c : Call) : bool := negb (is_tx_control c).

(** A write to the nodes, edges or properties of the store. *)
Definition is_data_write (c : Call) : bool :=
  match c with
  | CCreateNode _ | CSetNodeProp _ _ _ | CDeleteNodeProp _ _ | CDeleteNode _
  | CAddEdge _ _ _ | CDeleteEdge _ _ _ | CSetEdgeProp _ _ _ _ _
  | CDeleteEdgeProp _ _ _ _ => true
  | _ => false
  end.

(** Neither transaction control nor a data write. *)
Definition is_read_only (c : Call) : bool := negb (is_tx_control c) && negb (is_data_write c).

(** The calls of the identifier-only strategy. *)
Definition is_id_traversal (c : Call) : bool :=
  match c with CTraverseOut _ _ | CTraverseIn _ _ | CResolveEtypeId _ => true | _ => false end.

(** The calls of the identifier-with-keys strategy. *)
Definition is_key_traversal (c : Call) : bool :=
  match c with
  | CTraverseOutWithKeys _ _ | CTraverseInWithKeys _ _ | CResolveEtypeId _ => true
  | _ => false
  end.

(** The calls of the fast path of [_execute]: the identifier-with-keys
    strategy and the node type resolver. *)
Definition is_fast_path_call (c : Call) : bool :=
  match c with
  | CTraverseOutWithKeys _ _ | CTraverseInWithKeys _ _ | CResolveEtypeId _
  | CGetNodeDef _ => true
  | _ => false
  end.

(** No property is set to an explicit null. *)
Definition stores_no_null (c : Call) : bool :=
  match c with
  | CSetNodeProp _ _ PVNull | CSetEdgeProp _ _ _ _ PVNull => false
  | _ => true
  end.

(** No property is deleted. *)
Definition deletes_no_prop (c : Call) : bool :=
  match c with CDeleteNodeProp _ _ | CDeleteEdgeProp _ _ _ _ => false | _ => true end.

(** The calls inside the transaction of [create_link] after [add_edge]:
    property keys are resolved and properties of that one edge are set. *)
Definition is_link_prop_call (src et dst : Z) (c : Call) : bool :=
  match c with
  | CResolveEdgePropKeyId _ _ => true
  | CSetEdgeProp a t b _ _ => Z.eqb a src && Z.eqb t et && Z.eqb b dst
  | _ => false
  end.

(** The calls of [exists]. *)
Definition is_exists_call (c : Call) : bool :=
  match c with CResolveEtypeId _ | CHasPath _ _ _ _ => true | _ => false end.

(** The schema type under which the codec produces a tag. *)
Definition type_of_tag (pv : PropValue) : option string :=
  match pv with
  | PVNull => None
  | PVString _ => Some "string"
  | PVInt _ => Some "int"
  | PVFloat _ => Some "float"
  | PVBool _ => Some "bool"
  end.

(** ** Observations on results *)

(** The handle [ref] is what [returning] builds for the record [item]:
    its key is the formatted selector, its properties are the record
    without the selector, and its identifier is one the engine returned
    when a node with that key was created. *)
Definition inserted {St} (E : Engine St) (node_def : NodeDef) (item : Dict.t PyValue)
    (ref : NodeRef) : Prop :=
  key_fn node_def (pop_key item) = Ok (nr_key ref) /\
  nr_node_def ref = node_def /\
  nr_props ref = Dict.remove "key" item /\
  exists s s', db_create_node E (nr_key ref) s = (Ok (nr_id ref), s').

(** The key [keys()] keeps for an identifier: the engine's, when it has
    one and it is not empty. *)
Definition kept_key {St} (E : Engine St) (s : St) (node_id : Z) : option string :=
  match db_get_node_key E node_id s with
  | Ok (Some k) => if str_truthy k then Some k else None
  | _ => None
  end.

(** The handle a path query that loads no properties builds for an
    identifier in state [s], if its node type resolves: the engine's key,
    or the default key when the engine has none. *)
Definition path_ref {St} (E : Engine St) (s : St) (node_id : Z) : option NodeRef :=
  match get_node_def E node_id s with
  | Ok (Some node_def) =>
      Some {| nr_id := node_id;
              nr_key := match db_get_node_key E node_id s with
                        | Ok (Some k) => k
                        | _ => default_key node_id
                        end;
              nr_node_def := node_def; nr_props := [] |}
  | _ => None
  end.

(** What a path query answers from the engine's [result] in state [s]:
    without a path no handle and weight zero; with one, the handles of
    the identifiers of the path whose node type resolves, in the order
    of the path, and the engine's weight. *)
Definition path_answer {St} (E : Engine St) (s : St) (result : EnginePath) : PathResult :=
  if ep_found result then
    {| pr_nodes := omap (path_ref E s) (ep_path result); pr_found := true;
       pr_total_weight := ep_total_weight result |}
  else {| pr_nodes := []; pr_found := false; pr_total_weight := 0 |}.

(** A result with the properties of its handles left out. *)
Definition strip_props (h : NodeRef) : NodeRef :=
  {| nr_id := nr_id h; nr_key := nr_key h; nr_node_def := nr_node_def h; nr_props := [] |}.

Definition without_props (r : PathResult) : PathResult :=
  {| pr_nodes := map strip_props (pr_nodes r); pr_found := pr_found r;
     pr_total_weight := pr_total_weight r |}.

(** The edge type a path query passes to the engine, and the state in
    which it does: none and the state as it was without [via], else the
    answer of the resolver and the state the resolver left. *)
Definition path_edge_type {St} (E : Engine St) (self : PathFindingBuilder) (s0 : St)
    (et : option Z) (s : St) : Prop :=
  match pf_edge_type self with
  | None => et = None /\ s = s0
  | Some edge => exists i, resolve_etype_id E edge s0 = (Ok i, s) /\ et = Some i
  end.

(** [s'] is reached from [s] by resolutions of property keys. *)
Definition key_resolutions {St} (E : Engine St) : St -> St -> Prop :=
  rtc (fun s s' => exists node_def name r, resolve_node_prop_key_id E node_def name s = (r, s')).

(** An engine-side law: resolving a property key does not change the
    node type or the key of any node. *)
Definition keys_stable {St} (E : Engine St) : Prop :=
  forall node_def name s r s',
    resolve_node_prop_key_id E node_def name s = (r, s') ->
    forall id, get_node_def E id s' = get_node_def E id s /\
               db_get_node_key E id s' = db_get_node_key E id s.

(** The handle carries declared properties only. *)
Definition props_declared (h : NodeRef) : Prop :=
  forall name, Dict.mem name (nr_props h) = true ->
               Dict.mem name (nd_props (nr_node_def h)) = true.

(** The names in [props] are declared by [node_def] and wanted by
    [strategy]. *)
Definition props_within (strategy : PropLoadStrategy) (node_def : NodeDef)
    (props : Dict.t PyValue) : Prop :=
  forall name, Dict.mem name props = true ->
               should_load strategy name = true /\ Dict.mem name (nd_props node_def) = true.

(** The resolver of edge types is not called. *)
Definition no_etype_resolution (c : Call) : bool :=
  match c with CResolveEtypeId _ => false | _ => true end.

(** The step needs no resolver: it follows every edge type, or its
    descriptor carries the memoized identifier. *)
Definition memoized (step : TraversalStep) : Prop :=
  match step_edge_def step with
  | Some edge_def => is_Some (_etype_id edge_def)
  | None => True
  end.

(** The entry names a property that [props] declares; and it is also
    not [None]. *)
Definition is_declared (props : Dict.t PropDef) (kv : string * PyValue) : bool :=
  Dict.mem kv.1 props.

Definition is_stored (props : Dict.t PropDef) (kv : string * PyValue) : bool :=
  Dict.mem kv.1 props && negb (is_none kv.2).

(** The edge type of the examples with its identifier memoized. *)
Definition knows_resolved : EdgeDef :=
  {| ed_name := "knows"; ed_props := [("since", {| prop_type := "int" |})];
     _etype_id := Some 0 |}.

(** The members of [l], each once, in the order of their first
    occurrence. *)
Definition first_occurrences (l : list Z) : list Z :=
  reverse (remove_dups (reverse l)).

(** Only the resolver of edge types is called. *)
Definition only_etype_resolution (c : Call) : bool :=
  match c with CResolveEtypeId _ => true | _ => false end.

(** ** An engine whose rollback fails *)

(** The in-memory engine with a [rollback] that always raises and undoes
    nothing. *)
Definition stuck_engine : Engine Mem.Db := {|
  db_begin := Mem.begin;
  db_commit := Mem.commit;
  db_rollback := fun db => (Raise (EngineError "rollback failed"), db);
  db_create_node := Mem.create_node;
  db_get_node_by_key := Mem.get_node_by_key;
  db_get_node_key := Mem.get_node_key;
  db_set_node_prop := Mem.set_node_prop;
  db_delete_node_prop := Mem.delete_node_prop;
  db_get_node_prop := Mem.get_node_prop;
  db_delete_node := Mem.delete_node;
  db_add_edge := Mem.add_edge;
  db_delete_edge := Mem.delete_edge;
  db_set_edge_prop := Mem.set_edge_prop;
  db_delete_edge_prop := Mem.delete_edge_prop;
  db_traverse_out := Mem.traverse_out;
  db_traverse_in := Mem.traverse_in;
  db_traverse_out_with_keys := Mem.traverse_out_with_keys;
  db_traverse_in_with_keys := Mem.traverse_in_with_keys;
  db_find_path_bfs := Mem.find_path_bfs;
  db_find_path_dijkstra := Mem.find_path_dijkstra;
  db_has_path := Mem.has_path;
  resolve_etype_id := fun e => Mem.intern_etype (ed_name e);
  resolve_node_prop_key_id := fun _ name => Mem.intern_prop_key name;
  resolve_edge_prop_key_id := fun _ name => Mem.intern_prop_key name;
  get_node_def := fun id db => Ok (Mem.node_def_of id db);
  union_list := Mem.sorted_union;
  union_list_NoDup := Mem.sorted_union_NoDup;
  union_list_elem := Mem.sorted_union_elem
|}.

(** ** An engine with a closed schema *)

(** The in-memory engine with its edge types fixed: it resolves the
    types the store already knows and raises on any other. *)
Definition closed_resolve_etype (e : EdgeDef) (db : Mem.Db) : Exc Z * Mem.Db :=
  match Mem.index_of (ed_name e) (Mem.etypes (Mem.store db)) 0 with
  | Some i => (Ok i, db)
  | None => (Raise (EngineError "unknown edge type"), db)
  end.

Definition closed_engine : Engine Mem.Db := {|
  db_begin := Mem.begin;
  db_commit := Mem.commit;
  db_rollback := Mem.rollback;
  db_create_node := Mem.create_node;
  db_get_node_by_key := Mem.get_node_by_key;
  db_get_node_key := Mem.get_node_key;
  db_set_node_prop := Mem.set_node_prop;
  db_delete_node_prop := Mem.delete_node_prop;
  db_get_node_prop := Mem.get_node_prop;
  db_delete_node := Mem.delete_node;
  db_add_edge := Mem.add_edge;
  db_delete_edge := Mem.delete_edge;
  db_set_edge_prop := Mem.set_edge_prop;
  db_delete_edge_prop := Mem.delete_edge_prop;
  db_traverse_out := Mem.traverse_out;
  db_traverse_in := Mem.traverse_in;
  db_traverse_out_with_keys := Mem.traverse_out_with_keys;
  db_traverse_in_with_keys := Mem.traverse_in_with_keys;
  db_find_path_bfs := Mem.find_path_bfs;
  db_find_path_dijkstra := Mem.find_path_dijkstra;
  db_has_path := Mem.has_path;
  resolve_etype_id := closed_resolve_etype;
  resolve_node_prop_key_id := fun _ name => Mem.intern_prop_key name;
  resolve_edge_prop_key_id := fun _ name => Mem.intern_prop_key name;
  get_node_def := fun id db => Ok (Mem.node_def_of id db);
  union_list := Mem.sorted_union;
  union_list_NoDup := Mem.sorted_union_NoDup;
  union_list_elem := Mem.sorted_union_elem
|}.

(** An edge type the sample store has never seen. *)
Definition likes : EdgeDef :=
  {| ed_name := "likes"; ed_props := []; _etype_id := None |}.

(** A predicate for the examples: [lambda n: n.age is not None and n.age < limit]. *)
Definition younger_than (limit : Z) (n : NodeRef) : bool :=
  match Dict.get "age" (nr_props n) with
  | Some (PyInt age) => Z.ltb age limit
  | _ => false
  end.

(** * Properties *)

(** ** Node handles *)

(** C9: two handles are equal exactly when their identifiers are, whatever
    their keys, node types and materialized properties; a handle is never
    equal to a value that is not a handle; the hash of a handle is a
    function of its identifier, so equal handles have equal hashes. *)
Theorem noderef_eq_by_id (hash_int : Z -> Z) (a b : NodeRef) (v : PyValue) :
  (NodeRefM.__eq__ a (ObjNodeRef b) = true <-> nr_id a = nr_id b) /\
  (forall key node_def props key' node_def' props',
      NodeRefM.__eq__ {| nr_id := nr_id a; nr_key := key; nr_node_def := node_def;
                         nr_props := props |}
                      (ObjNodeRef {| nr_id := nr_id b; nr_key := key';
                                     nr_node_def := node_def'; nr_props := props' |})
      = NodeRefM.__eq__ a (ObjNodeRef b)) /\
  NodeRefM.__eq__ a (ObjValue v) = false /\
  (forall key node_def props,
      NodeRefM.__hash__ hash_int {| nr_id := nr_id a; nr_key := key;
                                    nr_node_def := node_def; nr_props := props |}
      = NodeRefM.__hash__ hash_int a) /\
  (NodeRefM.__eq__ a (ObjNodeRef b) = true ->
   NodeRefM.__hash__ hash_int a = NodeRefM.__hash__ hash_int b).
Proof.
  unfold NodeRefM.__eq__, NodeRefM.__hash__; simpl.
  repeat split; try reflexivity.
  - apply bool_decide_eq_true_1.
  - apply bool_decide_eq_true_2.
  - intros H. apply bool_decide_eq_true_1 in H. now rewrite H.
Qed.

Lemma noderef_eq_by_id_witness :
  NodeRefM.__eq__ (Build_NodeRef 7 "user:a" Mem.user [("name", PyStr "A")])
                  (ObjNodeRef (Build_NodeRef 7 "other" Mem.user [])) = true /\
  NodeRefM.__hash__ (fun z => z mod 11) (Build_NodeRef 7 "user:a" Mem.user [("name", PyStr "A")])
  = NodeRefM.__hash__ (fun z => z mod 11) (Build_NodeRef 7 "other" Mem.user []).
Proof.
  pose proof (noderef_eq_by_id (fun z => z mod 11)
                (Build_NodeRef 7 "user:a" Mem.user [("name", PyStr "A")])
                (Build_NodeRef 7 "other" Mem.user []) PyNone) as (Heq & _ & _ & _ & Hhash).
  assert (H : NodeRefM.__eq__ (Build_NodeRef 7 "user:a" Mem.user [("name", PyStr "A")])
                (ObjNodeRef (Build_NodeRef 7 "other" Mem.user [])) = true)
    by (apply Heq; reflexivity).
  split; [exact H | exact (Hhash H)].
Defined.

(** C10, as amended: attribute access [handle.name] reaches the hook
    [__getattr__] only for a name that the normal lookup does not find,
    that is, for a name that is none of the four slots and no attribute
    of the class.  For such a name that is not among the materialized
    properties of the handle, the access returns [None] when the node
    type declares the property and raises [AttributeError] when it does
    not; a declared property that was not loaded never raises.  The hook
    itself answers like this for every name that is not materialized.
    A slot name is never passed to the hook: the access returns the
    slot, whatever the properties and the node type say. *)
Theorem getattr_not_materialized (class_attrs : string -> bool) (self : NodeRef)
    (name : string) :
  (name ∉ NodeRefM.slots -> class_attrs name = false ->
   Dict.mem name (nr_props self) = false ->
   (Dict.mem name (nd_props (nr_node_def self)) = true ->
    NodeRefM.getattr class_attrs self name = AttrHook (Ok PyNone)) /\
   (Dict.mem name (nd_props (nr_node_def self)) = false ->
    NodeRefM.getattr class_attrs self name
    = AttrHook (Raise (AttributeError
                         ("'NodeRef' object has no attribute '" +:+ name +:+ "'"))))) /\
  (Dict.mem name (nr_props self) = false ->
   (Dict.mem name (nd_props (nr_node_def self)) = true ->
    NodeRefM.__getattr__ self name = Ok PyNone) /\
   (Dict.mem name (nd_props (nr_node_def self)) = false ->
    NodeRefM.__getattr__ self name =
      Raise (AttributeError ("'NodeRef' object has no attribute '" +:+ name +:+ "'")))) /\
  (NodeRefM.getattr class_attrs self "id" = AttrId (nr_id self) /\
   NodeRefM.getattr class_attrs self "key" = AttrKey (nr_key self) /\
   NodeRefM.getattr class_attrs self "node_def" = AttrNodeDef (nr_node_def self) /\
   NodeRefM.getattr class_attrs self "props" = AttrProps (nr_props self)).
Proof.
  assert (Hhook : Dict.mem name (nr_props self) = false ->
                  (Dict.mem name (nd_props (nr_node_def self)) = true ->
                   NodeRefM.__getattr__ self name = Ok PyNone) /\
                  (Dict.mem name (nd_props (nr_node_def self)) = false ->
                   NodeRefM.__getattr__ self name =
                     Raise (AttributeError
                              ("'NodeRef' object has no attribute '" +:+ name +:+ "'")))).
  { unfold NodeRefM.__getattr__, Dict.mem at 1.
    destruct (Dict.get name (nr_props self)) eqn:Hget; [discriminate|].
    intros _. split; intros ->; reflexivity. }
  split; [|split; [exact Hhook | repeat split]].
  intros Hslot Hclass Hprops.
  assert (Hacc : NodeRefM.getattr class_attrs self name
                 = AttrHook (NodeRefM.__getattr__ self name)).
  { unfold NodeRefM.getattr. rewrite Hclass.
    repeat match goal with
           | |- context [String.eqb name ?x] =>
               destruct (String.eqb_spec name x) as [Heq|_];
               [exfalso; apply Hslot; rewrite Heq; unfold NodeRefM.slots;
                repeat (apply elem_of_cons; first [now left | right]) |]
           end.
    reflexivity. }
  rewrite Hacc. destruct (Hhook Hprops) as [Hd Hu].
  split; intros Hm; [now rewrite (Hd Hm) | now rewrite (Hu Hm)].
Qed.

Lemma getattr_not_materialized_witness :
  NodeRefM.getattr (String.prefix "__")
    (Build_NodeRef 1 "user:a" Mem.user [("name", PyStr "A")]) "age"
  = AttrHook (Ok PyNone) /\
  NodeRefM.getattr (String.prefix "__")
    (Build_NodeRef 1 "user:a" Mem.user [("name", PyStr "A")]) "email"
  = AttrHook (Raise (AttributeError "'NodeRef' object has no attribute 'email'")).
Proof.
  split.
  - apply (proj1 (getattr_not_materialized (String.prefix "__")
                    (Build_NodeRef 1 "user:a" Mem.user [("name", PyStr "A")]) "age"));
      try reflexivity.
    intros H. unfold NodeRefM.slots in H.
    repeat (apply elem_of_cons in H as [H|H]; [discriminate H|]). inversion H.
  - apply (proj1 (getattr_not_materialized (String.prefix "__")
                    (Build_NodeRef 1 "user:a" Mem.user [("name", PyStr "A")]) "email"));
      try reflexivity.
    intros H. unfold NodeRefM.slots in H.
    repeat (apply elem_of_cons in H as [H|H]; [discriminate H|]). inversion H.
Defined.

(** C10 as stated fails for the slot names: ["key"] is not among the
    materialized properties of the handle and its node type does not
    declare it, yet [handle.key] raises nothing: it returns the key. *)
Lemma getattr_not_materialized_counterexample :
  ~ (forall (class_attrs : string -> bool) (self : NodeRef) (name : string),
        Dict.mem name (nr_props self) = false ->
        Dict.mem name (nd_props (nr_node_def self)) = false ->
        NodeRefM.getattr class_attrs self name
        = AttrHook (Raise (AttributeError
                             ("'NodeRef' object has no attribute '" +:+ name +:+ "'")))).
Proof.
  intros H. specialize (H (fun _ => false) Sample.alice "key" eq_refl eq_refl).
  discriminate H.
Qed.

(** ** Path queries *)

(** C8: without a target, [find], [find_weighted] and [exists] raise the
    validation error and leave the world as it was: the engine state is the
    same and no call has been logged. *)
Theorem path_query_requires_target {St} (E : Engine St) (self : PathFindingBuilder)
    (w : World St) :
  pf_target self = None ->
  find E self w = (Raise target_required, w) /\
  find_weighted E self w = (Raise target_required, w) /\
  path_exists E self w = (Raise target_required, w).
Proof.
  intros H. unfold find, find_weighted, path_exists. rewrite H.
  repeat split.
Qed.

Lemma path_query_requires_target_witness :
  find Mem.engine (shortest_path (Build_NodeRef 1 "user:a" Mem.user [])) Mem.fresh
  = (Raise (ValueError "Target node required. Use .to(target) first."), Mem.fresh).
Proof.
  apply (path_query_requires_target Mem.engine
           (shortest_path (Build_NodeRef 1 "user:a" Mem.user [])) Mem.fresh).
  reflexivity.
Defined.

(** ** Running the monad *)

Lemma bind_Ok {St A B} (m : M St A) (k : A -> M St B) w b w' :
  bind m k w = (Ok b, w') ->
  exists a w1, m w = (Ok a, w1) /\ k a w1 = (Ok b, w').
Proof.
  unfold bind. destruct (m w) as [[a|e] w1]; intros H; [eauto | discriminate].
Qed.

Lemma bind_Raise {St A B} (m : M St A) (k : A -> M St B) w e w' :
  bind m k w = (Raise e, w') ->
  m w = (Raise e, w') \/ exists a w1, m w = (Ok a, w1) /\ k a w1 = (Raise e, w').
Proof.
  unfold bind. destruct (m w) as [[a|e0] w1]; intros H; [eauto | left; congruence].
Qed.

Lemma bind_run {St A B} (m : M St A) (k : A -> M St B) w a w1 :
  m w = (Ok a, w1) -> bind m k w = k a w1.
Proof. unfold bind. now intros ->. Qed.

Lemma bind_run_Raise {St A B} (m : M St A) (k : A -> M St B) w e w1 :
  m w = (Raise e, w1) -> bind m k w = (Raise e, w1).
Proof. unfold bind. now intros ->. Qed.

Lemma ret_Ok {St A} (a b : A) (w w' : World St) :
  ret a w = (Ok b, w') -> b = a /\ w' = w.
Proof. unfold ret. intros [= -> ->]. auto. Qed.

(** Split a successful run of a [bind] into its two halves. *)
Ltac inv_bind H :=
  let a := fresh "a" in
  let w1 := fresh "w" in
  let H1 := fresh H "a" in
  apply bind_Ok in H as (a & w1 & H1 & H).

(** A read call leaves the engine state as it is and logs itself. *)
Lemma call_r_run {St A} (c : Call) (f : St -> Exc A) (w : World St) :
  call_r c f w = (f (w_db w), {| w_db := w_db w; w_log := w_log w ++ [c] |}).
Proof. reflexivity. Qed.

Lemma extends_refl {St} (w : World St) : extends w w.
Proof. exists []. now rewrite app_nil_r. Qed.

Lemma extends_trans {St} (w1 w2 w3 : World St) :
  extends w1 w2 -> extends w2 w3 -> extends w1 w3.
Proof.
  intros [l1 H1] [l2 H2]. exists (l1 ++ l2). now rewrite H2, H1, app_assoc.
Qed.

(** ** The frontier of a traversal step *)

Section Frontier.
Context {St : Type}.
Variable E : Engine St.

Lemma neighbor_ids_run step m et w :
  (neighbor_ids E step m et w).1 = neighbors_of E step et (w_db w) m /\
  w_db (neighbor_ids E step m et w).2 = w_db w.
Proof.
  destruct step; simpl; unfold traverse_out, traverse_in, bind; rewrite ?call_r_run;
    simpl; auto.
  all: destruct (db_traverse_out E m et (w_db w)); simpl; auto.
  all: destruct (db_traverse_in E m et (w_db w)); simpl; auto.
Qed.

Lemma neighbor_pairs_run step m et w :
  (neighbor_pairs E step m et w).1 = pairs_of E step et (w_db w) m /\
  w_db (neighbor_pairs E step m et w).2 = w_db w.
Proof.
  destruct step; simpl; unfold traverse_out_with_keys, traverse_in_with_keys, bind;
    rewrite ?call_r_run; simpl; auto.
  all: destruct (db_traverse_out_with_keys E m et (w_db w)); simpl; auto.
  all: destruct (db_traverse_in_with_keys E m et (w_db w)); simpl; auto.
Qed.

Lemma dedup_inv_empty {A} (key : A -> Z) : dedup_inv key (∅, []).
Proof.
  split; simpl; [constructor|]. intros x. split; intros H; [set_solver | inversion H].
Qed.

(** One guarded append: [if k not in visited: visited.add(k); l.append(a)]. *)
Lemma dedup_step {A} (key : A -> Z) (visited : gset Z) (l : list A) (k : Z) (a : A) :
  key a = k ->
  dedup_inv key (visited, l) ->
  let acc' := if decide (k ∈ visited) then (visited, l) else ({[k]} ∪ visited, l ++ [a]) in
  dedup_inv key acc' /\ forall x, x ∈ map key acc'.2 <-> x ∈ map key l \/ x = k.
Proof.
  unfold dedup_inv. simpl. intros Hk [Hnd Hin].
  destruct (decide (k ∈ visited)) as [Hv|Hv]; simpl.
  - split; [split; auto|].
    intros x. split; [auto | intros [Hx| ->]; [auto | now apply Hin]].
  - rewrite map_app. simpl. rewrite Hk. split; [split|].
    + apply NoDup_app. repeat split; auto.
      * intros x Hx Hx'. apply list_elem_of_singleton in Hx'. subst x. apply Hv, Hin, Hx.
      * apply NoDup_singleton.
    + intros x.
      rewrite elem_of_union, elem_of_singleton, elem_of_app, list_elem_of_singleton, Hin.
      tauto.
    + intros x. rewrite elem_of_app, list_elem_of_singleton. tauto.
Qed.

(** A whole inner loop of guarded appends. *)
Lemma dedup_fold {A B} (key : A -> Z) (kb : B -> Z)
    (f : gset Z * list A -> B -> gset Z * list A) :
  (forall acc b, dedup_inv key acc ->
     dedup_inv key (f acc b) /\
  forall x, x ∈ map key (f acc b).2 <-> x ∈ map key acc.2 \/ x = kb b) ->
  forall bs acc, dedup_inv key acc ->
    dedup_inv key (fold_left f bs acc) /\
  forall x, x ∈ map key (fold_left f bs acc).2 <-> x ∈ map key acc.2 \/ x ∈ map kb bs.
Proof.
  intros Hf bs. induction bs as [|b bs IH]; intros acc Hinv; simpl.
  - split; auto. intros x. split; [now left | intros [H|H]; [auto | inversion H]].
  - destruct (Hf acc b Hinv) as [Hinv' Hmem].
    destruct (IH _ Hinv') as [Hinv'' Hmem'']. split; auto.
    intros x. rewrite Hmem'', Hmem, elem_of_cons. tauto.
Qed.

Lemma visit_spec acc n :
  dedup_inv id acc ->
  dedup_inv id (visit acc n) /\
  forall x, x ∈ map id (visit acc n).2 <-> x ∈ map id acc.2 \/ x = n.
Proof.
  destruct acc as [visited next_ids]. intros Hinv.
  apply (dedup_step id visited next_ids n n eq_refl Hinv).
Qed.

Lemma visit_pair_spec acc p :
  dedup_inv fst acc ->
  dedup_inv fst (visit_pair acc p) /\
  forall x, x ∈ map fst (visit_pair acc p).2 <-> x ∈ map fst acc.2 \/ x = p.1.
Proof.
  destruct acc as [visited next_pairs]. intros Hinv.
  apply (dedup_step fst visited next_pairs p.1 (p.1, key_or_default p.2 p.1) eq_refl Hinv).
Qed.

Lemma dedup_pair_spec acc p :
  dedup_inv fst acc ->
  dedup_inv fst (dedup_pair acc p) /\
  forall x, x ∈ map fst (dedup_pair acc p).2 <-> x ∈ map fst acc.2 \/ x = p.1.
Proof.
  destruct acc as [seen pairs]. intros Hinv.
  apply (dedup_step fst seen pairs p.1 p eq_refl Hinv).
Qed.

(** The loop over the frontier members in [_execute_fast]. *)
Lemma expand_loop step et cur : forall acc w acc' w',
  for_fold cur acc (expand E step et) w = (Ok acc', w') ->
  dedup_inv id acc ->
  w_db w' = w_db w /\
  dedup_inv id acc' /\
  (forall m, m ∈ cur -> exists ns, neighbors_of E step et (w_db w) m = Ok ns) /\
  forall x, x ∈ acc'.2 <->
            x ∈ acc.2 \/
            exists m ns, m ∈ cur /\ neighbors_of E step et (w_db w) m = Ok ns /\ x ∈ ns.
Proof.
  induction cur as [|m cur IH]; intros acc w acc' w' Hrun Hinv; simpl in Hrun.
  - apply ret_Ok in Hrun as [-> ->].
    split; [reflexivity|]. split; [assumption|]. split.
    + intros m Hm. inversion Hm.
    + intros x. split; [now left|].
      intros [Hx | (m & ns & Hm & _)]; [auto | inversion Hm].
  - inv_bind Hrun. unfold expand in Hruna. inv_bind Hruna.
    apply ret_Ok in Hruna as [-> ->].
    destruct (neighbor_ids_run step m et w) as [Hres Hdb].
    rewrite Hrunaa in Hres, Hdb. simpl in Hres, Hdb.
    destruct (dedup_fold id id visit visit_spec a0 acc Hinv) as [Hinv1 Hmem1].
    destruct (IH _ _ _ _ Hrun Hinv1) as (Hdb' & Hinv' & Hok & Hmem).
    rewrite Hdb in Hdb', Hok, Hmem. rewrite !map_id in Hmem1.
    split; [assumption|]. split; [assumption|]. split.
    + intros m' Hm'. apply elem_of_cons in Hm' as [-> | Hm']; eauto.
    + intros x. split.
      * intros Hx. apply Hmem in Hx as [Hx | (m' & ns & Hm' & Hns & Hx)].
        -- apply Hmem1 in Hx as [Hx|Hx]; [now left|].
           right. exists m, a0. repeat split; auto. apply elem_of_cons; auto.
        -- right. exists m', ns. repeat split; auto. apply elem_of_cons; auto.
      * intros [Hx | (m' & ns & Hm' & Hns & Hx)]; apply Hmem.
        -- left. apply Hmem1. now left.
        -- apply elem_of_cons in Hm' as [-> | Hm'].
           ++ left. apply Hmem1. right. congruence.
           ++ right. eauto.
Qed.

(** The loop over the frontier members in [_execute_fast_with_keys]. *)
Lemma expand_pairs_loop step et cur : forall acc w acc' w',
  for_fold cur acc (expand_pairs E step et) w = (Ok acc', w') ->
  dedup_inv fst acc ->
  w_db w' = w_db w /\
  dedup_inv fst acc' /\
  (forall m, m ∈ cur -> exists ps, pairs_of E step et (w_db w) m = Ok ps) /\
  forall x, x ∈ map fst acc'.2 <->
            x ∈ map fst acc.2 \/
            exists m ps, m ∈ cur /\ pairs_of E step et (w_db w) m = Ok ps /\ x ∈ map fst ps.
Proof.
  induction cur as [|m cur IH]; intros acc w acc' w' Hrun Hinv; simpl in Hrun.
  - apply ret_Ok in Hrun as [-> ->].
    split; [reflexivity|]. split; [assumption|]. split.
    + intros m Hm. inversion Hm.
    + intros x. split; [now left|].
      intros [Hx | (m & ns & Hm & _)]; [auto | inversion Hm].
  - inv_bind Hrun. unfold expand_pairs in Hruna. inv_bind Hruna.
    apply ret_Ok in Hruna as [-> ->].
    destruct (neighbor_pairs_run step m et w) as [Hres Hdb].
    rewrite Hrunaa in Hres, Hdb. simpl in Hres, Hdb.
    destruct (dedup_fold fst fst visit_pair visit_pair_spec a0 acc Hinv) as [Hinv1 Hmem1].
    destruct (IH _ _ _ _ Hrun Hinv1) as (Hdb' & Hinv' & Hok & Hmem).
    rewrite Hdb in Hdb', Hok, Hmem.
    split; [assumption|]. split; [assumption|]. split.
    + intros m' Hm'. apply elem_of_cons in Hm' as [-> | Hm']; eauto.
    + intros x. split.
      * intros Hx. apply Hmem in Hx as [Hx | (m' & ns & Hm' & Hns & Hx)].
        -- apply Hmem1 in Hx as [Hx|Hx]; [now left|].
           right. exists m, a0. repeat split; auto. apply elem_of_cons; auto.
        -- right. exists m', ns. repeat split; auto. apply elem_of_cons; auto.
      * intros [Hx | (m' & ns & Hm' & Hns & Hx)]; apply Hmem.
        -- left. apply Hmem1. now left.
        -- apply elem_of_cons in Hm' as [-> | Hm'].
           ++ left. apply Hmem1. right. congruence.
           ++ right. eauto.
Qed.

Lemma for_fold_snoc {A B} (f : B -> A -> M St B) xs x : forall acc w r w',
  for_fold (xs ++ [x]) acc f w = (Ok r, w') ->
  exists acc1 w1, for_fold xs acc f w = (Ok acc1, w1) /\ f acc1 x w1 = (Ok r, w').
Proof.
  induction xs as [|y xs IH]; intros acc w r w' Hrun; simpl in Hrun.
  - inv_bind Hrun. apply ret_Ok in Hrun as [-> ->]. exists acc, w. split; [reflexivity|auto].
  - inv_bind Hrun. destruct (IH _ _ _ _ Hrun) as (acc1 & w1 & Hxs & Hx).
    exists acc1, w1. split; [|exact Hx]. simpl. now rewrite (bind_run _ _ _ _ _ Hruna).
Qed.

(** The next frontier computed by [_execute_fast] and [_execute_fast_count]
    for one step: no identifier twice, and exactly the identifiers the
    engine reports as neighbours of some member of the current frontier. *)
Lemma fast_step_spec cur step w next w' :
  fast_step E cur step w = (Ok next, w') ->
  exists et w1,
    step_etype_id E step w = (Ok et, w1) /\
    w_db w' = w_db w1 /\
    NoDup next /\
    (forall m, m ∈ cur -> exists ns, neighbors_of E step et (w_db w1) m = Ok ns) /\
    forall x, x ∈ next <->
              exists m ns, m ∈ cur /\ neighbors_of E step et (w_db w1) m = Ok ns /\ x ∈ ns.
Proof.
  unfold fast_step. intros Hrun. inv_bind Hrun. inv_bind Hrun.
  apply ret_Ok in Hrun as [-> ->].
  destruct (expand_loop _ _ _ _ _ _ _ Hruna0 (dedup_inv_empty id))
    as (Hdb & [Hnd _] & Hok & Hmem).
  exists a, w0. rewrite map_id in Hnd. repeat (split; [assumption|]).
  intros x. rewrite Hmem. simpl. split.
  - intros [Hx|Hx]; [inversion Hx | exact Hx].
  - intros Hx. now right.
Qed.

(** The same for [_execute_fast_with_keys]: the identifiers of the next
    pairs are the next frontier. *)
Lemma keys_step_spec cur prev step w ids' pairs' w' :
  keys_step E (cur, prev) step w = (Ok (ids', pairs'), w') ->
  exists et w1,
    step_etype_id E step w = (Ok et, w1) /\
    w_db w' = w_db w1 /\
    ids' = map fst pairs' /\
    NoDup ids' /\
    (forall m, m ∈ cur -> exists ps, pairs_of E step et (w_db w1) m = Ok ps) /\
    forall x, x ∈ ids' <->
              exists m ps, m ∈ cur /\ pairs_of E step et (w_db w1) m = Ok ps /\ x ∈ map fst ps.
Proof.
  unfold keys_step. simpl. intros Hrun. inv_bind Hrun. inv_bind Hrun.
  apply ret_Ok in Hrun as [[= -> ->] ->].
  destruct (expand_pairs_loop _ _ _ _ _ _ _ Hruna0 (dedup_inv_empty fst))
    as (Hdb & [Hnd _] & Hok & Hmem).
  exists a, w0. repeat (split; [assumption || reflexivity|]).
  intros x. rewrite Hmem. simpl. split.
  - intros [Hx|Hx]; [inversion Hx | exact Hx].
  - intros Hx. now right.
Qed.

(** After at least one step, [ids()] never lists an identifier twice. *)
Lemma ids_NoDup (self : TraversalResult) w l w' :
  tr_steps self <> [] ->
  ids E self w = (Ok l, w') ->
  NoDup l.
Proof.
  unfold ids, _execute_fast. intros Hne Hrun.
  destruct (exists_last Hne) as (steps & step & Heq). rewrite Heq in Hrun.
  apply for_fold_snoc in Hrun as (cur & w1 & _ & Hlast).
  apply fast_step_spec in Hlast as (et & w2 & _ & _ & Hnd & _). exact Hnd.
Qed.

End Frontier.

(** C4: in every step of every traversal the next frontier is
    deduplicated by identifier.  Whatever the current frontier, when the
    step succeeds the next frontier lists no identifier twice and holds
    exactly the identifiers the engine reports as neighbours of some
    frontier member: one reported for two members, or twice for one member
    (parallel edges), appears once.  This holds for the identifier loop of
    [_execute_fast] and [_execute_fast_count] and for the pair loop of
    [_execute_fast_with_keys]; hence the result of [ids()] after at least
    one step has no duplicates. *)
Theorem frontier_deduplicated {St} (E : Engine St) (cur : list Z) (step : TraversalStep)
    (w : World St) :
  (forall next w',
      fast_step E cur step w = (Ok next, w') ->
      exists et w1,
        step_etype_id E step w = (Ok et, w1) /\
        NoDup next /\
        forall x, x ∈ next <->
                  exists m ns, m ∈ cur /\ neighbors_of E step et (w_db w1) m = Ok ns /\ x ∈ ns) /\
  (forall prev ids' pairs' w',
      keys_step E (cur, prev) step w = (Ok (ids', pairs'), w') ->
      exists et w1,
        step_etype_id E step w = (Ok et, w1) /\
        ids' = map fst pairs' /\
        NoDup ids' /\
        forall x, x ∈ ids' <->
                  exists m ps, m ∈ cur /\ pairs_of E step et (w_db w1) m = Ok ps /\
                               x ∈ map fst ps) /\
  (forall self l w',
      tr_steps self <> [] -> ids E self w = (Ok l, w') -> NoDup l).
Proof.
  split; [|split].
  - intros next w' Hrun.
    destruct (fast_step_spec E _ _ _ _ _ Hrun) as (et & w1 & Het & _ & Hnd & _ & Hmem).
    eauto.
  - intros prev ids' pairs' w' Hrun.
    destruct (keys_step_spec E _ _ _ _ _ _ _ Hrun)
      as (et & w1 & Het & _ & Hids & Hnd & _ & Hmem).
    exists et, w1. auto.
  - intros self l w'. apply ids_NoDup.
Qed.

Lemma frontier_deduplicated_witness :
  exists w',
    fast_step Mem.engine [1; 3] (OutStep (Some Mem.knows)) Sample.friends = (Ok [2], w') /\
    NoDup [2].
Proof.
  eexists. split; [vm_compute; reflexivity|].
  destruct (proj1 (frontier_deduplicated Mem.engine [1; 3] (OutStep (Some Mem.knows))
                     Sample.friends) _ _ eq_refl) as (et & w1 & _ & Hnd & _).
  exact Hnd.
Defined.

(** ** Both directions *)

Section Both.
Context {St : Type}.
Variable E : Engine St.

Lemma neighbors_of_both e et s m ns :
  neighbors_of E (BothStep e) et s m = Ok ns ->
  exists outs ins,
    db_traverse_out E m et s = Ok outs /\
    db_traverse_in E m et s = Ok ins /\
    ns = union_list E outs ins /\
    NoDup ns /\
    forall x, x ∈ ns <-> x ∈ outs \/ x ∈ ins.
Proof.
  simpl. destruct (db_traverse_out E m et s) as [outs|]; [|discriminate].
  destruct (db_traverse_in E m et s) as [ins|]; [|discriminate].
  intros [= <-]. exists outs, ins. repeat (split; [reflexivity|]). split.
  - apply union_list_NoDup.
  - apply union_list_elem.
Qed.

Lemma pairs_of_both e et s m ps :
  pairs_of E (BothStep e) et s m = Ok ps ->
  exists outs ins,
    db_traverse_out_with_keys E m et s = Ok outs /\
    db_traverse_in_with_keys E m et s = Ok ins /\
    NoDup (map fst ps) /\
    forall x, x ∈ map fst ps <-> x ∈ map fst outs \/ x ∈ map fst ins.
Proof.
  simpl. destruct (db_traverse_out_with_keys E m et s) as [outs|]; [|discriminate].
  destruct (db_traverse_in_with_keys E m et s) as [ins|]; [|discriminate].
  intros [= <-]. exists outs, ins. repeat (split; [reflexivity|]).
  destruct (dedup_fold fst fst dedup_pair dedup_pair_spec (outs ++ ins) (∅, [])
              (dedup_inv_empty fst)) as [[Hnd _] Hmem].
  split; [exact Hnd|].
  intros x. rewrite Hmem, map_app, elem_of_app. simpl. split.
  - intros [Hx|Hx]; [inversion Hx | exact Hx].
  - intros Hx. now right.
Qed.

(** The loop over the frontier succeeds as soon as the engine answers for
    every member. *)
Lemma expand_loop_total step et cur : forall acc w,
  (forall m, m ∈ cur -> exists ns, neighbors_of E step et (w_db w) m = Ok ns) ->
  exists acc' w', for_fold cur acc (expand E step et) w = (Ok acc', w').
Proof.
  induction cur as [|m cur IH]; intros acc w Hok; simpl.
  - eexists _, _. reflexivity.
  - destruct (Hok m) as [ns Hns]; [apply elem_of_cons; auto|].
    destruct (neighbor_ids_run E step m et w) as [Hres Hdb].
    destruct (neighbor_ids E step m et w) as [r w1] eqn:Hrun. simpl in Hres, Hdb.
    rewrite Hns in Hres. subst r.
    destruct (IH (fold_left visit ns acc) w1) as (acc' & w' & Hloop).
    { intros m' Hm'. rewrite Hdb. apply Hok. apply elem_of_cons; auto. }
    exists acc', w'. unfold expand at 1.
    erewrite bind_run; [exact Hloop|]. erewrite bind_run; [reflexivity | exact Hrun].
Qed.

Lemma fast_step_total cur step w et w1 :
  step_etype_id E step w = (Ok et, w1) ->
  (forall m, m ∈ cur -> exists ns, neighbors_of E step et (w_db w1) m = Ok ns) ->
  exists next w', fast_step E cur step w = (Ok next, w').
Proof.
  intros Het Hok.
  destruct (expand_loop_total step et cur (∅, []) w1 Hok) as (acc' & w' & Hloop).
  exists acc'.2, w'. unfold fast_step.
  erewrite bind_run; [|exact Het]. erewrite bind_run; [reflexivity | exact Hloop].
Qed.

(** [ids()] of a one-step traversal is that step applied to the start
    identifiers. *)
Lemma ids_one_step starts step w :
  ids E (_build_result (add_step (from_ starts) step)) w
  = bind (fast_step E (map nr_id starts) step) ret w.
Proof. reflexivity. Qed.

Lemma ids_both_union starts e w lb wb :
  ids E (_build_result (both (from_ starts) e)) w = (Ok lb, wb) ->
  exists lo wo li wi,
    ids E (_build_result (out (from_ starts) e)) w = (Ok lo, wo) /\
    ids E (_build_result (in_ (from_ starts) e)) w = (Ok li, wi) /\
    forall x, x ∈ lb <-> x ∈ lo \/ x ∈ li.
Proof.
  unfold both, out, in_. rewrite !ids_one_step. intros Hb.
  inv_bind Hb. apply ret_Ok in Hb as [-> ->].
  apply fast_step_spec in Hba as (et & ws & Het & _ & _ & Hok & Hmem).
  assert (Hout : forall m, m ∈ map nr_id starts ->
                           exists ns, neighbors_of E (OutStep e) et (w_db ws) m = Ok ns).
  { intros m Hm. destruct (Hok m Hm) as [ns Hns].
    apply neighbors_of_both in Hns as (outs & ins & Ho & _). simpl. eauto. }
  assert (Hin : forall m, m ∈ map nr_id starts ->
                          exists ns, neighbors_of E (InStep e) et (w_db ws) m = Ok ns).
  { intros m Hm. destruct (Hok m Hm) as [ns Hns].
    apply neighbors_of_both in Hns as (outs & ins & _ & Hi & _). simpl. eauto. }
  destruct (fast_step_total (map nr_id starts) (OutStep e) w et ws Het Hout)
    as (lo & wo & Hlo).
  destruct (fast_step_total (map nr_id starts) (InStep e) w et ws Het Hin)
    as (li & wi & Hli).
  exists lo, wo, li, wi.
  rewrite (bind_run _ _ _ _ _ Hlo), (bind_run _ _ _ _ _ Hli).
  split; [reflexivity|]. split; [reflexivity|].
  apply fast_step_spec in Hlo as (eto & wso & Heto & _ & _ & _ & Hmo).
  apply fast_step_spec in Hli as (eti & wsi & Heti & _ & _ & _ & Hmi).
  change (step_etype_id E (OutStep e)) with (step_etype_id E (BothStep e)) in Heto.
  change (step_etype_id E (InStep e)) with (step_etype_id E (BothStep e)) in Heti.
  rewrite Het in Heto, Heti.
  injection Heto as <- <-. injection Heti as <- <-.
  intros x. rewrite Hmem, Hmo, Hmi. split.
  - intros (m & ns & Hm & Hns & Hx).
    apply neighbors_of_both in Hns as (outs & ins & Ho & Hi & _ & _ & Hu).
    apply Hu in Hx as [Hx|Hx]; [left | right]; exists m; eauto.
  - intros [(m & ns & Hm & Hns & Hx) | (m & ns & Hm & Hns & Hx)];
      destruct (Hok m Hm) as [nb Hnb]; exists m, nb;
      (split; [exact Hm|]; split; [exact Hnb|]);
      apply neighbors_of_both in Hnb as (outs & ins & Ho & Hi & _ & _ & Hu);
      simpl in Hns; apply Hu; [left | right]; congruence.
Qed.

Lemma ids_out_in_both starts e w lo wo li wi :
  ids E (_build_result (out (from_ starts) e)) w = (Ok lo, wo) ->
  ids E (_build_result (in_ (from_ starts) e)) w = (Ok li, wi) ->
  exists lb wb, ids E (_build_result (both (from_ starts) e)) w = (Ok lb, wb).
Proof.
  unfold both, out, in_. rewrite !ids_one_step. intros Ho Hi.
  inv_bind Ho. inv_bind Hi.
  apply fast_step_spec in Hoa as (et & ws & Het & _ & _ & Hoko & _).
  apply fast_step_spec in Hia as (eti & wsi & Heti & _ & _ & Hoki & _).
  change (step_etype_id E (InStep e)) with (step_etype_id E (OutStep e)) in Heti.
  rewrite Het in Heti. injection Heti as <- <-.
  destruct (fast_step_total (map nr_id starts) (BothStep e) w et ws Het)
    as (lb & wb & Hlb).
  { intros m Hm. destruct (Hoko m Hm) as [outs Ho']. destruct (Hoki m Hm) as [ins Hi'].
    simpl in Ho', Hi' |- *. rewrite Ho', Hi'. eauto. }
  exists lb, wb. now rewrite (bind_run _ _ _ _ _ Hlb).
Qed.

Lemma expand_pairs_loop_total step et cur : forall acc w,
  (forall m, m ∈ cur -> exists ps, pairs_of E step et (w_db w) m = Ok ps) ->
  exists acc' w', for_fold cur acc (expand_pairs E step et) w = (Ok acc', w').
Proof.
  induction cur as [|m cur IH]; intros acc w Hok; simpl.
  - eexists _, _. reflexivity.
  - destruct (Hok m) as [ps Hps]; [apply elem_of_cons; auto|].
    destruct (neighbor_pairs_run E step m et w) as [Hres Hdb].
    destruct (neighbor_pairs E step m et w) as [r w1] eqn:Hrun. simpl in Hres, Hdb.
    rewrite Hps in Hres. subst r.
    destruct (IH (fold_left visit_pair ps acc) w1) as (acc' & w' & Hloop).
    { intros m' Hm'. rewrite Hdb. apply Hok. apply elem_of_cons; auto. }
    exists acc', w'. unfold expand_pairs at 1.
    erewrite bind_run; [exact Hloop|]. erewrite bind_run; [reflexivity | exact Hrun].
Qed.

Lemma keys_step_total cur prev step w et ws :
  step_etype_id E step w = (Ok et, ws) ->
  (forall m, m ∈ cur -> exists ps, pairs_of E step et (w_db ws) m = Ok ps) ->
  exists pairs' w', keys_step E (cur, prev) step w = (Ok (map fst pairs', pairs'), w').
Proof.
  intros Het Hok.
  destruct (expand_pairs_loop_total step et cur (∅, []) ws Hok) as (acc' & w' & Hloop).
  exists acc'.2, w'. unfold keys_step. simpl.
  erewrite bind_run; [|exact Het]. erewrite bind_run; [reflexivity | exact Hloop].
Qed.

(** One item of the fast path: one call of the node type resolver. *)
Lemma fast_item_run p w :
  fast_item E p w
  = (match get_node_def E p.1 (w_db w) with
     | Ok _ => Ok (fast_ref E (w_db w) p)
     | Raise e => Raise e
     end,
     {| w_db := w_db w; w_log := w_log w ++ [CGetNodeDef p.1] |}).
Proof.
  unfold fast_item, _get_node_def, bind, fast_ref. rewrite call_r_run.
  destruct (get_node_def E p.1 (w_db w)) as [[nd|]|e]; reflexivity.
Qed.

Lemma gen_collect_fast pairs : forall w,
  Forall (fun p => resolver_answers E (w_db w) p.1) pairs ->
  gen_collect (map (fast_item E) pairs) w
  = (Ok (omap (fast_ref E (w_db w)) pairs),
     {| w_db := w_db w; w_log := w_log w ++ map (fun p => CGetNodeDef p.1) pairs |}).
Proof.
  induction pairs as [|p pairs IH]; intros w Hans; simpl.
  - rewrite app_nil_r. now destruct w.
  - apply Forall_cons in Hans as [[o Ho] Hans].
    unfold bind at 1. rewrite fast_item_run, Ho.
    unfold bind at 1. rewrite IH by exact Hans. simpl.
    rewrite <- app_assoc. unfold ret. reflexivity.
Qed.

Lemma gen_collect_fast_inv pairs : forall w l w',
  gen_collect (map (fast_item E) pairs) w = (Ok l, w') ->
  Forall (fun p => resolver_answers E (w_db w) p.1) pairs.
Proof.
  induction pairs as [|p pairs IH]; intros w l w' Hrun; simpl in Hrun.
  - constructor.
  - inv_bind Hrun. inv_bind Hrun. rewrite fast_item_run in Hruna.
    destruct (get_node_def E p.1 (w_db w)) as [o|e] eqn:Ho; [|discriminate Hruna].
    injection Hruna as _ <-. constructor; [now exists o|].
    exact (IH _ _ _ Hruna0).
Qed.

Lemma fast_ref_ids s pairs x :
  x ∈ map nr_id (omap (fast_ref E s) pairs) <->
  x ∈ map fst pairs /\ exists node_def, get_node_def E x s = Ok (Some node_def).
Proof.
  induction pairs as [|p pairs IH]; simpl.
  - split; [intros H; inversion H | intros [H _]; inversion H].
  - unfold fast_ref at 1. destruct (get_node_def E p.1 s) as [[nd|]|e] eqn:Hnd; simpl.
    + rewrite !elem_of_cons, IH. split.
      * intros [-> | [Hx Hs]]; [split; [now left | rewrite Hnd; eexists; reflexivity] | tauto].
      * intros [[-> | Hx] Hs]; [now left | right; tauto].
    + rewrite elem_of_cons, IH. split; [tauto|].
      intros [[-> | Hx] Hs]; [|tauto]. rewrite Hnd in Hs. now destruct Hs.
    + rewrite elem_of_cons, IH. split; [tauto|].
      intros [[-> | Hx] Hs]; [|tauto]. rewrite Hnd in Hs. now destruct Hs.
Qed.

(** [to_list()] of a one-step traversal with the default strategy and no
    predicate: the pair loop, then one handle per resolvable pair. *)
Lemma to_list_one_step starts step w :
  to_list E (_build_result (add_step (from_ starts) step)) w
  = bind (keys_step E (map nr_id starts, []) step)
         (fun st => gen_collect (map (fast_item E) st.2)) w.
Proof.
  unfold to_list, _execute, _execute_fast_with_keys. simpl. unfold bind.
  destruct (keys_step E (map nr_id starts, []) step w) as [[st|e] w1]; reflexivity.
Qed.

Lemma to_list_both_union starts e w lb wb :
  to_list E (_build_result (both (from_ starts) e)) w = (Ok lb, wb) ->
  exists lo wo li wi,
    to_list E (_build_result (out (from_ starts) e)) w = (Ok lo, wo) /\
    to_list E (_build_result (in_ (from_ starts) e)) w = (Ok li, wi) /\
    forall x, x ∈ map nr_id lb <-> x ∈ map nr_id lo \/ x ∈ map nr_id li.
Proof.
  unfold both, out, in_. rewrite !to_list_one_step. intros Hb.
  inv_bind Hb. destruct a as [idsb pairsb]. simpl in Hb.
  pose proof (gen_collect_fast_inv _ _ _ _ Hb) as Hans.
  rewrite (gen_collect_fast _ _ Hans) in Hb. injection Hb as <- _.
  apply keys_step_spec in Hba as (et & ws & Het & Hdb & Hids & _ & Hok & Hmem).
  assert (Hout : forall m, m ∈ map nr_id starts ->
                           exists ps, pairs_of E (OutStep e) et (w_db ws) m = Ok ps).
  { intros m Hm. destruct (Hok m Hm) as [ps Hps].
    apply pairs_of_both in Hps as (outs & ins & Ho & _). simpl. eauto. }
  assert (Hin : forall m, m ∈ map nr_id starts ->
                          exists ps, pairs_of E (InStep e) et (w_db ws) m = Ok ps).
  { intros m Hm. destruct (Hok m Hm) as [ps Hps].
    apply pairs_of_both in Hps as (outs & ins & _ & Hi & _). simpl. eauto. }
  destruct (keys_step_total (map nr_id starts) [] (OutStep e) w et ws Het Hout)
    as (po & wo & Hpo).
  destruct (keys_step_total (map nr_id starts) [] (InStep e) w et ws Het Hin)
    as (pi & wi & Hpi).
  rewrite (bind_run _ _ _ _ _ Hpo), (bind_run _ _ _ _ _ Hpi). simpl.
  apply keys_step_spec in Hpo as (eto & wso & Heto & Hdbo & _ & _ & _ & Hmo).
  apply keys_step_spec in Hpi as (eti & wsi & Heti & Hdbi & _ & _ & _ & Hmi).
  change (step_etype_id E (OutStep e)) with (step_etype_id E (BothStep e)) in Heto.
  change (step_etype_id E (InStep e)) with (step_etype_id E (BothStep e)) in Heti.
  rewrite Het in Heto, Heti.
  injection Heto as <- <-. injection Heti as <- <-.
  assert (Hu : forall x, x ∈ idsb <-> x ∈ map fst po \/ x ∈ map fst pi).
  { intros x. rewrite Hmem, Hmo, Hmi. split.
    - intros (m & ps & Hm & Hps & Hx).
      apply pairs_of_both in Hps as (outs & ins & Ho & Hi & _ & Hu).
      apply Hu in Hx as [Hx|Hx]; [left | right]; exists m; eauto.
    - intros [(m & ps & Hm & Hps & Hx) | (m & ps & Hm & Hps & Hx)];
        destruct (Hok m Hm) as [pb Hpb]; exists m, pb;
        (split; [exact Hm|]; split; [exact Hpb|]);
        apply pairs_of_both in Hpb as (outs & ins & Ho & Hi & _ & Hu);
        simpl in Hps; apply Hu; [left | right]; congruence. }
  assert (Hsub : forall (ps : list (Z * string)) (wx : World St),
             w_db wx = w_db ws ->
             (forall x, x ∈ map fst ps -> x ∈ idsb) ->
             Forall (fun p => resolver_answers E (w_db wx) p.1) ps).
  { intros ps wx Hwx Hin'. apply Forall_forall. intros p Hp.
    assert (Hp1 : p.1 ∈ idsb).
    { apply Hin'. apply list_elem_of_In, in_map. now apply list_elem_of_In. }
    rewrite Hids in Hp1. apply list_elem_of_In, in_map_iff in Hp1 as (q & Hq1 & Hq).
    apply list_elem_of_In in Hq. rewrite Forall_forall in Hans.
    specialize (Hans q Hq). simpl in Hans. rewrite Hq1, Hdb in Hans. now rewrite Hwx. }
  rewrite (gen_collect_fast po wo), (gen_collect_fast pi wi);
    [| apply Hsub; [exact Hdbi | intros x Hx; apply Hu; now right]
     | apply Hsub; [exact Hdbo | intros x Hx; apply Hu; now left] ].
  eexists _, _, _, _. split; [reflexivity|]. split; [reflexivity|].
  intros x. rewrite !fast_ref_ids, Hdb, Hdbo, Hdbi, <- Hids, Hu. tauto.
Qed.

End Both.

(** C5: a [both] step on a node yields the set union of the node's
    out-neighbours and in-neighbours, without duplicates, before it is
    merged into the next frontier; so the identifiers returned by
    [both(edge)] from the start nodes are exactly those returned by
    [out(edge)] or by [in(edge)] from the same start nodes, for [ids()] and
    for the handles of [to_list()], and the [both] traversal succeeds
    whenever the two one-directional ones do. *)
Theorem both_is_union {St} (E : Engine St) :
  (forall e m et w ns w',
      neighbor_ids E (BothStep e) m et w = (Ok ns, w') ->
      exists outs ins,
        db_traverse_out E m et (w_db w) = Ok outs /\
        db_traverse_in E m et (w_db w) = Ok ins /\
        NoDup ns /\
        forall x, x ∈ ns <-> x ∈ outs \/ x ∈ ins) /\
  (forall e m et w ps w',
      neighbor_pairs E (BothStep e) m et w = (Ok ps, w') ->
      exists outs ins,
        db_traverse_out_with_keys E m et (w_db w) = Ok outs /\
        db_traverse_in_with_keys E m et (w_db w) = Ok ins /\
        NoDup (map fst ps) /\
        forall x, x ∈ map fst ps <-> x ∈ map fst outs \/ x ∈ map fst ins) /\
  (forall starts e w lb wb,
      ids E (_build_result (both (from_ starts) e)) w = (Ok lb, wb) ->
      exists lo wo li wi,
        ids E (_build_result (out (from_ starts) e)) w = (Ok lo, wo) /\
        ids E (_build_result (in_ (from_ starts) e)) w = (Ok li, wi) /\
        forall x, x ∈ lb <-> x ∈ lo \/ x ∈ li) /\
  (forall starts e w lo wo li wi,
      ids E (_build_result (out (from_ starts) e)) w = (Ok lo, wo) ->
      ids E (_build_result (in_ (from_ starts) e)) w = (Ok li, wi) ->
      exists lb wb, ids E (_build_result (both (from_ starts) e)) w = (Ok lb, wb)) /\
  (forall starts e w lb wb,
      to_list E (_build_result (both (from_ starts) e)) w = (Ok lb, wb) ->
      exists lo wo li wi,
        to_list E (_build_result (out (from_ starts) e)) w = (Ok lo, wo) /\
        to_list E (_build_result (in_ (from_ starts) e)) w = (Ok li, wi) /\
        forall x, x ∈ map nr_id lb <-> x ∈ map nr_id lo \/ x ∈ map nr_id li).
Proof.
  split; [|split; [|split; [|split]]].
  - intros e m et w ns w' Hrun.
    destruct (neighbor_ids_run E (BothStep e) m et w) as [Hres _].
    rewrite Hrun in Hres. simpl fst in Hres. symmetry in Hres.
    apply neighbors_of_both in Hres as (outs & ins & Ho & Hi & _ & Hnd & Hu).
    exists outs, ins. auto.
  - intros e m et w ps w' Hrun.
    destruct (neighbor_pairs_run E (BothStep e) m et w) as [Hres _].
    rewrite Hrun in Hres. simpl fst in Hres. symmetry in Hres.
    apply pairs_of_both in Hres as (outs & ins & Ho & Hi & Hnd & Hu).
    exists outs, ins. auto.
  - apply ids_both_union.
  - apply ids_out_in_both.
  - apply to_list_both_union.
Qed.

Lemma both_is_union_witness :
  exists lb wb,
    ids Mem.engine (_build_result (both (from_ [Sample.bob]) (Some Mem.knows))) Sample.friends
    = (Ok lb, wb) /\
    exists lo wo li wi,
      ids Mem.engine (_build_result (out (from_ [Sample.bob]) (Some Mem.knows))) Sample.friends
      = (Ok lo, wo) /\
      ids Mem.engine (_build_result (in_ (from_ [Sample.bob]) (Some Mem.knows))) Sample.friends
      = (Ok li, wi) /\
      forall x, x ∈ lb <-> x ∈ lo \/ x ∈ li.
Proof.
  eexists _, _. split; [vm_compute; reflexivity|].
  eapply (proj1 (proj2 (proj2 (both_is_union Mem.engine)))).
  vm_compute; reflexivity.
Defined.

(** ** Zero-step traversals *)

Section ZeroStep.
Context {St : Type}.
Variable E : Engine St.








End ZeroStep.




(** ** Delete *)

(** C1 does not hold for a selector given by identifier: the executor
    discards the boolean answer of the engine's [delete_node].  Whenever
    [begin], [delete_node] and [commit] succeed, [execute()] returns [True],
    also when the engine answered [False] because no such node existed. *)
Theorem delete_by_id_returns_true {St} (E : Engine St) (id : Z) (key : option string)
    (w : World St) (s1 s2 s3 : St) (existed : bool) :
  db_begin E (w_db w) = (Ok tt, s1) ->
  db_delete_node E id s1 = (Ok existed, s2) ->
  db_commit E s2 = (Ok tt, s3) ->
  delete_execute E (delete_where (Some id) key) w
  = (Ok true, {| w_db := s3; w_log := w_log w ++ [CBegin; CDeleteNode id; CCommit] |}).
Proof.
  intros Hb Hd Hc.
  unfold delete_execute, delete_where, resolve_where, try_rollback, delete_body. simpl.
  unfold bind, ret, begin, delete_node, commit, call_w. simpl.
  rewrite Hb. simpl. rewrite Hd. simpl. rewrite Hc. simpl.
  now rewrite <- !app_assoc.
Qed.

(** What the claim says does hold for a selector given by key: a key
    that the engine does not know makes [execute()] return [False] after
    the lookup alone, without a transaction. *)
Lemma delete_unknown_key_returns_false {St} (E : Engine St) (key : string) (w : World St) :
  str_truthy key = true ->
  db_get_node_by_key E key (w_db w) = Ok None ->
  delete_execute E (delete_where None (Some key)) w
  = (Ok false, {| w_db := w_db w; w_log := w_log w ++ [CGetNodeByKey key] |}).
Proof.
  intros Ht Hk. unfold delete_execute, delete_where, resolve_where. simpl.
  rewrite Ht. unfold bind, get_node_by_key, call_r. now rewrite Hk.
Qed.

Lemma delete_by_id_returns_true_witness :
  db_delete_node Mem.engine 42 (Mem.begin (w_db Mem.fresh)).2
  = (Ok false, (Mem.begin (w_db Mem.fresh)).2) /\
  delete_execute Mem.engine (delete_where (Some 42) None) Mem.fresh
  = (Ok true, {| w_db := w_db Mem.fresh; w_log := [CBegin; CDeleteNode 42; CCommit] |}).
Proof.
  split; [reflexivity|].
  exact (delete_by_id_returns_true Mem.engine 42 None Mem.fresh
           (Mem.begin (w_db Mem.fresh)).2 (Mem.begin (w_db Mem.fresh)).2
           (w_db Mem.fresh) false eq_refl eq_refl eq_refl).
Defined.

(** ** Transactions *)

Section Transactions.
Context {St : Type}.
Variable E : Engine St.
Variable py : Builtins.

Lemma wo_ret {A} (a : A) : writes_only E (ret a).
Proof. intros w r w' [= _ <-]. apply rtc_refl. Qed.

Lemma wo_raise {A} e : writes_only E (raise e : M St A).
Proof. intros w r w' [= _ <-]. apply rtc_refl. Qed.

Lemma wo_lift {A} (x : Exc A) : writes_only E (lift x).
Proof. intros w r w' [= _ <-]. apply rtc_refl. Qed.

Lemma wo_bind {A B} (m : M St A) (k : A -> M St B) :
  writes_only E m -> (forall a, writes_only E (k a)) -> writes_only E (bind m k).
Proof.
  intros Hm Hk w r w'. unfold bind. destruct (m w) as [[a|e] w1] eqn:Hrun.
  - intros Hka. eapply rtc_trans; [eapply Hm; eauto | eapply Hk; eauto].
  - intros [= _ <-]. eapply Hm; eauto.
Qed.

Lemma wo_call_r {A} c (f : St -> Exc A) : writes_only E (call_r c f).
Proof. intros w r w' [= _ <-]. apply rtc_refl. Qed.

Lemma wo_call_w {A} c (f : St -> Exc A * St) :
  (forall s r s', f s = (r, s') -> tx_step E s s') -> writes_only E (call_w c f).
Proof.
  intros Hf w r w'. unfold call_w. destruct (f (w_db w)) as [r0 s] eqn:Hrun.
  intros [= _ <-]. simpl. apply rtc_once. eapply Hf; eauto.
Qed.

Lemma wo_for_each {A} (body : A -> M St unit) xs :
  (forall x, writes_only E (body x)) -> writes_only E (for_each xs body).
Proof.
  intros Hb. induction xs as [|x xs IH]; simpl; [apply wo_ret|].
  apply wo_bind; auto.
Qed.

Lemma wo_for_fold {A B} (body : B -> A -> M St B) xs :
  (forall acc x, writes_only E (body acc x)) ->
  forall acc, writes_only E (for_fold xs acc body).
Proof.
  intros Hb. induction xs as [|x xs IH]; intros acc; simpl; [apply wo_ret|].
  apply wo_bind; auto.
Qed.

Lemma wo_create_node key : writes_only E (create_node E key).
Proof. apply wo_call_w. intros s r s'. apply tx_create_node. Qed.

Lemma wo_set_node_prop id pk v : writes_only E (set_node_prop E id pk v).
Proof. apply wo_call_w. intros s r s'. apply tx_set_node_prop. Qed.

Lemma wo_delete_node_prop id pk : writes_only E (delete_node_prop E id pk).
Proof. apply wo_call_w. intros s r s'. apply tx_delete_node_prop. Qed.

Lemma wo_delete_node id : writes_only E (delete_node E id).
Proof. apply wo_call_w. intros s r s'. apply tx_delete_node. Qed.

Lemma wo_add_edge a t b : writes_only E (add_edge E a t b).
Proof. apply wo_call_w. intros s r s'. apply tx_add_edge. Qed.

Lemma wo_delete_edge a t b : writes_only E (delete_edge E a t b).
Proof. apply wo_call_w. intros s r s'. apply tx_delete_edge. Qed.

Lemma wo_set_edge_prop a t b pk v : writes_only E (set_edge_prop E a t b pk v).
Proof. apply wo_call_w. intros s r s'. apply tx_set_edge_prop. Qed.

Lemma wo_delete_edge_prop a t b pk : writes_only E (delete_edge_prop E a t b pk).
Proof. apply wo_call_w. intros s r s'. apply tx_delete_edge_prop. Qed.

Lemma wo_resolve_prop_key_id n name : writes_only E (_resolve_prop_key_id E n name).
Proof. apply wo_call_w. intros s r s'. apply tx_resolve_node_prop. Qed.

Lemma wo_resolve_edge_prop_key_id e name : writes_only E (_resolve_edge_prop_key_id E e name).
Proof. apply wo_call_w. intros s r s'. apply tx_resolve_edge_prop. Qed.

Create HintDb wo.
#[local] Hint Resolve wo_ret wo_raise wo_lift wo_call_r wo_create_node wo_set_node_prop
  wo_delete_node_prop wo_delete_node wo_add_edge wo_delete_edge wo_set_edge_prop
  wo_delete_edge_prop wo_resolve_prop_key_id wo_resolve_edge_prop_key_id : wo.

(** Decompose a computation into its calls. *)
Ltac wo :=
  repeat first
    [ apply wo_bind; [|intros ?]
    | apply wo_for_each; intros ?
    | apply wo_for_fold; intros ? ?
    | solve [auto with wo]
    | match goal with
      | |- writes_only _ (if ?b then _ else _) => destruct b
      | |- writes_only _ (match ?x with _ => _ end) => destruct x
      | |- writes_only _ (let '(_, _) := ?x in _) => destruct x
      end ].

Lemma wo_insert_prop node_def node_id kv : writes_only E (insert_prop E py node_def node_id kv).
Proof. unfold insert_prop. wo. Qed.

Lemma wo_insert_item node_def results item :
  writes_only E (insert_item E py node_def results item).
Proof. unfold insert_item. wo. apply wo_insert_prop. Qed.

Lemma wo_update_prop node_def node_id kv : writes_only E (update_prop E py node_def node_id kv).
Proof. unfold update_prop. wo. Qed.

Lemma wo_link_prop edge_def a t b kv : writes_only E (link_prop E py edge_def a t b kv).
Proof. unfold link_prop. wo. Qed.

Lemma wo_update_edge_prop edge_def a t b kv :
  writes_only E (update_edge_prop E py edge_def a t b kv).
Proof. unfold update_edge_prop. wo. Qed.

Lemma rw_ret {A} (a : A) : raises_within E (ret a).
Proof. intros w e w' [=]. Qed.

Lemma rw_commit : raises_within E (commit E).
Proof.
  intros w e w'. unfold commit, call_w.
  destruct (db_commit E (w_db w)) as [r s] eqn:Hc. intros [= -> <-]. simpl.
  apply rtc_once. eapply tx_commit_failed; eauto.
Qed.

Lemma rw_bind {A B} (m : M St A) (k : A -> M St B) :
  writes_only E m -> (forall a, raises_within E (k a)) -> raises_within E (bind m k).
Proof.
  intros Hm Hk w e w' Hrun. apply bind_Raise in Hrun as [Hrun | (a & w1 & Hrun & Hka)].
  - eapply Hm; eauto.
  - eapply rtc_trans; [eapply Hm; eauto | eapply Hk; eauto].
Qed.

Lemma rw_bind_ret {A B} (m : M St A) (f : A -> B) :
  raises_within E m -> raises_within E (bind m (fun a => ret (f a))).
Proof.
  intros Hm w e w' Hrun. apply bind_Raise in Hrun as [Hrun | (a & w1 & _ & [=])].
  eapply Hm; eauto.
Qed.

Lemma rw_commit_ret {A} (a : A) : raises_within E (commit E ;;; ret a).
Proof. apply (rw_bind_ret (commit E) (fun _ => a)), rw_commit. Qed.

(** A failure inside the [try] block of a mutation leaves the engine in a
    state reached from the one after [begin] by data writes, identifier
    resolutions and at most a failed [commit]. *)
Lemma txn_body_raises m x : raises_within E (txn_body E py m x).
Proof.
  destruct m; simpl.
  - apply (rw_bind_ret (insert_body E py self) (fun _ => tt)).
    unfold insert_body. apply rw_bind.
    + apply wo_for_fold. intros acc item. apply wo_insert_item.
    + intros results. apply rw_commit_ret.
  - unfold update_body. apply rw_bind; [|intros _; apply rw_commit].
    apply wo_for_each. intros kv. apply wo_update_prop.
  - unfold update_body. apply rw_bind; [|intros _; apply rw_commit].
    apply wo_for_each. intros kv. apply wo_update_prop.
  - apply (rw_bind_ret (delete_body E x) (fun _ => tt)).
    unfold delete_body. apply rw_bind; [apply wo_delete_node|].
    intros _. apply rw_commit_ret.
  - unfold create_link_body. apply rw_bind; [apply wo_add_edge|]. intros _.
    apply rw_bind; [|intros _; apply rw_commit].
    apply wo_for_each. intros kv. apply wo_link_prop.
  - unfold delete_link_body. apply rw_bind; [apply wo_delete_edge|].
    intros _. apply rw_commit.
  - unfold update_edge_body. apply rw_bind; [|intros _; apply rw_commit].
    apply wo_for_each. intros kv. apply wo_update_edge_prop.
Qed.

(** [begin] followed by a [try] block that fails: [rollback] is called on
    the state the failure left, and the failure is re-raised unless
    [rollback] fails itself. *)
Lemma begin_try_raise {A} (body : M St A) w0 s1 e w2 :
  db_begin E (w_db w0) = (Ok tt, s1) ->
  body {| w_db := s1; w_log := w_log w0 ++ [CBegin] |} = (Raise e, w2) ->
  bind (begin E) (fun _ => try_rollback E body) w0
  = (Raise (match (db_rollback E (w_db w2)).1 with Ok _ => e | Raise e' => e' end),
     {| w_db := (db_rollback E (w_db w2)).2; w_log := w_log w2 ++ [CRollback] |}).
Proof.
  intros Hb Hbody. unfold bind, begin, call_w at 1. rewrite Hb.
  unfold try_rollback. rewrite Hbody. unfold rollback, call_w.
  destruct (db_rollback E (w_db w2)) as [[[]|e'] s3]; reflexivity.
Qed.

Lemma bind_ret_Raise {A B} (m : M St A) (f : A -> B) w e w' :
  bind m (fun a => ret (f a)) w = (Raise e, w') -> m w = (Raise e, w').
Proof.
  intros Hrun. apply bind_Raise in Hrun as [Hrun | (a & w1 & _ & [=])]. exact Hrun.
Qed.

Lemma begin_try_raise_then {A B} (body : M St A) (k : A -> M St B) w0 s1 e w2 :
  db_begin E (w_db w0) = (Ok tt, s1) ->
  body {| w_db := s1; w_log := w_log w0 ++ [CBegin] |} = (Raise e, w2) ->
  bind (begin E) (fun _ => bind (try_rollback E body) k) w0
  = (Raise (match (db_rollback E (w_db w2)).1 with Ok _ => e | Raise e' => e' end),
     {| w_db := (db_rollback E (w_db w2)).2; w_log := w_log w2 ++ [CRollback] |}).
Proof.
  intros Hb Hbody. unfold bind, begin, call_w at 1. rewrite Hb.
  unfold try_rollback. rewrite Hbody. unfold rollback, call_w.
  destruct (db_rollback E (w_db w2)) as [[[]|e'] s3]; reflexivity.
Qed.

(** The run of a mutation whose transaction was opened and whose [try]
    block failed. *)
Lemma run_mutation_raise m w x w0 s1 e w2 :
  txn_prologue E m w = (Ok (Some x), w0) ->
  db_begin E (w_db w0) = (Ok tt, s1) ->
  txn_body E py m x {| w_db := s1; w_log := w_log w0 ++ [CBegin] |} = (Raise e, w2) ->
  run_mutation E py m w
  = (Raise (match (db_rollback E (w_db w2)).1 with Ok _ => e | Raise e' => e' end),
     {| w_db := (db_rollback E (w_db w2)).2; w_log := w_log w2 ++ [CRollback] |}).
Proof.
  intros Hpro Hb Hbody. destruct m; simpl in Hpro, Hbody |- *.
  - apply ret_Ok in Hpro as [[= ->] ->]. apply bind_ret_Raise in Hbody.
    unfold insert_execute. apply bind_run_Raise.
    unfold returning. apply (begin_try_raise_then _ _ _ _ _ _ Hb Hbody).
  - unfold update_execute.
    destruct (ue_where_id self) as [i|] eqn:Hi, (ue_where_key self) as [k|] eqn:Hk;
      try discriminate Hpro;
      inv_bind Hpro; rewrite (bind_run _ _ _ _ _ Hproa);
      (destruct a as [id|]; [|discriminate Hpro]);
      apply ret_Ok in Hpro as [[= ->] ->];
      apply (begin_try_raise _ _ _ _ _ Hb Hbody).
  - apply ret_Ok in Hpro as [[= ->] ->]. unfold update_ref_execute.
    apply (begin_try_raise _ _ _ _ _ Hb Hbody).
  - apply bind_ret_Raise in Hbody. apply bind_run_Raise. unfold delete_execute.
    destruct (de_where_id self) as [i|] eqn:Hi, (de_where_key self) as [k|] eqn:Hk;
      try discriminate Hpro;
      rewrite (bind_run _ _ _ _ _ Hpro);
      apply (begin_try_raise _ _ _ _ _ Hb Hbody).
  - inv_bind Hpro. apply ret_Ok in Hpro as [[= ->] ->]. unfold create_link.
    rewrite (bind_run _ _ _ _ _ Hproa). apply (begin_try_raise _ _ _ _ _ Hb Hbody).
  - inv_bind Hpro. apply ret_Ok in Hpro as [[= ->] ->]. unfold delete_link.
    rewrite (bind_run _ _ _ _ _ Hproa). apply (begin_try_raise _ _ _ _ _ Hb Hbody).
  - inv_bind Hpro. apply ret_Ok in Hpro as [[= ->] ->]. unfold update_edge_execute.
    rewrite (bind_run _ _ _ _ _ Hproa). apply (begin_try_raise _ _ _ _ _ Hb Hbody).
Qed.

End Transactions.

(** C3, as amended: every mutation (insert, update by selector, update
    by handle, delete, link, unlink, edge update) whose transaction was
    opened and whose [try] block then fails, by an engine call, a
    conversion or a validation, calls [rollback] as its next and last
    engine call.  When [rollback] succeeds the mutation re-raises that
    same failure, and on an engine whose [rollback] undoes what was done
    since [begin] the engine state is then the one before [begin]: no
    write of the failed operation survives.  When [rollback] itself
    fails, the mutation raises the failure of [rollback] in place of the
    original one, and the engine state is whatever the failed [rollback]
    left. *)
Theorem mutation_failure_rolls_back {St} (E : Engine St) (py : Builtins) (m : Mutation)
    (w w0 w2 : World St) (x : Z) (s1 : St) (e : PyExn) :
  txn_prologue E m w = (Ok (Some x), w0) ->
  db_begin E (w_db w0) = (Ok tt, s1) ->
  txn_body E py m x {| w_db := s1; w_log := w_log w0 ++ [CBegin] |} = (Raise e, w2) ->
  run_mutation E py m w
  = (Raise (match (db_rollback E (w_db w2)).1 with Ok _ => e | Raise e' => e' end),
     {| w_db := (db_rollback E (w_db w2)).2; w_log := w_log w2 ++ [CRollback] |}) /\
  (transactional E -> (db_rollback E (w_db w2)).1 = Ok tt ->
   (db_rollback E (w_db w2)).2 = w_db w0).
Proof.
  intros Hpro Hb Hbody. split.
  - eapply run_mutation_raise; eauto.
  - intros Htx Hrb. apply (Htx (w_db w0) s1 (w_db w2)); [exact Hb | |].
    + apply (txn_body_raises E py m x _ _ _ Hbody).
    + destruct (db_rollback E (w_db w2)) as [r s3]. simpl in Hrb |- *. now subst r.
Qed.

(** The in-memory engine keeps its snapshot through every call of a
    [try] block. *)
Lemma mem_tx_step_saved (s s' : Mem.Db) :
  tx_step Mem.engine s s' ->
  Mem.saved s' = Mem.saved s /\ Mem.schema s' = Mem.schema s.
Proof.
  intros Hstep. inversion Hstep; subst;
    match goal with
    | H : _ = (_, s') |- _ =>
        simpl in H;
        unfold Mem.create_node, Mem.delete_node, Mem.intern_etype, Mem.intern_prop_key,
          Mem.commit in H
    end;
    repeat match goal with
           | H : context [match ?x with _ => _ end] |- _ => destruct x eqn:?
           end;
    try discriminate;
    match goal with H : _ = (_, s') |- _ => injection H as _ <- end; auto.
Qed.

Lemma mem_tx_steps_saved (s s' : Mem.Db) :
  rtc (tx_step Mem.engine) s s' ->
  Mem.saved s' = Mem.saved s /\ Mem.schema s' = Mem.schema s.
Proof.
  induction 1 as [|sa sb sc Hstep _ [IH1 IH2]]; [auto|].
  destruct (mem_tx_step_saved _ _ Hstep) as [H1 H2]. split; congruence.
Qed.

(** The in-memory engine honours the transaction contract. *)
Lemma mem_transactional : transactional Mem.engine.
Proof.
  intros s0 s1 s2 s3 Hb Hsteps Hrb. simpl in Hb, Hrb.
  unfold Mem.begin in Hb. destruct (Mem.saved s0) eqn:Hsaved; [discriminate|].
  injection Hb as <-.
  destruct (mem_tx_steps_saved _ _ Hsteps) as [Hs Hsch]. simpl in Hs, Hsch.
  unfold Mem.rollback in Hrb. rewrite Hs, Hsch in Hrb.
  injection Hrb as <-. destruct s0; simpl in *. now subst.
Qed.

Lemma mutation_failure_rolls_back_witness :
  exists w',
    run_mutation Mem.engine Mem.builtins
      (MInsert (values_many Mem.user [[("key", PyStr "a"); ("name", PyStr "A")];
                                      [("key", PyStr "a")]]))
      Mem.fresh
    = (Raise (EngineError "conflict: key exists"), w') /\
    w_db w' = w_db Mem.fresh /\
    w_log w' = [CBegin; CCreateNode "user:a"; CResolveNodePropKeyId "user" "name";
                CSetNodeProp 1 0 (PVString "A"); CCreateNode "user:a"; CRollback].
Proof.
  edestruct (mutation_failure_rolls_back Mem.engine Mem.builtins
               (MInsert (values_many Mem.user [[("key", PyStr "a"); ("name", PyStr "A")];
                                               [("key", PyStr "a")]]))
               Mem.fresh) as [Hrun Hundo].
  - vm_compute; reflexivity.
  - vm_compute; reflexivity.
  - vm_compute; reflexivity.
  - eexists. split; [exact Hrun|]. split.
    + apply Hundo; [apply mem_transactional | reflexivity].
    + reflexivity.
Defined.

(** C3 as stated fails when [rollback] fails.  An insert of two records
    whose second one lacks its key fails after the first node was
    created; on an engine whose [rollback] raises, the mutation raises
    the failure of [rollback], not the validation error, and the node of
    the first record stays in the store. *)
Lemma mutation_failure_rolls_back_counterexample :
  ~ (forall (E : Engine Mem.Db) (m : Mutation) (w w0 w2 : World Mem.Db) (x : Z)
            (s1 : Mem.Db) (e : PyExn),
        txn_prologue E m w = (Ok (Some x), w0) ->
        db_begin E (w_db w0) = (Ok tt, s1) ->
        txn_body E Mem.builtins m x {| w_db := s1; w_log := w_log w0 ++ [CBegin] |}
        = (Raise e, w2) ->
        exists w', run_mutation E Mem.builtins m w = (Raise e, w') /\ w_db w' = w_db w0).
Proof.
  intros H.
  destruct (H stuck_engine
              (MInsert (values_many Mem.user [[("key", PyStr "a")]; [("name", PyStr "B")]]))
              Mem.fresh Mem.fresh
              (txn_body stuck_engine Mem.builtins
                 (MInsert (values_many Mem.user
                             [[("key", PyStr "a")]; [("name", PyStr "B")]])) 0
                 {| w_db := (Mem.begin (w_db Mem.fresh)).2; w_log := [CBegin] |}).2
              0 (Mem.begin (w_db Mem.fresh)).2 key_required)
    as (w' & Hrun & _); [reflexivity | reflexivity | vm_compute; reflexivity |].
  vm_compute in Hrun. discriminate Hrun.
Qed.


(** ** Insert without a key *)

Section InsertKey.
Context {St : Type}.
Variable E : Engine St.
Variable py : Builtins.

Lemma insert_item_no_key node_def results item w :
  is_none (pop_key item) = true ->
  insert_item E py node_def results item w = (Raise key_required, w).
Proof. unfold insert_item. now intros ->. Qed.

(** The loop over the records never completes when one of them has no key. *)
Lemma insert_loop_fails node_def pre bad post : forall acc w r w',
  is_none (pop_key bad) = true ->
  for_fold (pre ++ bad :: post) acc (insert_item E py node_def) w = (r, w') ->
  exists e, r = Raise e.
Proof.
  induction pre as [|item pre IH]; intros acc w r w' Hbad Hrun; simpl in Hrun.
  - unfold bind in Hrun. rewrite (insert_item_no_key _ _ _ _ Hbad) in Hrun.
    injection Hrun as <- _. eauto.
  - unfold bind in Hrun at 1.
    destruct (insert_item E py node_def acc item w) as [[acc'|e] w1].
    + eapply IH; eauto.
    + injection Hrun as <- _. eauto.
Qed.

(** The loop reaches the record without a key when the records before it
    go through, and stops there. *)
Lemma insert_loop_reaches node_def pre bad post : forall acc w rs w2,
  is_none (pop_key bad) = true ->
  for_fold pre acc (insert_item E py node_def) w = (Ok rs, w2) ->
  for_fold (pre ++ bad :: post) acc (insert_item E py node_def) w = (Raise key_required, w2).
Proof.
  induction pre as [|item pre IH]; intros acc w rs w2 Hbad Hrun; simpl in Hrun |- *.
  - apply ret_Ok in Hrun as [_ ->]. unfold bind.
    now rewrite (insert_item_no_key _ _ _ _ Hbad).
  - inv_bind Hrun. rewrite (bind_run _ _ _ _ _ Hruna). eapply IH; eauto.
Qed.

End InsertKey.

(** C2, as amended: an insert in which some record has no key (the field
    is missing or [None]) always fails, but not before the engine is
    called: [returning()] opens the transaction, writes the records that
    precede the first record without a key, raises the validation error
    inside the [try] block, calls [rollback] and re-raises the error (the
    failure of [rollback], should it fail itself). *)
Theorem insert_missing_key {St} (E : Engine St) (py : Builtins) (node_def : NodeDef)
    (pre : list (Dict.t PyValue)) (bad : Dict.t PyValue) (post : list (Dict.t PyValue))
    (is_single : bool) (w : World St) :
  is_none (pop_key bad) = true ->
  let self := {| ie_node_def := node_def; ie_data := pre ++ bad :: post;
                 ie_is_single := is_single |} in
  (forall r w', returning E py self w = (r, w') -> exists e, r = Raise e) /\
  (forall s1 rs w2,
      db_begin E (w_db w) = (Ok tt, s1) ->
      for_fold pre [] (insert_item E py node_def)
        {| w_db := s1; w_log := w_log w ++ [CBegin] |} = (Ok rs, w2) ->
      returning E py self w
      = (Raise (match (db_rollback E (w_db w2)).1 with
                | Ok _ => key_required
                | Raise e' => e'
                end),
         {| w_db := (db_rollback E (w_db w2)).2; w_log := w_log w2 ++ [CRollback] |})).
Proof.
  intros Hbad self. split.
  - intros r w'. unfold returning, bind at 1.
    destruct (begin E w) as [[[]|e] w1]; [|intros [= <- _]; eauto].
    unfold bind at 1, try_rollback, insert_body, bind at 1. simpl.
    destruct (for_fold (pre ++ bad :: post) [] (insert_item E py node_def) w1)
      as [r0 w2] eqn:Hloop.
    destruct (insert_loop_fails E py _ _ _ _ _ _ _ _ Hbad Hloop) as [e ->].
    destruct (rollback E w2) as [[[]|e'] w3]; intros [= <- _]; eauto.
  - intros s1 rs w2 Hb Hpre. unfold returning.
    apply (begin_try_raise_then E _ _ _ _ _ _ Hb).
    unfold insert_body. apply bind_run_Raise. simpl.
    eapply insert_loop_reaches; eauto.
Qed.

Lemma insert_missing_key_witness :
  returning Mem.engine Mem.builtins
    (values_many Mem.user [[("key", PyStr "a"); ("name", PyStr "A")]; [("name", PyStr "B")]])
    Mem.fresh
  = (Raise (ValueError "Insert requires a 'key' field"),
     {| w_db := w_db Mem.fresh;
        w_log := [CBegin; CCreateNode "user:a"; CResolveNodePropKeyId "user" "name";
                  CSetNodeProp 1 0 (PVString "A"); CRollback] |}).
Proof.
  eapply eq_trans.
  - eapply (proj2 (insert_missing_key Mem.engine Mem.builtins Mem.user
                     [[("key", PyStr "a"); ("name", PyStr "A")]] [("name", PyStr "B")] []
                     false Mem.fresh eq_refl)).
    + reflexivity.
    + vm_compute; reflexivity.
  - reflexivity.
Defined.

(** C2 as stated fails: the validation error of an insert without a key
    is raised after [begin]; the engine has been called twice when the
    single record has no key, and the records before the faulty one have
    been created when there are several. *)
Lemma insert_missing_key_counterexample :
  (exists w',
      returning Mem.engine Mem.builtins (values Mem.user None [("name", PyStr "B")]) Mem.fresh
      = (Raise (ValueError "Insert requires a 'key' field"), w') /\
      w_log w' = [CBegin; CRollback]) /\
  (exists w',
      returning Mem.engine Mem.builtins
        (values_many Mem.user [[("key", PyStr "a")]; [("name", PyStr "B")]]) Mem.fresh
      = (Raise (ValueError "Insert requires a 'key' field"), w') /\
      w_log w' = [CBegin; CCreateNode "user:a"; CRollback]).
Proof.
  split; eexists; (split; [vm_compute; reflexivity | reflexivity]).
Qed.

(** ** Update *)

Section Update.
Context {St : Type}.
Variable E : Engine St.
Variable py : Builtins.

Lemma field_updated_between node_def node_id name value prop_def (w0 w1 w2 w3 : World St) :
  extends w0 w1 ->
  field_updated E py node_def node_id name value prop_def w1 w2 ->
  extends w2 w3 ->
  field_updated E py node_def node_id name value prop_def w0 w3.
Proof.
  intros [la Ha] (pk & s & s1 & c & l1 & l2 & Hres & Hlog & Hnone & Hsome) [lb Hb].
  exists pk, s, s1, c, (la ++ l1), (l2 ++ lb). repeat split; auto.
  rewrite Hb, Hlog, Ha. now rewrite <- !app_assoc.
Qed.

(** One iteration of the update loop that went through. *)
Lemma update_prop_Ok node_def node_id name value w w' :
  update_prop E py node_def node_id (name, value) w = (Ok tt, w') ->
  extends w w' /\
  forall prop_def,
    Dict.get name (nd_props node_def) = Some prop_def ->
    field_updated E py node_def node_id name value prop_def w w'.
Proof.
  unfold update_prop. destruct (Dict.get name (nd_props node_def)) as [pd|].
  - intros Hrun. inv_bind Hrun.
    unfold _resolve_prop_key_id, call_w in Hruna.
    destruct (resolve_node_prop_key_id E node_def name (w_db w)) as [r s1] eqn:Hres.
    injection Hruna as -> <-.
    assert (Hcall : exists c,
               w_log w' = w_log w ++ [CResolveNodePropKeyId (nd_name node_def) name; c] /\
               (value = PyNone -> c = CDeleteNodeProp node_id a) /\
               (value <> PyNone ->
                exists pv, to_prop_value py pd value = Ok pv /\ c = CSetNodeProp node_id a pv)).
    { destruct (is_none value) eqn:Hnone.
      - unfold delete_node_prop, call_w in Hrun. simpl in Hrun.
        destruct (db_delete_node_prop E node_id a s1) as [r s2]. injection Hrun as _ <-.
        exists (CDeleteNodeProp node_id a). simpl. rewrite <- app_assoc.
        split; [reflexivity|]. split; [auto|].
        intros Hne. destruct value; simpl in Hnone; congruence.
      - inv_bind Hrun. unfold lift in Hruna. injection Hruna as Hconv <-.
        unfold set_node_prop, call_w in Hrun. simpl in Hrun.
        destruct (db_set_node_prop E node_id a a0 s1) as [r s2]. injection Hrun as _ <-.
        exists (CSetNodeProp node_id a a0). simpl. rewrite <- app_assoc.
        split; [reflexivity|]. split; [|eauto].
        intros ->. discriminate Hnone. }
    destruct Hcall as (c & Hlog & Hnone & Hsome). split.
    + eexists. exact Hlog.
    + intros prop_def [= <-]. exists a, (w_db w), s1, c, [], []. simpl.
      rewrite Hlog. auto.
  - intros Hrun. apply ret_Ok in Hrun as [_ ->]. split; [apply extends_refl|].
    intros prop_def [=].
Qed.

(** The whole update loop that went through: every declared field of the
    data was issued. *)
Lemma update_loop_Ok node_def node_id data : forall w w',
  for_each data (update_prop E py node_def node_id) w = (Ok tt, w') ->
  extends w w' /\
  forall name value prop_def,
    (name, value) ∈ data ->
    Dict.get name (nd_props node_def) = Some prop_def ->
    field_updated E py node_def node_id name value prop_def w w'.
Proof.
  induction data as [|[n v] data IH]; intros w w' Hrun; simpl in Hrun.
  - apply ret_Ok in Hrun as [_ ->]. split; [apply extends_refl|].
    intros name value prop_def Hin. inversion Hin.
  - inv_bind Hrun. destruct a.
    destruct (update_prop_Ok _ _ _ _ _ _ Hruna) as [Hext1 Hfield].
    destruct (IH _ _ Hrun) as [Hext2 Hrest]. split.
    + eapply extends_trans; eauto.
    + intros name value prop_def Hin Hget. apply elem_of_cons in Hin as [[= -> ->] | Hin].
      * eapply field_updated_between; [apply extends_refl | eauto | exact Hext2].
      * eapply field_updated_between; [exact Hext1 | eauto | apply extends_refl].
Qed.

Lemma call_w_extends {A} c (f : St -> Exc A * St) w r w' :
  call_w c f w = (r, w') -> extends w w'.
Proof.
  unfold call_w. destruct (f (w_db w)). intros [= _ <-]. now exists [c].
Qed.

Lemma call_r_extends {A} c (f : St -> Exc A) w r w' :
  call_r c f w = (r, w') -> extends w w'.
Proof. unfold call_r. intros [= _ <-]. now exists [c]. Qed.

(** [begin], the [try] block of an update, no failure. *)
Lemma update_txn_Ok node_def node_id data w w' :
  bind (begin E) (fun _ => try_rollback E (update_body E py node_def node_id data)) w
  = (Ok tt, w') ->
  forall name value prop_def,
    (name, value) ∈ data ->
    Dict.get name (nd_props node_def) = Some prop_def ->
    field_updated E py node_def node_id name value prop_def w w'.
Proof.
  intros Hrun name value prop_def Hin Hget. inv_bind Hrun.
  apply call_w_extends in Hruna.
  unfold try_rollback in Hrun.
  destruct (update_body E py node_def node_id data w0) as [[[]|e] w2] eqn:Hbody.
  - injection Hrun as <-. unfold update_body in Hbody. inv_bind Hbody.
    apply call_w_extends in Hbody. destruct a0.
    destruct (update_loop_Ok _ _ _ _ _ Hbodya) as [_ Hfields].
    eapply field_updated_between; [exact Hruna | eauto | exact Hbody].
  - destruct (rollback E w2) as [[[]|e'] w3]; discriminate Hrun.
Qed.

End Update.

(** C7, as amended: when an update goes through, by identifier, by key
    or by handle, then for every field of the update data that the node
    type declares the property key was resolved and the very next engine
    call was a property delete on the updated node when the value is
    [None], and a property set to the converted value when it is not.
    In the loop itself, a declared field with value [None] is the
    resolution of its key followed by the property delete, and one with
    another value that converts is the resolution followed by the
    property set.  A declared field whose value is not [None] and does
    not convert, as is always the case for a vector property, issues no
    property set: after the resolution of its key the conversion failure
    is raised, which ends the loop. *)
Theorem update_null_deletes {St} (E : Engine St) (py : Builtins) :
  (forall (self : UpdateExecutor) w w',
      update_execute E py self w = (Ok tt, w') ->
      exists node_id w0,
        resolve_where E (ue_where_id self) (ue_where_key self) w = (Ok (Some node_id), w0) /\
        forall name value prop_def,
          (name, value) ∈ ue_data self ->
          Dict.get name (nd_props (ue_node_def self)) = Some prop_def ->
          field_updated E py (ue_node_def self) node_id name value prop_def w0 w') /\
  (forall (self : UpdateByRefExecutor) w w',
      update_ref_execute E py self w = (Ok tt, w') ->
      forall name value prop_def,
        (name, value) ∈ ur_data self ->
        Dict.get name (nd_props (nr_node_def (ur_node_ref self))) = Some prop_def ->
        field_updated E py (nr_node_def (ur_node_ref self)) (nr_id (ur_node_ref self))
          name value prop_def w w') /\
  (forall node_def node_id name prop_def w,
      Dict.get name (nd_props node_def) = Some prop_def ->
      update_prop E py node_def node_id (name, PyNone) w
      = bind (_resolve_prop_key_id E node_def name)
             (fun prop_key_id => delete_node_prop E node_id prop_key_id) w) /\
  (forall node_def node_id name prop_def value prop_value w,
      Dict.get name (nd_props node_def) = Some prop_def ->
      value <> PyNone ->
      to_prop_value py prop_def value = Ok prop_value ->
      update_prop E py node_def node_id (name, value) w
      = bind (_resolve_prop_key_id E node_def name)
             (fun prop_key_id => set_node_prop E node_id prop_key_id prop_value) w) /\
  (forall node_def node_id name prop_def value e w,
      Dict.get name (nd_props node_def) = Some prop_def ->
      value <> PyNone ->
      to_prop_value py prop_def value = Raise e ->
      update_prop E py node_def node_id (name, value) w
      = bind (_resolve_prop_key_id E node_def name) (fun _ => raise e) w) /\
  (forall prop_def value,
      value <> PyNone -> prop_type prop_def = "vector" ->
      exists e, to_prop_value py prop_def value = Raise e).
Proof.
  split; [|split; [|split; [|split; [|split]]]]; cycle 2.
  - intros node_def node_id name prop_def w Hget. unfold update_prop. now rewrite Hget.
  - intros node_def node_id name prop_def value prop_value w Hget Hne Hconv.
    unfold update_prop. rewrite Hget.
    assert (Hn : is_none value = false) by (destruct value; congruence || reflexivity).
    unfold bind. destruct (_resolve_prop_key_id E node_def name w) as [[pk|e] w1]; [|reflexivity].
    rewrite Hn. unfold lift. now rewrite Hconv.
  - intros node_def node_id name prop_def value e w Hget Hne Hconv.
    unfold update_prop. rewrite Hget.
    assert (Hn : is_none value = false) by (destruct value; congruence || reflexivity).
    unfold bind. destruct (_resolve_prop_key_id E node_def name w) as [[pk|e0] w1];
      [|reflexivity].
    rewrite Hn. unfold lift, raise. now rewrite Hconv.
  - intros prop_def value Hne Ht.
    assert (Hn : is_none value = false) by (destruct value; congruence || reflexivity).
    eexists. unfold to_prop_value. rewrite Hn, Ht. reflexivity.
  - intros self w w' Hrun. unfold update_execute in Hrun.
    destruct (ue_where_id self) as [i|] eqn:Hi, (ue_where_key self) as [k|] eqn:Hk;
      try discriminate Hrun;
      inv_bind Hrun; (destruct a as [node_id|]; [|discriminate Hrun]);
      exists node_id, w0; (split; [exact Hruna|]);
      apply (update_txn_Ok E py _ _ _ _ _ Hrun).
  - intros self w w' Hrun. apply (update_txn_Ok E py _ _ _ _ _ Hrun).
Qed.

Lemma update_null_deletes_witness :
  exists w',
    update_ref_execute Mem.engine Mem.builtins
      (update_ref_set Sample.alice None [("age", PyNone); ("name", PyStr "Al")])
      Sample.friends = (Ok tt, w') /\
    field_updated Mem.engine Mem.builtins Mem.user 1 "age" PyNone {| prop_type := "int" |}
      Sample.friends w' /\
    w_log w' = [CBegin; CResolveNodePropKeyId "user" "age"; CDeleteNodeProp 1 1;
                CResolveNodePropKeyId "user" "name"; CSetNodeProp 1 0 (PVString "Al");
                CCommit] /\
    db_get_node_prop Mem.engine 1 1 (w_db Sample.friends) = Ok (Some (PVInt 30)) /\
    db_get_node_prop Mem.engine 1 1 (w_db w') = Ok None /\
    db_get_node_prop Mem.engine 1 0 (w_db w') = Ok (Some (PVString "Al")).
Proof.
  eexists. split; [vm_compute; reflexivity|]. split.
  - apply (proj1 (proj2 (update_null_deletes Mem.engine Mem.builtins))
             (update_ref_set Sample.alice None [("age", PyNone); ("name", PyStr "Al")])).
    + vm_compute; reflexivity.
    + apply elem_of_cons. now left.
    + reflexivity.
  - repeat split; vm_compute; reflexivity.
Defined.

(** C7 as stated fails for a declared field whose value does not
    convert: an update of the declared vector property [embedding] to a
    vector resolves the key of the property and is then rolled back
    without any property set. *)
Lemma update_null_deletes_counterexample :
  ~ (forall (self : UpdateByRefExecutor) (name : string) (value : PyValue)
            (prop_def : PropDef),
        (name, value) ∈ ur_data self ->
        Dict.get name (nd_props (nr_node_def (ur_node_ref self))) = Some prop_def ->
        value <> PyNone ->
        exists r w' pk pv,
          update_ref_execute Mem.engine Mem.builtins self Sample.friends = (r, w') /\
          CSetNodeProp (nr_id (ur_node_ref self)) pk pv ∈ w_log w').
Proof.
  intros H.
  destruct (H (update_ref_set Sample.alice None [("embedding", PyVector [0])])
              "embedding" (PyVector [0]) {| prop_type := "vector" |})
    as (r & w' & pk & pv & Hrun & Hin).
  - apply elem_of_cons. now left.
  - reflexivity.
  - discriminate.
  - vm_compute in Hrun. injection Hrun as _ <-. simpl in Hin.
    repeat (apply elem_of_cons in Hin as [Hin|Hin]; [discriminate Hin|]).
    inversion Hin.
Qed.


(** ** What the operations call *)

Section Logs.
Context {St : Type}.
Variable E : Engine St.
Variable py : Builtins.

Lemma logs_ret {A} P (a : A) : logs P (ret a : M St A).
Proof. intros w r w' [= _ <-]. exists []. now rewrite app_nil_r. Qed.

Lemma logs_raise {A} P e : logs P (raise e : M St A).
Proof. intros w r w' [= _ <-]. exists []. now rewrite app_nil_r. Qed.

Lemma logs_lift {A} P (x : Exc A) : logs P (lift x : M St A).
Proof. intros w r w' [= _ <-]. exists []. now rewrite app_nil_r. Qed.

Lemma logs_bind {A B} P (m : M St A) (k : A -> M St B) :
  logs P m -> (forall a, logs P (k a)) -> logs P (bind m k).
Proof.
  intros Hm Hk w r w'. unfold bind. destruct (m w) as [[a|e] w1] eqn:Hrun.
  - intros Hka. destruct (Hm _ _ _ Hrun) as (l1 & H1 & F1).
    destruct (Hk _ _ _ _ Hka) as (l2 & H2 & F2).
    exists (l1 ++ l2). split; [now rewrite H2, H1, app_assoc | now apply Forall_app].
  - intros [= <- <-]. eapply Hm; eauto.
Qed.

Lemma logs_call_w {A} (P : Call -> bool) c (f : St -> Exc A * St) :
  P c = true -> logs P (call_w c f).
Proof.
  intros Hc w r w'. unfold call_w. destruct (f (w_db w)). intros [= _ <-].
  exists [c]. split; [reflexivity | now constructor].
Qed.

Lemma logs_call_r {A} (P : Call -> bool) c (f : St -> Exc A) :
  P c = true -> logs P (call_r c f).
Proof.
  intros Hc w r w'. unfold call_r. intros [= _ <-].
  exists [c]. split; [reflexivity | now constructor].
Qed.

Lemma logs_get_node_def (P : Call -> bool) id :
  P (CGetNodeDef id) = true -> logs P (_get_node_def E id).
Proof. intros HP. unfold _get_node_def. now apply logs_call_r. Qed.

Lemma logs_for_each {A} P (body : A -> M St unit) xs :
  (forall x, logs P (body x)) -> logs P (for_each xs body).
Proof.
  intros Hb. induction xs as [|x xs IH]; simpl; [apply logs_ret|].
  apply logs_bind; auto.
Qed.

Lemma logs_for_fold {A B} P (body : B -> A -> M St B) xs :
  (forall acc x, logs P (body acc x)) -> forall acc, logs P (for_fold xs acc body).
Proof.
  intros Hb. induction xs as [|x xs IH]; intros acc; simpl; [apply logs_ret|].
  apply logs_bind; auto.
Qed.

Lemma logs_weaken {A} (P Q : Call -> bool) (m : M St A) :
  (forall c, P c = true -> Q c = true) -> logs P m -> logs Q m.
Proof.
  intros HPQ Hm w r w' Hrun. destruct (Hm _ _ _ Hrun) as (l & Hl & F).
  exists l. split; [exact Hl|]. eapply Forall_impl; eauto.
Qed.

Lemma logs_try_rollback {A} (P : Call -> bool) (body : M St A) :
  P CRollback = true -> logs P body -> logs P (try_rollback E body).
Proof.
  intros Hrb Hbody w r w'. unfold try_rollback.
  destruct (body w) as [[a|e] w1] eqn:Hrun.
  - intros [= <- <-]. eapply Hbody; eauto.
  - destruct (Hbody _ _ _ Hrun) as (l1 & H1 & F1).
    destruct (rollback E w1) as [r2 w2] eqn:Hr2.
    destruct (logs_call_w P CRollback (db_rollback E) Hrb _ _ _ Hr2) as (l2 & H2 & F2).
    intros Hres. assert (w' = w2) as -> by (destruct r2 as [[]|]; congruence).
    exists (l1 ++ l2). split; [now rewrite H2, H1, app_assoc | now apply Forall_app].
Qed.

Lemma logs_gen_collect {A} P (items : list (M St (option A))) :
  Forall (logs P) items -> logs P (gen_collect items).
Proof.
  induction 1 as [|item items Hitem _ IH]; simpl; [apply logs_ret|].
  apply logs_bind; [exact Hitem|]. intros r. apply logs_bind; [exact IH|].
  intros l. apply logs_ret.
Qed.

Lemma logs_gen_first {A} P (items : list (M St (option A))) :
  Forall (logs P) items -> logs P (gen_first items).
Proof.
  induction 1 as [|item items Hitem _ IH]; simpl; [apply logs_ret|].
  apply logs_bind; [exact Hitem|]. intros [a|]; [apply logs_ret | exact IH].
Qed.

(** Decompose a computation into its calls; the side conditions on the
    calls themselves are settled by evaluation. *)
Ltac logs_tac :=
  repeat first
    [ apply logs_ret | apply logs_raise | apply logs_lift | apply logs_get_node_def; reflexivity
    | apply logs_call_w; reflexivity
    | apply logs_call_r; reflexivity
    | apply logs_bind; [|intros ?]
    | apply logs_for_each; intros ?
    | apply logs_for_fold; intros ? ?
    | apply logs_try_rollback; [reflexivity|]
    | match goal with
      | |- logs _ (if ?b then _ else _) => destruct b
      | |- logs _ (match ?x with _ => _ end) => destruct x
      | |- logs _ (let '(_, _) := ?x in _) => destruct x
      end ].

Lemma logs_step_etype_id step : logs is_id_traversal (step_etype_id E step).
Proof. unfold step_etype_id, _resolve_etype_id. logs_tac. Qed.

Lemma logs_step_etype_id_keys step : logs is_key_traversal (step_etype_id E step).
Proof. unfold step_etype_id, _resolve_etype_id. logs_tac. Qed.

Lemma logs_fast_step cur step : logs is_id_traversal (fast_step E cur step).
Proof.
  unfold fast_step. apply logs_bind; [apply logs_step_etype_id|]. intros et.
  unfold expand, neighbor_ids, traverse_out, traverse_in. logs_tac.
Qed.

Lemma logs_keys_step st step : logs is_key_traversal (keys_step E st step).
Proof.
  unfold keys_step. apply logs_bind; [apply logs_step_etype_id_keys|]. intros et.
  unfold expand_pairs, neighbor_pairs, traverse_out_with_keys, traverse_in_with_keys.
  logs_tac.
Qed.

Lemma logs_execute_fast self : logs is_id_traversal (_execute_fast E self).
Proof. unfold _execute_fast. apply logs_for_fold. intros. apply logs_fast_step. Qed.

Lemma logs_execute_fast_with_keys self :
  logs is_key_traversal (_execute_fast_with_keys E self).
Proof.
  unfold _execute_fast_with_keys. destruct (tr_steps self) as [|step steps] eqn:Hs.
  - apply logs_ret.
  - apply logs_bind; [|intros; apply logs_ret].
    apply logs_for_fold. intros. apply logs_keys_step.
Qed.

Lemma logs_bind_dep {A B} P (m : M St A) (k : A -> M St B) :
  logs P m -> (forall w a w', m w = (Ok a, w') -> logs P (k a)) -> logs P (bind m k).
Proof.
  intros Hm Hk w r w'. unfold bind. destruct (m w) as [[a|e] w1] eqn:Hrun.
  - intros Hka. destruct (Hm _ _ _ Hrun) as (l1 & H1 & F1).
    destruct (Hk _ _ _ Hrun _ _ _ Hka) as (l2 & H2 & F2).
    exists (l1 ++ l2). split; [now rewrite H2, H1, app_assoc | now apply Forall_app].
  - intros [= <- <-]. eapply Hm; eauto.
Qed.

Lemma logs_fast_item (P : Call -> bool) p :
  P (CGetNodeDef p.1) = true -> logs P (fast_item E p).
Proof.
  intros HP. unfold fast_item.
  apply logs_bind; [now apply logs_get_node_def | intros; apply logs_ret].
Qed.

Lemma logs_load_node_props self node_id node_def :
  logs is_read_only (_load_node_props E self node_id node_def).
Proof.
  unfold _load_node_props, load_prop, _resolve_prop_key_id, get_node_prop. logs_tac.
Qed.

Lemma logs_create_node_ref self node_id load :
  logs is_read_only (_create_node_ref E self node_id load).
Proof.
  unfold _create_node_ref, get_node_key.
  apply logs_bind; [apply logs_get_node_def; reflexivity|]. intros [node_def|]; [|apply logs_ret].
  apply logs_bind; [apply logs_call_r; reflexivity|]. intros key.
  apply logs_bind; [|intros; apply logs_ret].
  destruct load; [apply logs_load_node_props | apply logs_ret].
Qed.

Lemma logs_standard_item self load node_id :
  logs is_read_only (standard_item E self load node_id).
Proof.
  unfold standard_item. apply logs_bind; [apply logs_create_node_ref|].
  intros r. apply logs_ret.
Qed.

Lemma id_traversal_read_only c : is_id_traversal c = true -> is_read_only c = true.
Proof. destruct c; simpl; intros H; try discriminate H; reflexivity. Qed.

Lemma key_traversal_read_only c : is_key_traversal c = true -> is_read_only c = true.
Proof. destruct c; simpl; intros H; try discriminate H; reflexivity. Qed.

(** The items of [_execute] on the fast path call the node type
    resolver and nothing else. *)
Lemma execute_fast_items (P : Call -> bool) self w items w' :
  (forall id, P (CGetNodeDef id) = true) ->
  tr_node_filter self = None ->
  needs_any_props (tr_prop_strategy self) = false ->
  _execute E self w = (Ok items, w') ->
  Forall (logs P) items.
Proof.
  unfold _execute. intros HP -> ->. simpl. intros Hrun. inv_bind Hrun.
  apply ret_Ok in Hrun as [-> _]. apply Forall_forall. intros item Hin.
  apply list_elem_of_In, in_map_iff in Hin as (p & <- & _). apply logs_fast_item, HP.
Qed.

Lemma execute_items self w items w' :
  _execute E self w = (Ok items, w') -> Forall (logs is_read_only) items.
Proof.
  unfold _execute.
  destruct (negb (bool_decide (is_Some (tr_node_filter self))) &&
            negb (needs_any_props (tr_prop_strategy self)));
    intros Hrun; inv_bind Hrun; apply ret_Ok in Hrun as [-> _];
    apply Forall_forall; intros item Hin;
    apply list_elem_of_In, in_map_iff in Hin as (p & <- & _).
  - now apply logs_fast_item.
  - apply logs_standard_item.
Qed.

Lemma key_traversal_fast_path c : is_key_traversal c = true -> is_fast_path_call c = true.
Proof. destruct c; simpl; intros H; try discriminate H; reflexivity. Qed.

Lemma logs_execute_fast_path self :
  tr_node_filter self = None ->
  needs_any_props (tr_prop_strategy self) = false ->
  logs is_fast_path_call (_execute E self).
Proof.
  intros Hf Hp. unfold _execute. rewrite Hf, Hp. simpl.
  apply logs_bind; [|intros; apply logs_ret].
  eapply logs_weaken; [apply key_traversal_fast_path | apply logs_execute_fast_with_keys].
Qed.

Lemma logs_execute self : logs is_read_only (_execute E self).
Proof.
  unfold _execute.
  destruct (negb (bool_decide (is_Some (tr_node_filter self))) &&
            negb (needs_any_props (tr_prop_strategy self))).
  - apply logs_bind; [|intros; apply logs_ret].
    eapply logs_weaken; [apply key_traversal_read_only | apply logs_execute_fast_with_keys].
  - apply logs_bind; [|intros; apply logs_ret].
    eapply logs_weaken; [apply id_traversal_read_only | apply logs_execute_fast].
Qed.

Lemma logs_to_list self : logs is_read_only (to_list E self).
Proof.
  unfold to_list. apply logs_bind_dep; [apply logs_execute|].
  intros w items w' Hrun. apply logs_gen_collect. eapply execute_items; eauto.
Qed.

Lemma logs_first self : logs is_read_only (first E self).
Proof.
  unfold first. apply logs_bind_dep; [apply logs_execute|].
  intros w items w' Hrun. apply logs_gen_first. eapply execute_items; eauto.
Qed.

Lemma logs_ids self : logs is_id_traversal (ids E self).
Proof. apply logs_execute_fast. Qed.

Lemma logs_count_unfiltered self :
  tr_node_filter self = None -> logs is_id_traversal (count E self).
Proof.
  intros Hf. unfold count. rewrite Hf. unfold _execute_fast_count.
  apply logs_bind; [|intros; apply logs_ret].
  apply logs_for_fold. intros. apply logs_fast_step.
Qed.

Lemma logs_count self : logs is_read_only (count E self).
Proof.
  unfold count. destruct (tr_node_filter self) as [f|] eqn:Hf.
  - apply logs_bind_dep; [apply logs_execute|]. intros w items w' Hrun.
    apply logs_bind; [|intros; apply logs_ret].
    apply logs_gen_collect. eapply execute_items; eauto.
  - eapply logs_weaken; [apply id_traversal_read_only|].
    unfold _execute_fast_count. apply logs_bind; [|intros; apply logs_ret].
    apply logs_for_fold. intros. apply logs_fast_step.
Qed.

Lemma logs_keys self : logs is_read_only (keys E self).
Proof.
  unfold keys. apply logs_bind.
  - eapply logs_weaken; [apply id_traversal_read_only | apply logs_execute_fast].
  - intros node_ids. unfold keys_item, get_node_key. logs_tac.
Qed.

Lemma logs_path_result self result : logs is_read_only (path_result E self result).
Proof.
  unfold path_result, path_nodes, path_create_node_ref, path_load_prop, get_node_key,
    _resolve_prop_key_id, get_node_prop.
  logs_tac.
Qed.

Lemma logs_find self : logs is_read_only (find E self).
Proof.
  unfold find. destruct (pf_target self); [|apply logs_raise].
  apply logs_bind; [unfold path_etype_id, _resolve_etype_id; logs_tac|]. intros et.
  apply logs_bind; [unfold find_path_bfs; logs_tac|]. intros result.
  apply logs_path_result.
Qed.

Lemma logs_find_weighted self : logs is_read_only (find_weighted E self).
Proof.
  unfold find_weighted. destruct (pf_target self); [|apply logs_raise].
  apply logs_bind; [unfold path_etype_id, _resolve_etype_id; logs_tac|]. intros et.
  apply logs_bind; [unfold find_path_dijkstra; logs_tac|]. intros result.
  apply logs_path_result.
Qed.

Lemma logs_path_exists self : logs is_exists_call (path_exists E self).
Proof.
  unfold path_exists, path_etype_id, _resolve_etype_id, has_path. logs_tac.
Qed.

End Logs.

(** X1: no terminal operation of a traversal and no path query ever opens,
    commits or rolls back a transaction, or writes a node, an edge or a
    property: every call they log is a lookup, a traversal, a path search
    or an identifier resolution. *)
Theorem queries_are_read_only {St} (E : Engine St) :
  (forall self : TraversalResult,
      logs is_read_only (to_list E self) /\
      logs is_read_only (first E self) /\
      logs is_read_only (count E self) /\
      logs is_read_only (ids E self) /\
      logs is_read_only (keys E self)) /\
  (forall self : PathFindingBuilder,
      logs is_read_only (find E self) /\
      logs is_read_only (find_weighted E self) /\
      logs is_read_only (path_exists E self)).
Proof.
  split; intros self; repeat split.
  - apply logs_to_list.
  - apply logs_first.
  - apply logs_count.
  - eapply logs_weaken; [apply id_traversal_read_only | apply logs_ids].
  - apply logs_keys.
  - apply logs_find.
  - apply logs_find_weighted.
  - eapply logs_weaken; [|apply logs_path_exists].
    intros c. destruct c; simpl; intros H; try discriminate H; reflexivity.
Qed.

(** X2: [ids()], and [count()] when no predicate is set, fetch nothing
    but neighbour identifiers: they call only [traverse_out],
    [traverse_in] and the edge type resolver, never a key or property
    lookup. *)
Theorem unfiltered_count_fetches_no_properties {St} (E : Engine St) (self : TraversalResult) :
  logs is_id_traversal (ids E self) /\
  (tr_node_filter self = None -> logs is_id_traversal (count E self)).
Proof. split; [apply logs_ids | apply logs_count_unfiltered]. Qed.

Lemma unfiltered_count_fetches_no_properties_witness :
  exists w',
    count Mem.engine (_build_result (out (from_ [Sample.alice]) (Some Mem.knows)))
      Sample.friends = (Ok 1, w') /\
    w_log w' = [CResolveEtypeId "knows"; CTraverseOut 1 (Some 0)] /\
    Forall (fun c => is_id_traversal c = true) (w_log w').
Proof.
  eexists. split; [vm_compute; reflexivity|]. split; [reflexivity|].
  destruct (proj2 (unfiltered_count_fetches_no_properties Mem.engine
                     (_build_result (out (from_ [Sample.alice]) (Some Mem.knows))))
              eq_refl Sample.friends _ _ eq_refl) as (l & Hl & F).
  simpl in Hl. subst l. exact F.
Defined.

(** X3: with the default strategy and no predicate, [to_list()] and
    [first()] call only the batched [traverse_out_with_keys] and
    [traverse_in_with_keys], the edge type resolver and the node type
    resolver: no key and no property is fetched node by node, whether
    they succeed or fail. *)
Theorem default_to_list_uses_batched_calls {St} (E : Engine St) (self : TraversalResult) :
  tr_node_filter self = None ->
  needs_any_props (tr_prop_strategy self) = false ->
  logs is_fast_path_call (to_list E self) /\ logs is_fast_path_call (first E self).
Proof.
  intros Hf Hp. split.
  - unfold to_list. apply logs_bind_dep; [now apply logs_execute_fast_path|].
    intros w items w' Hrun. apply logs_gen_collect.
    eapply execute_fast_items; eauto.
  - unfold first. apply logs_bind_dep; [now apply logs_execute_fast_path|].
    intros w items w' Hrun. apply logs_gen_first.
    eapply execute_fast_items; eauto.
Qed.

Lemma default_to_list_uses_batched_calls_witness :
  exists l w',
    to_list Mem.engine (_build_result (out (from_ [Sample.alice]) (Some Mem.knows)))
      Sample.friends = (Ok l, w') /\
    map nr_key l = ["user:bob"] /\
    w_log w' = [CResolveEtypeId "knows"; CTraverseOutWithKeys 1 (Some 0); CGetNodeDef 2] /\
    Forall (fun c => is_fast_path_call c = true) (w_log w').
Proof.
  eexists _, _. split; [vm_compute; reflexivity|]. split; [reflexivity|].
  split; [reflexivity|].
  destruct (proj1 (default_to_list_uses_batched_calls Mem.engine
                     (_build_result (out (from_ [Sample.alice]) (Some Mem.knows)))
                     eq_refl eq_refl) Sample.friends _ _ eq_refl) as (l & Hl & F).
  simpl in Hl. subst l. exact F.
Defined.

(** X4: [exists()] calls nothing but the edge type resolver and
    [has_path], so it builds no handle; the direction set on the builder
    is not passed on, nor is the request to load properties: they do not
    change what [exists()] does. *)
Theorem exists_ignores_direction {St} (E : Engine St) (self : PathFindingBuilder) :
  logs is_exists_call (path_exists E self) /\
  (forall dir, path_exists E (direction self dir) = path_exists E self) /\
  path_exists E (path_with_props self) = path_exists E self.
Proof. split; [apply logs_path_exists|]. split; reflexivity. Qed.

(** ** One transaction per mutation *)

Section OneTransaction.
Context {St : Type}.
Variable E : Engine St.
Variable py : Builtins.

Ltac logs_tac :=
  repeat first
    [ apply logs_ret | apply logs_raise | apply logs_lift
    | apply logs_call_w; reflexivity
    | apply logs_call_r; reflexivity
    | apply logs_bind; [|intros ?]
    | apply logs_for_each; intros ?
    | apply logs_for_fold; intros ? ?
    | match goal with
      | |- logs _ (if ?b then _ else _) => destruct b
      | |- logs _ (match ?x with _ => _ end) => destruct x
      | |- logs _ (let '(_, _) := ?x in _) => destruct x
      end ].

Lemma logs_txn_prologue m : logs not_tx_control (txn_prologue E m).
Proof.
  destruct m; simpl; unfold resolve_where, get_node_by_key, _resolve_etype_id; logs_tac.
Qed.

Lemma logs_insert_loop node_def data acc :
  logs not_tx_control (for_fold data acc (insert_item E py node_def)).
Proof.
  unfold insert_item, insert_prop, create_node, _resolve_prop_key_id, set_node_prop.
  logs_tac.
Qed.

Lemma logs_update_loop node_def node_id data :
  logs not_tx_control (for_each data (update_prop E py node_def node_id)).
Proof.
  unfold update_prop, _resolve_prop_key_id, set_node_prop, delete_node_prop. logs_tac.
Qed.

Lemma logs_link_loop edge_def a t b data :
  logs not_tx_control (for_each data (link_prop E py edge_def a t b)).
Proof. unfold link_prop, _resolve_edge_prop_key_id, set_edge_prop. logs_tac. Qed.

Lemma logs_update_edge_loop edge_def a t b data :
  logs not_tx_control (for_each data (update_edge_prop E py edge_def a t b)).
Proof.
  unfold update_edge_prop, _resolve_edge_prop_key_id, set_edge_prop, delete_edge_prop.
  logs_tac.
Qed.

Lemma commit_Ok_log w w' :
  commit E w = (Ok tt, w') -> w_log w' = w_log w ++ [CCommit].
Proof. unfold commit, call_w. destruct (db_commit E (w_db w)). now intros [= _ <-]. Qed.

(** A [try] block that goes through: calls that are not transaction
    control, then [commit] as the last call. *)
Lemma inner_then_commit {A} (inner : M St A) w a w1 w2 :
  logs not_tx_control inner ->
  inner w = (Ok a, w1) ->
  commit E w1 = (Ok tt, w2) ->
  exists mid, w_log w2 = w_log w ++ mid ++ [CCommit] /\
              Forall (fun c => not_tx_control c = true) mid.
Proof.
  intros Hlogs Hinner Hc. destruct (Hlogs _ _ _ Hinner) as (mid & Hmid & F).
  exists mid. split; [|exact F]. rewrite (commit_Ok_log _ _ Hc), Hmid. now rewrite app_assoc.
Qed.

Lemma txn_body_Ok_log m x w1 w2 :
  txn_body E py m x w1 = (Ok tt, w2) ->
  exists mid, w_log w2 = w_log w1 ++ mid ++ [CCommit] /\
              Forall (fun c => not_tx_control c = true) mid.
Proof.
  destruct m; simpl; intros Hrun.
  - inv_bind Hrun. apply ret_Ok in Hrun as [_ ->]. unfold insert_body in Hruna.
    inv_bind Hruna. inv_bind Hruna. apply ret_Ok in Hruna as [_ ->]. destruct a1.
    eapply inner_then_commit; eauto. apply logs_insert_loop.
  - unfold update_body in Hrun. inv_bind Hrun. destruct a.
    eapply inner_then_commit; eauto. apply logs_update_loop.
  - unfold update_body in Hrun. inv_bind Hrun. destruct a.
    eapply inner_then_commit; eauto. apply logs_update_loop.
  - inv_bind Hrun. apply ret_Ok in Hrun as [_ ->]. unfold delete_body in Hruna.
    inv_bind Hruna. inv_bind Hruna. apply ret_Ok in Hruna as [_ ->]. destruct a1.
    eapply inner_then_commit; eauto. unfold delete_node. logs_tac.
  - unfold create_link_body in Hrun.
    assert (Hsplit : exists w1', bind (add_edge E (nr_id src) x (nr_id dst))
               (fun _ => for_each (props_items props)
                           (link_prop E py edge_def (nr_id src) x (nr_id dst))) w1
               = (Ok tt, w1') /\ commit E w1' = (Ok tt, w2)).
    { inv_bind Hrun. inv_bind Hrun. destruct a0. exists w0. split; [|exact Hrun].
      now rewrite (bind_run _ _ _ _ _ Hruna). }
    destruct Hsplit as (w1' & Hin & Hc). eapply inner_then_commit; eauto.
    apply logs_bind; [unfold add_edge; logs_tac | intros; apply logs_link_loop].
  - unfold delete_link_body in Hrun. inv_bind Hrun. destruct a.
    eapply inner_then_commit; eauto. unfold delete_edge. logs_tac.
  - unfold update_edge_body in Hrun. inv_bind Hrun. destruct a.
    eapply inner_then_commit; eauto. apply logs_update_edge_loop.
Qed.

Lemma try_rollback_Ok {A} (body : M St A) w a w' :
  try_rollback E body w = (Ok a, w') -> body w = (Ok a, w').
Proof.
  unfold try_rollback. destruct (body w) as [[a0|e] w1]; [auto|].
  destruct (rollback E w1) as [[[]|e'] w2]; discriminate.
Qed.

Lemma begin_Ok w (u : unit) w1 :
  begin E w = (Ok u, w1) ->
  exists s1, db_begin E (w_db w) = (Ok tt, s1) /\
             w1 = {| w_db := s1; w_log := w_log w ++ [CBegin] |}.
Proof.
  destruct u. unfold begin, call_w. destruct (db_begin E (w_db w)) as [r s1].
  intros [= -> <-]. eauto.
Qed.

(** A mutation that goes through either opened no transaction (a delete
    whose selector did not resolve) or ran its prologue, [begin] and its
    [try] block. *)
Lemma run_mutation_Ok m w w' :
  run_mutation E py m w = (Ok tt, w') ->
  ((exists self, m = MDelete self) /\ txn_prologue E m w = (Ok None, w')) \/
  exists x w0 s1,
    txn_prologue E m w = (Ok (Some x), w0) /\
    db_begin E (w_db w0) = (Ok tt, s1) /\
    txn_body E py m x {| w_db := s1; w_log := w_log w0 ++ [CBegin] |} = (Ok tt, w').
Proof.
  intros Hrun. destruct m; simpl in Hrun |- *.
  - right. unfold insert_execute in Hrun. inv_bind Hrun. apply ret_Ok in Hrun as [_ ->].
    unfold returning in Hruna. inv_bind Hruna. inv_bind Hruna.
    apply begin_Ok in Hrunaa as (s1 & Hb & ->). apply try_rollback_Ok in Hrunaa0.
    assert (Heq : w0 = w2).
    { destruct (ie_is_single self); [destruct a1|];
        try discriminate Hruna; now apply ret_Ok in Hruna as [_ ->]. }
    subst w0. exists 0, w, s1. split; [reflexivity|]. split; [exact Hb|].
    now rewrite (bind_run _ _ _ _ _ Hrunaa0).
  - right. unfold update_execute in Hrun.
    destruct (ue_where_id self) as [i|] eqn:Hi, (ue_where_key self) as [k|] eqn:Hk;
      try discriminate Hrun;
      inv_bind Hrun; (destruct a as [id|]; [|discriminate Hrun]);
      inv_bind Hrun; apply begin_Ok in Hruna0 as (s1 & Hb & ->);
      apply try_rollback_Ok in Hrun; destruct a;
      exists id, w0, s1; rewrite (bind_run _ _ _ _ _ Hruna); auto.
  - right. unfold update_ref_execute in Hrun. inv_bind Hrun.
    apply begin_Ok in Hruna as (s1 & Hb & ->). apply try_rollback_Ok in Hrun.
    eexists _, w, s1. split; [reflexivity|]. auto.
  - inv_bind Hrun. apply ret_Ok in Hrun as [_ ->]. unfold delete_execute in Hruna.
    destruct (de_where_id self) as [i|] eqn:Hi, (de_where_key self) as [k|] eqn:Hk;
      try discriminate Hruna;
      inv_bind Hruna;
      (destruct a0 as [id|];
       [ right; inv_bind Hruna; apply begin_Ok in Hrunaa0 as (s1 & Hb & ->);
         apply try_rollback_Ok in Hruna; exists id, w1, s1;
         split; [exact Hrunaa|]; split; [exact Hb|];
         now rewrite (bind_run _ _ _ _ _ Hruna)
       | left; apply ret_Ok in Hruna as [_ ->]; split; [eauto | exact Hrunaa] ]).
  - right. unfold create_link in Hrun. inv_bind Hrun. inv_bind Hrun.
    apply begin_Ok in Hruna0 as (s1 & Hb & ->). apply try_rollback_Ok in Hrun. destruct a0.
    exists a, w0, s1. rewrite (bind_run _ _ _ _ _ Hruna). auto.
  - right. unfold delete_link in Hrun. inv_bind Hrun. inv_bind Hrun.
    apply begin_Ok in Hruna0 as (s1 & Hb & ->). apply try_rollback_Ok in Hrun. destruct a0.
    exists a, w0, s1. rewrite (bind_run _ _ _ _ _ Hruna). auto.
  - right. unfold update_edge_execute in Hrun. inv_bind Hrun. inv_bind Hrun.
    apply begin_Ok in Hruna0 as (s1 & Hb & ->). apply try_rollback_Ok in Hrun. destruct a0.
    exists a, w0, s1. rewrite (bind_run _ _ _ _ _ Hruna). auto.
Qed.

End OneTransaction.

(** X5: a mutation that goes through owns exactly one transaction: after
    the calls of its prologue, none of which is transaction control, it
    calls [begin] once, then only data calls, and [commit] once as its
    last call; it never calls [rollback].  The one exception opens no
    transaction at all: a delete whose selector does not resolve. *)
Theorem mutation_one_transaction {St} (E : Engine St) (py : Builtins) (m : Mutation)
    (w w' : World St) :
  run_mutation E py m w = (Ok tt, w') ->
  ((exists self, m = MDelete self) /\
   exists l, w_log w' = w_log w ++ l /\ Forall (fun c => not_tx_control c = true) l) \/
  exists pre mid,
    w_log w' = w_log w ++ pre ++ [CBegin] ++ mid ++ [CCommit] /\
    Forall (fun c => not_tx_control c = true) pre /\
    Forall (fun c => not_tx_control c = true) mid.
Proof.
  intros Hrun. apply run_mutation_Ok in Hrun as [[Hm Hpro] | (x & w0 & s1 & Hpro & Hb & Hbody)].
  - left. split; [exact Hm|]. apply (logs_txn_prologue E m _ _ _ Hpro).
  - right. destruct (logs_txn_prologue E m _ _ _ Hpro) as (pre & Hpre & Fpre).
    destruct (txn_body_Ok_log E py _ _ _ _ Hbody) as (mid & Hmid & Fmid).
    exists pre, mid. split; [|auto]. rewrite Hmid. simpl. rewrite Hpre.
    now rewrite <- !app_assoc.
Qed.

Lemma mutation_one_transaction_witness :
  exists w',
    run_mutation Mem.engine Mem.builtins
      (MInsert (values Mem.user None [("key", PyStr "a"); ("name", PyStr "A")]))
      Mem.fresh = (Ok tt, w') /\
    w_log w' = [] ++ [CBegin]
               ++ [CCreateNode "user:a"; CResolveNodePropKeyId "user" "name";
                   CSetNodeProp 1 0 (PVString "A")]
               ++ [CCommit] /\
    exists pre mid, w_log w' = w_log Mem.fresh ++ pre ++ [CBegin] ++ mid ++ [CCommit].
Proof.
  eexists. split; [vm_compute; reflexivity|]. split; [reflexivity|].
  destruct (mutation_one_transaction Mem.engine Mem.builtins
              (MInsert (values Mem.user None [("key", PyStr "a"); ("name", PyStr "A")]))
              Mem.fresh _ eq_refl) as [[[self Hm] _] | (pre & mid & Hlog & _)].
  - discriminate Hm.
  - exists pre, mid. exact Hlog.
Defined.

Section FailedBegin.
Context {St : Type}.
Variable E : Engine St.
Variable py : Builtins.

Lemma begin_Raise {A} (k : unit -> M St A) w0 e s1 :
  db_begin E (w_db w0) = (Raise e, s1) ->
  bind (begin E) k w0 = (Raise e, {| w_db := s1; w_log := w_log w0 ++ [CBegin] |}).
Proof. intros Hb. unfold bind, begin, call_w. now rewrite Hb. Qed.

End FailedBegin.

(** X6: when [begin] itself fails, for instance because a transaction is
    already active, the mutation raises that failure with [begin] as its
    last call: [begin] is outside the [try] block, so [rollback] is not
    called and the transaction that was active is left alone. *)
Theorem failed_begin_is_not_rolled_back {St} (E : Engine St) (py : Builtins) (m : Mutation)
    (w w0 : World St) (x : Z) (e : PyExn) (s1 : St) :
  txn_prologue E m w = (Ok (Some x), w0) ->
  db_begin E (w_db w0) = (Raise e, s1) ->
  run_mutation E py m w = (Raise e, {| w_db := s1; w_log := w_log w0 ++ [CBegin] |}).
Proof.
  intros Hpro Hb. destruct m; simpl in Hpro |- *.
  - apply ret_Ok in Hpro as [_ ->]. unfold insert_execute. apply bind_run_Raise.
    unfold returning. now apply begin_Raise.
  - unfold update_execute.
    destruct (ue_where_id self) as [i|] eqn:Hi, (ue_where_key self) as [k|] eqn:Hk;
      try discriminate Hpro;
      inv_bind Hpro; rewrite (bind_run _ _ _ _ _ Hproa);
      (destruct a as [id|]; [|discriminate Hpro]);
      apply ret_Ok in Hpro as [_ ->]; now apply begin_Raise.
  - apply ret_Ok in Hpro as [_ ->]. unfold update_ref_execute. now apply begin_Raise.
  - apply bind_run_Raise. unfold delete_execute.
    destruct (de_where_id self) as [i|] eqn:Hi, (de_where_key self) as [k|] eqn:Hk;
      try discriminate Hpro;
      rewrite (bind_run _ _ _ _ _ Hpro); now apply begin_Raise.
  - inv_bind Hpro. apply ret_Ok in Hpro as [_ ->]. unfold create_link.
    rewrite (bind_run _ _ _ _ _ Hproa). now apply begin_Raise.
  - inv_bind Hpro. apply ret_Ok in Hpro as [_ ->]. unfold delete_link.
    rewrite (bind_run _ _ _ _ _ Hproa). now apply begin_Raise.
  - inv_bind Hpro. apply ret_Ok in Hpro as [_ ->]. unfold update_edge_execute.
    rewrite (bind_run _ _ _ _ _ Hproa). now apply begin_Raise.
Qed.

Lemma failed_begin_is_not_rolled_back_witness :
  run_mutation Mem.engine Mem.builtins
    (MUpdateRef (update_ref_set Sample.alice None [("age", PyInt 31)]))
    {| w_db := (Mem.begin (w_db Sample.friends)).2; w_log := [] |}
  = (Raise (EngineError "transaction already active"),
     {| w_db := (Mem.begin (w_db Sample.friends)).2; w_log := [CBegin] |}).
Proof.
  exact (failed_begin_is_not_rolled_back Mem.engine Mem.builtins
           (MUpdateRef (update_ref_set Sample.alice None [("age", PyInt 31)]))
           {| w_db := (Mem.begin (w_db Sample.friends)).2; w_log := [] |}
           {| w_db := (Mem.begin (w_db Sample.friends)).2; w_log := [] |}
           1 (EngineError "transaction already active")
           (Mem.begin (w_db Sample.friends)).2 eq_refl eq_refl).
Defined.

(** ** Null values *)

Section NoNull.
Context {St : Type}.
Variable E : Engine St.
Variable py : Builtins.

Ltac logs_tac :=
  repeat first
    [ apply logs_ret | apply logs_raise | apply logs_lift
    | apply logs_call_w; reflexivity
    | apply logs_call_r; reflexivity
    | apply logs_bind; [|intros ?]
    | apply logs_for_each; intros ?
    | apply logs_for_fold; intros ? ?
    | apply logs_try_rollback; [reflexivity|]
    | match goal with
      | |- logs _ (if ?b then _ else _) => destruct b
      | |- logs _ (match ?x with _ => _ end) => destruct x
      | |- logs _ (let '(_, _) := ?x in _) => destruct x
      end ].

(** The codec gives the null tag to [None] only. *)
Lemma to_prop_value_not_null prop_def value pv :
  is_none value = false -> to_prop_value py prop_def value = Ok pv -> pv <> PVNull.
Proof.
  unfold to_prop_value. intros ->.
  repeat match goal with
         | |- context [if ?b then _ else _] => destruct b
         | |- context [match ?x with Ok _ => _ | Raise _ => _ end] => destruct x
         end; intros [= <-]; discriminate.
Qed.

Lemma logs_set_node_converted prop_def value id pk :
  is_none value = false ->
  logs stores_no_null
    (bind (lift (to_prop_value py prop_def value))
          (fun prop_value => set_node_prop E id pk prop_value) : M St unit).
Proof.
  intros Hn w r w'. unfold bind, lift.
  destruct (to_prop_value py prop_def value) as [pv|e] eqn:Hconv.
  - apply logs_call_w. pose proof (to_prop_value_not_null _ _ _ Hn Hconv).
    now destruct pv.
  - intros [= _ <-]. exists []. now rewrite app_nil_r.
Qed.

Lemma logs_set_edge_converted prop_def value a t b pk :
  is_none value = false ->
  logs stores_no_null
    (bind (lift (to_prop_value py prop_def value))
          (fun prop_value => set_edge_prop E a t b pk prop_value) : M St unit).
Proof.
  intros Hn w r w'. unfold bind, lift.
  destruct (to_prop_value py prop_def value) as [pv|e] eqn:Hconv.
  - apply logs_call_w. pose proof (to_prop_value_not_null _ _ _ Hn Hconv).
    now destruct pv.
  - intros [= _ <-]. exists []. now rewrite app_nil_r.
Qed.

Lemma no_null_insert_prop node_def node_id kv :
  logs stores_no_null (insert_prop E py node_def node_id kv).
Proof.
  unfold insert_prop. destruct kv as [name value].
  destruct (is_none value) eqn:Hn; [apply logs_ret|].
  destruct (Dict.get name (nd_props node_def)); [|apply logs_ret].
  apply logs_bind; [apply logs_call_w; reflexivity|]. intros pk.
  now apply logs_set_node_converted.
Qed.

Lemma no_null_update_prop node_def node_id kv :
  logs stores_no_null (update_prop E py node_def node_id kv).
Proof.
  unfold update_prop. destruct kv as [name value].
  destruct (Dict.get name (nd_props node_def)); [|apply logs_ret].
  apply logs_bind; [apply logs_call_w; reflexivity|]. intros pk.
  destruct (is_none value) eqn:Hn; [apply logs_call_w; reflexivity|].
  now apply logs_set_node_converted.
Qed.

Lemma no_null_link_prop edge_def a t b kv :
  logs stores_no_null (link_prop E py edge_def a t b kv).
Proof.
  unfold link_prop. destruct kv as [name value].
  destruct (is_none value) eqn:Hn; [apply logs_ret|].
  destruct (Dict.get name (ed_props edge_def)); [|apply logs_ret].
  apply logs_bind; [apply logs_call_w; reflexivity|]. intros pk.
  now apply logs_set_edge_converted.
Qed.

Lemma no_null_update_edge_prop edge_def a t b kv :
  logs stores_no_null (update_edge_prop E py edge_def a t b kv).
Proof.
  unfold update_edge_prop. destruct kv as [name value].
  destruct (Dict.get name (ed_props edge_def)); [|apply logs_ret].
  apply logs_bind; [apply logs_call_w; reflexivity|]. intros pk.
  destruct (is_none value) eqn:Hn; [apply logs_call_w; reflexivity|].
  now apply logs_set_edge_converted.
Qed.

Lemma no_null_returning self : logs stores_no_null (returning E py self).
Proof.
  unfold returning, begin. apply logs_bind; [apply logs_call_w; reflexivity|]. intros _.
  apply logs_bind; [|intros; logs_tac].
  apply logs_try_rollback; [reflexivity|]. unfold insert_body.
  apply logs_bind; [|intros; unfold commit; logs_tac].
  apply logs_for_fold. intros acc item. unfold insert_item.
  destruct (is_none (pop_key item)); [apply logs_raise|].
  apply logs_bind; [apply logs_lift|]. intros full_key.
  apply logs_bind; [apply logs_call_w; reflexivity|]. intros node_id.
  apply logs_bind; [|intros; apply logs_ret].
  apply logs_for_each. intros kv. apply no_null_insert_prop.
Qed.

Lemma no_null_update_txn node_def node_id data :
  logs stores_no_null
    (bind (begin E) (fun _ => try_rollback E (update_body E py node_def node_id data))).
Proof.
  unfold begin. apply logs_bind; [apply logs_call_w; reflexivity|]. intros _.
  apply logs_try_rollback; [reflexivity|]. unfold update_body.
  apply logs_bind; [|intros; unfold commit; logs_tac].
  apply logs_for_each. intros kv. apply no_null_update_prop.
Qed.

End NoNull.

(** X7: no mutation ever stores an explicit null: whatever the data,
    every [set_node_prop] and [set_edge_prop] call that an insert, an
    update, a link or an edge update makes carries a string, an integer,
    a float or a boolean.  A [None] value is skipped (insert, link) or
    turned into a property delete (updates). *)
Theorem no_mutation_stores_null {St} (E : Engine St) (py : Builtins) (m : Mutation) :
  logs stores_no_null (run_mutation E py m).
Proof.
  destruct m; simpl.
  - unfold insert_execute. apply logs_bind; [apply no_null_returning | intros; apply logs_ret].
  - unfold update_execute, resolve_where, get_node_by_key.
    destruct (ue_where_id self), (ue_where_key self);
      repeat first
        [ apply logs_raise | apply logs_ret | apply no_null_update_txn
        | apply logs_call_r; reflexivity
        | apply logs_bind; [|intros ?]
        | match goal with
          | |- logs _ (if ?b then _ else _) => destruct b
          | |- logs _ (match ?x with _ => _ end) => destruct x
          end ].
  - apply no_null_update_txn.
  - apply logs_bind; [|intros; apply logs_ret].
    unfold delete_execute, resolve_where, get_node_by_key, begin, delete_body, delete_node,
      commit.
    destruct (de_where_id self), (de_where_key self);
      repeat first
        [ apply logs_raise | apply logs_ret
        | apply logs_call_r; reflexivity | apply logs_call_w; reflexivity
        | apply logs_try_rollback; [reflexivity|]
        | apply logs_bind; [|intros ?]
        | match goal with
          | |- logs _ (if ?b then _ else _) => destruct b
          | |- logs _ (match ?x with _ => _ end) => destruct x
          end ].
  - unfold create_link, _resolve_etype_id, begin.
    apply logs_bind; [apply logs_call_w; reflexivity|]. intros et.
    apply logs_bind; [apply logs_call_w; reflexivity|]. intros _.
    apply logs_try_rollback; [reflexivity|]. unfold create_link_body, add_edge, commit.
    apply logs_bind; [apply logs_call_w; reflexivity|]. intros _.
    apply logs_bind; [|intros; apply logs_call_w; reflexivity].
    apply logs_for_each. intros kv. apply no_null_link_prop.
  - unfold delete_link, _resolve_etype_id, begin, delete_link_body, delete_edge, commit.
    apply logs_bind; [apply logs_call_w; reflexivity|]. intros et.
    apply logs_bind; [apply logs_call_w; reflexivity|]. intros _.
    apply logs_try_rollback; [reflexivity|].
    apply logs_bind; [apply logs_call_w; reflexivity|]. intros _.
    apply logs_call_w; reflexivity.
  - unfold update_edge_execute, _resolve_etype_id, begin.
    apply logs_bind; [apply logs_call_w; reflexivity|]. intros et.
    apply logs_bind; [apply logs_call_w; reflexivity|]. intros _.
    apply logs_try_rollback; [reflexivity|]. unfold update_edge_body, commit.
    apply logs_bind; [|intros; apply logs_call_w; reflexivity].
    apply logs_for_each. intros kv. apply no_null_update_edge_prop.
Qed.

(** X8: an insert and a link never delete a property: in [returning()]
    and in [create_link] a [None] value issues no call at all, where the
    updates would issue a property delete. *)
Theorem insert_and_link_never_delete {St} (E : Engine St) (py : Builtins) :
  (forall self : InsertExecutor, logs deletes_no_prop (returning E py self)) /\
  (forall src edge_def dst props,
      logs deletes_no_prop (create_link E py src edge_def dst props)).
Proof.
  split.
  - intros self.
    unfold returning, begin, insert_body, insert_item, insert_prop, create_node,
      _resolve_prop_key_id, set_node_prop, commit.
    repeat first
      [ apply logs_ret | apply logs_raise | apply logs_lift
      | apply logs_call_w; reflexivity
      | apply logs_bind; [|intros ?]
      | apply logs_for_each; intros ?
      | apply logs_for_fold; intros ? ?
      | apply logs_try_rollback; [reflexivity|]
      | match goal with
        | |- logs _ (if ?b then _ else _) => destruct b
        | |- logs _ (match ?x with _ => _ end) => destruct x
        | |- logs _ (let '(_, _) := ?x in _) => destruct x
        end ].
  - intros src edge_def dst props.
    unfold create_link, _resolve_etype_id, begin, create_link_body, add_edge, link_prop,
      _resolve_edge_prop_key_id, set_edge_prop, commit.
    repeat first
      [ apply logs_ret | apply logs_raise | apply logs_lift
      | apply logs_call_w; reflexivity
      | apply logs_bind; [|intros ?]
      | apply logs_for_each; intros ?
      | apply logs_try_rollback; [reflexivity|]
      | match goal with
        | |- logs _ (if ?b then _ else _) => destruct b
        | |- logs _ (match ?x with _ => _ end) => destruct x
        | |- logs _ (let '(_, _) := ?x in _) => destruct x
        end ].
Qed.

(** ** The property codec *)

(** X9: [to_prop_value] encodes [None] as the null tag whatever the
    property type, also for a vector or an unknown type; any other value
    for a vector property raises [ValueError], as it does for an unknown
    type; and a value that is encoded gets the tag of the declared type,
    never the null tag. *)
Theorem codec_edge_cases (py : Builtins) (prop_def : PropDef) (value : PyValue) :
  to_prop_value py prop_def PyNone = Ok PVNull /\
  (value <> PyNone -> prop_type prop_def = "vector" ->
   to_prop_value py prop_def value
   = Raise (ValueError "Vector properties should be set using set_node_vector")) /\
  (value <> PyNone ->
   ~ prop_type prop_def ∈ ["string"; "int"; "float"; "bool"; "vector"] ->
   to_prop_value py prop_def value
   = Raise (ValueError ("Unknown property type: " +:+ prop_type prop_def))) /\
  (forall pv, value <> PyNone -> to_prop_value py prop_def value = Ok pv ->
              type_of_tag pv = Some (prop_type prop_def)).
Proof.
  assert (Hn : value <> PyNone -> is_none value = false)
    by (destruct value; simpl; congruence).
  split; [reflexivity|]. split; [|split].
  - intros Hv Ht. unfold to_prop_value. rewrite (Hn Hv), Ht. reflexivity.
  - intros Hv Ht. unfold to_prop_value. rewrite (Hn Hv).
    repeat match goal with
           | |- context [String.eqb ?a ?b] =>
               destruct (String.eqb_spec a b) as [Heq|_];
               [exfalso; apply Ht; rewrite Heq; set_solver|]
           end.
    reflexivity.
  - intros pv Hv. unfold to_prop_value. rewrite (Hn Hv).
    repeat match goal with
           | |- context [String.eqb ?a ?b] => destruct (String.eqb_spec a b) as [Heq|_]
           | |- context [match ?x with Ok _ => _ | Raise _ => _ end] => destruct x
           end; intros H; try discriminate H; injection H as <-; simpl; congruence.
Qed.

Lemma codec_edge_cases_witness :
  to_prop_value Mem.builtins {| prop_type := "vector" |} (PyVector [0; 0])
  = Raise (ValueError "Vector properties should be set using set_node_vector") /\
  to_prop_value Mem.builtins {| prop_type := "date" |} (PyStr "today")
  = Raise (ValueError "Unknown property type: date") /\
  type_of_tag (PVInt 30) = Some "int".
Proof.
  destruct (codec_edge_cases Mem.builtins {| prop_type := "vector" |} (PyVector [0; 0]))
    as (_ & Hvec & _ & _).
  destruct (codec_edge_cases Mem.builtins {| prop_type := "date" |} (PyStr "today"))
    as (_ & _ & Hunk & _).
  destruct (codec_edge_cases Mem.builtins {| prop_type := "int" |} (PyInt 30))
    as (_ & _ & _ & Htag).
  split; [apply Hvec; [discriminate | reflexivity]|].
  split.
  { apply Hunk; [discriminate|]. simpl. intros H.
    repeat (apply elem_of_cons in H as [H|H]; [discriminate H|]). inversion H. }
  apply (Htag (PVInt 30)); [discriminate | reflexivity].
Defined.

(** X10: decoding and encoding again gives the stored value back: for
    built-in conversions that leave a string, an integer and a float as
    they are, [to_prop_value] of [from_prop_value pv] under the type of
    the tag of [pv] is [pv], and under any type when [pv] is null; and
    [from_prop_value] never confuses two stored values. *)
Theorem codec_round_trip (py : Builtins) (pv : PropValue) (prop_def : PropDef) :
  (forall s, py_str py (PyStr s) = s) ->
  (forall z, py_int py (PyInt z) = Ok z) ->
  (forall f, py_float py (PyFloat f) = Ok f) ->
  (type_of_tag pv = None \/ type_of_tag pv = Some (prop_type prop_def)) ->
  to_prop_value py prop_def (from_prop_value pv) = Ok pv /\
  (forall pv', from_prop_value pv' = from_prop_value pv -> pv' = pv).
Proof.
  intros Hs Hi Hf Ht. split.
  - unfold to_prop_value.
    destruct pv; simpl in Ht |- *; destruct Ht as [Ht|Ht]; try discriminate Ht;
      try reflexivity; injection Ht as <-; simpl; rewrite ?Hs, ?Hi, ?Hf; reflexivity.
  - intros pv' H. destruct pv, pv'; simpl in H; congruence.
Qed.

Lemma codec_round_trip_witness :
  to_prop_value Mem.builtins {| prop_type := "int" |} (from_prop_value (PVInt 30))
  = Ok (PVInt 30).
Proof.
  apply (codec_round_trip Mem.builtins (PVInt 30) {| prop_type := "int" |});
    try reflexivity.
  now right.
Defined.

(** ** What an insert returns *)

Section InsertResult.
Context {St : Type}.
Variable E : Engine St.
Variable py : Builtins.

Lemma insert_item_Ok node_def results item w rs w' :
  insert_item E py node_def results item w = (Ok rs, w') ->
  exists ref, rs = results ++ [ref] /\ inserted E node_def item ref.
Proof.
  unfold insert_item. destruct (is_none (pop_key item)); [discriminate|].
  intros Hrun. inv_bind Hrun. unfold lift in Hruna. injection Hruna as Hkey <-.
  inv_bind Hrun. unfold create_node, call_w in Hruna.
  destruct (db_create_node E a (w_db w)) as [r s'] eqn:Hcreate.
  injection Hruna as -> <-. inv_bind Hrun. apply ret_Ok in Hrun as [-> _].
  eexists. split; [reflexivity|]. unfold inserted. simpl. eauto 6.
Qed.

Lemma insert_loop_Ok node_def data : forall acc w rs w',
  for_fold data acc (insert_item E py node_def) w = (Ok rs, w') ->
  exists refs, rs = acc ++ refs /\ Forall2 (inserted E node_def) data refs.
Proof.
  induction data as [|item data IH]; intros acc w rs w' Hrun; simpl in Hrun.
  - apply ret_Ok in Hrun as [-> _]. exists []. split; [now rewrite app_nil_r | constructor].
  - inv_bind Hrun. apply insert_item_Ok in Hruna as (ref & -> & Href).
    apply IH in Hrun as (refs & -> & Hrefs).
    exists (ref :: refs). split; [now rewrite <- app_assoc | now constructor].
Qed.

Lemma returning_Ok self w r w' :
  returning E py self w = (Ok r, w') ->
  exists refs,
    Forall2 (inserted E (ie_node_def self)) (ie_data self) refs /\
    r = (if ie_is_single self
         then match refs with ref :: _ => OneRef ref | [] => ManyRefs [] end
         else ManyRefs refs) /\
    (ie_is_single self = true -> refs <> []).
Proof.
  unfold returning. intros Hrun. inv_bind Hrun. inv_bind Hrun.
  apply try_rollback_Ok in Hruna0. unfold insert_body in Hruna0.
  inv_bind Hruna0. inv_bind Hruna0. apply ret_Ok in Hruna0 as [-> _].
  apply insert_loop_Ok in Hruna0a as (refs & -> & Hrefs). simpl in Hrun.
  exists refs. split; [exact Hrefs|].
  destruct (ie_is_single self).
  - destruct refs as [|ref refs]; [discriminate Hrun|].
    apply ret_Ok in Hrun as [-> _]. split; [reflexivity | discriminate].
  - apply ret_Ok in Hrun as [-> _]. split; [reflexivity | discriminate].
Qed.

Lemma dict_get_remove_ne {V} (k name : string) (d : Dict.t V) :
  name <> k -> Dict.get name (Dict.remove k d) = Dict.get name d.
Proof.
  intros Hne. induction d as [|[k' v] d IH]; simpl; [reflexivity|].
  destruct (String.eqb_spec k k') as [<-|Hk]; simpl.
  - rewrite IH. destruct (String.eqb_spec name k); [contradiction | reflexivity].
  - now rewrite IH.
Qed.

End InsertResult.

(** X11: an insert keeps the shape and the order of its input.  A
    successful [values(...).returning()] returns one handle, and a
    successful [values_many(records).returning()] a list with one handle
    per record, in the order of the records (none for an empty list).
    Each handle has the key that the key function of the node type gives
    for the record's selector, the node type of the insert, the record
    without its selector as properties, and an identifier the engine
    returned from [create_node] for that key. *)
Theorem insert_returns_handles {St} (E : Engine St) (py : Builtins) (node_def : NodeDef) :
  (forall data kwargs w r w',
      returning E py (values node_def data kwargs) w = (Ok r, w') ->
      exists ref, r = OneRef ref /\ inserted E node_def (merge_kwargs data kwargs) ref) /\
  (forall records w r w',
      returning E py (values_many node_def records) w = (Ok r, w') ->
      exists refs, r = ManyRefs refs /\ Forall2 (inserted E node_def) records refs).
Proof.
  split.
  - intros data kwargs w r w' Hrun.
    apply returning_Ok in Hrun as (refs & Hrefs & -> & _). simpl in Hrefs |- *.
    inversion Hrefs as [|item ref items refs' Href Hrest]; subst.
    exists ref. auto.
  - intros records w r w' Hrun.
    apply returning_Ok in Hrun as (refs & Hrefs & -> & _). simpl in Hrefs |- *.
    exists refs. auto.
Qed.

Lemma insert_returns_handles_witness :
  exists refs w',
    returning Mem.engine Mem.builtins
      (values_many Mem.user [[("key", PyStr "a"); ("name", PyStr "A")];
                             [("key", PyStr "b"); ("age", PyNone)]])
      Mem.fresh = (Ok (ManyRefs refs), w') /\
    map nr_key refs = ["user:a"; "user:b"] /\
    map nr_id refs = [1; 2] /\
    Forall2 (inserted Mem.engine Mem.user)
      [[("key", PyStr "a"); ("name", PyStr "A")]; [("key", PyStr "b"); ("age", PyNone)]]
      refs.
Proof.
  eexists _, _. split; [vm_compute; reflexivity|]. split; [reflexivity|].
  split; [reflexivity|].
  destruct (proj2 (insert_returns_handles Mem.engine Mem.builtins Mem.user)
              [[("key", PyStr "a"); ("name", PyStr "A")]; [("key", PyStr "b"); ("age", PyNone)]]
              Mem.fresh _ _ eq_refl) as (refs & Heq & Hrefs).
  injection Heq as <-. exact Hrefs.
Defined.

(** X12: the handle a single insert returns gives the record back by
    attribute.  For every name that attribute access passes to the hook
    (a name that is none of the slots [id], [key], [node_def], [props]
    and no attribute of the class), [handle.name] returns the value the
    record had under that name, also when the node type does not declare
    the name or the value is [None]; for such a name that the record
    lacked it returns [None] when the node type declares it and raises
    [AttributeError] otherwise.  The slots are not looked up in the
    record: [handle.key] is the key the node was created under and
    [handle.id] the identifier the engine returned, whatever the record
    holds under these names. *)
Theorem inserted_handle_attributes {St} (E : Engine St) (py : Builtins) (node_def : NodeDef)
    (class_attrs : string -> bool)
    (data : option (Dict.t PyValue)) (kwargs : Dict.t PyValue) (w w' : World St)
    (ref : NodeRef) :
  returning E py (values node_def data kwargs) w = (Ok (OneRef ref), w') ->
  (forall name,
      name ∉ NodeRefM.slots -> class_attrs name = false ->
      NodeRefM.getattr class_attrs ref name
      = AttrHook
          match Dict.get name (merge_kwargs data kwargs) with
          | Some v => Ok v
          | None =>
              if Dict.mem name (nd_props node_def) then Ok PyNone
              else Raise (AttributeError
                            ("'NodeRef' object has no attribute '" +:+ name +:+ "'"))
          end) /\
  key_fn node_def (pop_key (merge_kwargs data kwargs))
  = Ok (nr_key ref) /\
  NodeRefM.getattr class_attrs ref "key" = AttrKey (nr_key ref) /\
  (exists s s', db_create_node E (nr_key ref) s = (Ok (nr_id ref), s')) /\
  NodeRefM.getattr class_attrs ref "id" = AttrId (nr_id ref).
Proof.
  intros Hrun.
  apply returning_Ok in Hrun as (refs & Hrefs & Hres & _). simpl in Hrefs, Hres.
  inversion Hrefs as [|item ref' items refs' Hins Hrest]; subst.
  injection Hres as ->. destruct Hins as (Hkey & Hdef & Hprops & Hid).
  split; [|repeat split; assumption].
  intros name Hslot Hclass.
  assert (Hne : name <> "key").
  { intros ->. apply Hslot. unfold NodeRefM.slots. apply elem_of_cons. right.
    apply elem_of_cons. now left. }
  unfold NodeRefM.getattr. rewrite Hclass.
  repeat match goal with
         | |- context [String.eqb name ?x] =>
             destruct (String.eqb_spec name x) as [Heq|_];
             [exfalso; apply Hslot; rewrite Heq; unfold NodeRefM.slots;
              repeat (apply elem_of_cons; first [now left | right]) |]
         end.
  unfold NodeRefM.__getattr__. rewrite Hprops, Hdef, (dict_get_remove_ne _ _ _ Hne).
  reflexivity.
Qed.

Lemma inserted_handle_attributes_witness :
  exists ref w',
    returning Mem.engine Mem.builtins
      (values Mem.user (Some [("key", PyStr "a"); ("nick", PyStr "x"); ("id", PyInt 99)])
         [("age", PyNone)])
      Mem.fresh = (Ok (OneRef ref), w') /\
    NodeRefM.getattr (String.prefix "__") ref "nick" = AttrHook (Ok (PyStr "x")) /\
    NodeRefM.getattr (String.prefix "__") ref "age" = AttrHook (Ok PyNone) /\
    NodeRefM.getattr (String.prefix "__") ref "name" = AttrHook (Ok PyNone) /\
    NodeRefM.getattr (String.prefix "__") ref "id" = AttrId 1.
Proof.
  eexists _, _. split; [vm_compute; reflexivity|].
  assert (Hslot : forall name,
             String.eqb name "id" || String.eqb name "key" || String.eqb name "node_def"
             || String.eqb name "props" = false -> name ∉ NodeRefM.slots).
  { intros name Hb H. unfold NodeRefM.slots in H.
    repeat (apply elem_of_cons in H as [H|H];
            [subst name; discriminate Hb|]). inversion H. }
  split; [|split; [|split]].
  - eapply (proj1 (inserted_handle_attributes Mem.engine Mem.builtins Mem.user
                     (String.prefix "__")
                     (Some [("key", PyStr "a"); ("nick", PyStr "x"); ("id", PyInt 99)])
                     [("age", PyNone)] Mem.fresh _ _ ltac:(vm_compute; reflexivity)) "nick");
      [now apply Hslot | reflexivity].
  - eapply (proj1 (inserted_handle_attributes Mem.engine Mem.builtins Mem.user
                     (String.prefix "__")
                     (Some [("key", PyStr "a"); ("nick", PyStr "x"); ("id", PyInt 99)])
                     [("age", PyNone)] Mem.fresh _ _ ltac:(vm_compute; reflexivity)) "age");
      [now apply Hslot | reflexivity].
  - eapply (proj1 (inserted_handle_attributes Mem.engine Mem.builtins Mem.user
                     (String.prefix "__")
                     (Some [("key", PyStr "a"); ("nick", PyStr "x"); ("id", PyInt 99)])
                     [("age", PyNone)] Mem.fresh _ _ ltac:(vm_compute; reflexivity)) "name");
      [now apply Hslot | reflexivity].
  - reflexivity.
Defined.

(** ** Selectors of update and delete *)

(** X13: update and delete check and resolve their selector before they
    open a transaction.  Without identifier and key both raise
    [ValueError] and the engine is not called at all; an update by a key
    that the engine does not know raises [ValueError] naming the key
    after the lookup alone; and a lookup that fails raises its failure:
    in none of these cases is [begin] or [rollback] called. *)
Theorem selector_checked_before_transaction {St} (E : Engine St) (py : Builtins)
    (w : World St) :
  (forall self : UpdateExecutor,
      ue_where_id self = None -> ue_where_key self = None ->
      update_execute E py self w
      = (Raise (ValueError "Update requires a where condition (id or key)"), w)) /\
  (forall self : DeleteExecutor,
      de_where_id self = None -> de_where_key self = None ->
      delete_execute E self w
      = (Raise (ValueError "Delete requires a where condition (id or key)"), w)) /\
  (forall (self : UpdateExecutor) key,
      ue_where_id self = None -> ue_where_key self = Some key -> str_truthy key = true ->
      db_get_node_by_key E key (w_db w) = Ok None ->
      update_execute E py self w
      = (Raise (ValueError ("Node not found: " +:+ key)),
         {| w_db := w_db w; w_log := w_log w ++ [CGetNodeByKey key] |})) /\
  (forall (self : UpdateExecutor) key e,
      ue_where_id self = None -> ue_where_key self = Some key -> str_truthy key = true ->
      db_get_node_by_key E key (w_db w) = Raise e ->
      update_execute E py self w
      = (Raise e, {| w_db := w_db w; w_log := w_log w ++ [CGetNodeByKey key] |})) /\
  (forall (self : DeleteExecutor) key e,
      de_where_id self = None -> de_where_key self = Some key -> str_truthy key = true ->
      db_get_node_by_key E key (w_db w) = Raise e ->
      delete_execute E self w
      = (Raise e, {| w_db := w_db w; w_log := w_log w ++ [CGetNodeByKey key] |})).
Proof.
  split; [|split; [|split; [|split]]].
  - intros self Hi Hk. unfold update_execute. now rewrite Hi, Hk.
  - intros self Hi Hk. unfold delete_execute. now rewrite Hi, Hk.
  - intros self key Hi Hk Ht Hget. unfold update_execute, resolve_where.
    rewrite Hi, Hk, Ht. unfold bind, get_node_by_key, call_r. now rewrite Hget.
  - intros self key e Hi Hk Ht Hget. unfold update_execute, resolve_where.
    rewrite Hi, Hk, Ht. unfold bind, get_node_by_key, call_r. now rewrite Hget.
  - intros self key e Hi Hk Ht Hget. unfold delete_execute, resolve_where.
    rewrite Hi, Hk, Ht. unfold bind, get_node_by_key, call_r. now rewrite Hget.
Qed.

Lemma selector_checked_before_transaction_witness :
  update_execute Mem.engine Mem.builtins
    (update_where (update_set Mem.user None [("age", PyInt 31)]) None (Some "user:zed"))
    Sample.friends
  = (Raise (ValueError "Node not found: user:zed"),
     {| w_db := w_db Sample.friends; w_log := [CGetNodeByKey "user:zed"] |}).
Proof.
  apply (proj1 (proj2 (proj2 (selector_checked_before_transaction Mem.engine Mem.builtins
                                Sample.friends)))
           (update_where (update_set Mem.user None [("age", PyInt 31)]) None
              (Some "user:zed")) "user:zed");
    reflexivity.
Defined.

(** X14: two edge cases of the selector.  An empty key counts as no key
    given: it is never looked up, so an update by the empty key always
    raises "not found" and a delete by it always returns [False], with
    no engine call, whatever the store holds.  And when an identifier is
    given, the key is ignored: it is not looked up and the operation
    does exactly what it does for the identifier alone. *)
Theorem selector_edge_cases {St} (E : Engine St) (py : Builtins) (w : World St) :
  (forall self : UpdateExecutor,
      ue_where_id self = None -> ue_where_key self = Some EmptyString ->
      update_execute E py self w = (Raise (ValueError "Node not found: "), w)) /\
  (forall self : DeleteExecutor,
      de_where_id self = None -> de_where_key self = Some EmptyString ->
      delete_execute E self w = (Ok false, w)) /\
  (forall (self : UpdateExecutor) id key,
      update_execute E py (update_where self (Some id) key) w
      = update_execute E py (update_where self (Some id) None) w) /\
  (forall id key,
      delete_execute E (delete_where (Some id) key) w
      = delete_execute E (delete_where (Some id) None) w).
Proof.
  split; [|split; [|split]].
  - intros self Hi Hk. unfold update_execute, resolve_where. now rewrite Hi, Hk.
  - intros self Hi Hk. unfold delete_execute, resolve_where. now rewrite Hi, Hk.
  - intros self id key. unfold update_execute, update_where. simpl. now destruct key.
  - intros id key. unfold delete_execute, delete_where. simpl. now destruct key.
Qed.

Lemma selector_edge_cases_witness :
  delete_execute Mem.engine (delete_where None (Some EmptyString)) Sample.friends
  = (Ok false, Sample.friends).
Proof.
  apply (proj1 (proj2 (selector_edge_cases Mem.engine Mem.builtins Sample.friends))
           (delete_where None (Some EmptyString)));
    reflexivity.
Defined.

(** ** Links *)

Section Links.
Context {St : Type}.
Variable E : Engine St.
Variable py : Builtins.

Lemma logs_link_props edge_def a t b data :
  logs (is_link_prop_call a t b) (for_each data (link_prop E py edge_def a t b)).
Proof.
  apply logs_for_each. intros [prop_name value]. unfold link_prop.
  destruct (is_none value); [apply logs_ret|].
  destruct (Dict.get prop_name (ed_props edge_def)); [|apply logs_ret].
  apply logs_bind; [apply logs_call_w; reflexivity|]. intros pk.
  apply logs_bind; [apply logs_lift|]. intros pv.
  apply logs_call_w. simpl. now rewrite !Z.eqb_refl.
Qed.

Lemma resolve_etype_Ok edge_def w et w0 :
  _resolve_etype_id E edge_def w = (Ok et, w0) ->
  exists s0, resolve_etype_id E edge_def (w_db w) = (Ok et, s0) /\
             w0 = {| w_db := s0; w_log := w_log w ++ [CResolveEtypeId (ed_name edge_def)] |}.
Proof.
  unfold _resolve_etype_id, call_w.
  destruct (resolve_etype_id E edge_def (w_db w)) as [r s0]. intros [= -> <-]. eauto.
Qed.

Lemma resolve_etype_Raise edge_def w e s1 :
  resolve_etype_id E edge_def (w_db w) = (Raise e, s1) ->
  _resolve_etype_id E edge_def w
  = (Raise e, {| w_db := s1; w_log := w_log w ++ [CResolveEtypeId (ed_name edge_def)] |}).
Proof. unfold _resolve_etype_id, call_w. now intros ->. Qed.

Lemma call_w_Ok_log {A} c (f : St -> Exc A * St) w a w' :
  call_w c f w = (Ok a, w') -> w_log w' = w_log w ++ [c].
Proof. unfold call_w. destruct (f (w_db w)). now intros [= _ <-]. Qed.

End Links.

(** X15: the edge type of a link, an unlink and an edge update is
    resolved before the transaction is opened.  When the resolver fails,
    each of the three raises its failure with the resolver call as the
    only call made: no [begin], hence nothing to roll back. *)
Theorem edge_type_resolved_before_transaction {St} (E : Engine St) (py : Builtins)
    (edge_def : EdgeDef) (w : World St) (e : PyExn) (s1 : St) :
  resolve_etype_id E edge_def (w_db w) = (Raise e, s1) ->
  let failed := (Raise e : Exc unit,
                 {| w_db := s1; w_log := w_log w ++ [CResolveEtypeId (ed_name edge_def)] |}) in
  (forall src dst props, create_link E py src edge_def dst props w = failed) /\
  (forall src dst, delete_link E src edge_def dst w = failed) /\
  (forall self, ee_edge_def self = edge_def -> update_edge_execute E py self w = failed).
Proof.
  intros Hres failed. pose proof (resolve_etype_Raise E _ _ _ _ Hres) as Hr.
  split; [|split].
  - intros src dst props. unfold create_link. now apply bind_run_Raise.
  - intros src dst. unfold delete_link. now apply bind_run_Raise.
  - intros self Hdef. unfold update_edge_execute. rewrite Hdef. now apply bind_run_Raise.
Qed.

Lemma edge_type_resolved_before_transaction_witness :
  create_link closed_engine Mem.builtins Sample.alice likes Sample.bob None Sample.friends
  = (Raise (EngineError "unknown edge type"),
     {| w_db := w_db Sample.friends; w_log := [CResolveEtypeId "likes"] |}).
Proof.
  apply (proj1 (edge_type_resolved_before_transaction closed_engine Mem.builtins likes
                  Sample.friends (EngineError "unknown edge type") (w_db Sample.friends)
                  eq_refl)).
Defined.

(** X16: what a link and an unlink that go through ask of the engine.
    An unlink makes exactly four calls: the resolution of the edge type,
    [begin], one [delete_edge] of the edge between the two handles'
    identifiers under the resolved type, and [commit].  A link resolves
    the type, calls [begin], adds that one edge first, and then only
    resolves property keys and sets properties of that same edge before
    it commits. *)
Theorem link_addresses_one_edge {St} (E : Engine St) (py : Builtins)
    (src dst : NodeRef) (edge_def : EdgeDef) (w w' : World St) :
  (delete_link E src edge_def dst w = (Ok tt, w') ->
   exists et s0,
     resolve_etype_id E edge_def (w_db w) = (Ok et, s0) /\
     w_log w' = w_log w ++ [CResolveEtypeId (ed_name edge_def); CBegin;
                            CDeleteEdge (nr_id src) et (nr_id dst); CCommit]) /\
  (forall props,
      create_link E py src edge_def dst props w = (Ok tt, w') ->
      exists et s0 mid,
        resolve_etype_id E edge_def (w_db w) = (Ok et, s0) /\
        w_log w' = w_log w ++ [CResolveEtypeId (ed_name edge_def); CBegin;
                               CAddEdge (nr_id src) et (nr_id dst)] ++ mid ++ [CCommit] /\
        Forall (fun c => is_link_prop_call (nr_id src) et (nr_id dst) c = true) mid).
Proof.
  split.
  - unfold delete_link, delete_link_body. intros Hrun. inv_bind Hrun. inv_bind Hrun.
    apply resolve_etype_Ok in Hruna as (s0 & Hres & ->).
    apply begin_Ok in Hruna0 as (s1 & _ & ->). apply try_rollback_Ok in Hrun.
    inv_bind Hrun. apply call_w_Ok_log in Hruna, Hrun. simpl in Hruna.
    exists a, s0. split; [exact Hres|]. rewrite Hrun, Hruna.
    now rewrite <- !app_assoc.
  - intros props. unfold create_link, create_link_body. intros Hrun.
    inv_bind Hrun. inv_bind Hrun.
    apply resolve_etype_Ok in Hruna as (s0 & Hres & ->).
    apply begin_Ok in Hruna0 as (s1 & _ & ->). apply try_rollback_Ok in Hrun.
    inv_bind Hrun. inv_bind Hrun. apply call_w_Ok_log in Hruna, Hrun. simpl in Hruna.
    destruct (logs_link_props E py _ _ _ _ _ _ _ _ Hruna0) as (mid & Hmid & F).
    exists a, s0, mid. split; [exact Hres|]. split; [|exact F].
    rewrite Hrun, Hmid, Hruna. now rewrite <- !app_assoc.
Qed.

Lemma link_addresses_one_edge_witness :
  exists w',
    delete_link Mem.engine Sample.alice Mem.knows Sample.bob Sample.friends = (Ok tt, w') /\
    exists et s0,
      Mem.intern_etype "knows" (w_db Sample.friends) = (Ok et, s0) /\
      w_log w' = [CResolveEtypeId "knows"; CBegin; CDeleteEdge 1 et 2; CCommit].
Proof.
  eexists. split; [vm_compute; reflexivity|].
  apply (proj1 (link_addresses_one_edge Mem.engine Mem.builtins Sample.alice Sample.bob
                  Mem.knows Sample.friends _)).
  vm_compute. reflexivity.
Defined.

(** ** Consumers of a traversal *)

Section Consumers.
Context {St : Type}.
Variable E : Engine St.

(** [first] runs a prefix of what [list] runs. *)
Lemma gen_first_head {A} (items : list (M St (option A))) :
  Forall (logs (fun _ => true)) items ->
  forall w l w',
    gen_collect items w = (Ok l, w') ->
    exists w1, gen_first items w = (Ok (head l), w1) /\ extends w1 w'.
Proof.
  induction 1 as [|item items Hitem Hitems IH]; intros w l w' Hrun; simpl in Hrun |- *.
  - apply ret_Ok in Hrun as [-> ->]. exists w. split; [reflexivity | apply extends_refl].
  - inv_bind Hrun. inv_bind Hrun. apply ret_Ok in Hrun as [-> ->].
    rewrite (bind_run _ _ _ _ _ Hruna). destruct a as [x|].
    + exists w0. split; [reflexivity|].
      destruct (logs_gen_collect _ _ Hitems _ _ _ Hruna0) as (ls & Hls & _).
      now exists ls.
    + apply IH. exact Hruna0.
Qed.

Lemma gen_first_none {A} (items : list (M St (option A))) : forall w w',
  gen_first items w = (Ok None, w') -> gen_collect items w = (Ok [], w').
Proof.
  induction items as [|item items IH]; intros w w' Hrun; simpl in Hrun |- *.
  - apply ret_Ok in Hrun as [_ ->]. reflexivity.
  - inv_bind Hrun. rewrite (bind_run _ _ _ _ _ Hruna). destruct a as [x|].
    + apply ret_Ok in Hrun as [[=] _].
    + now rewrite (bind_run _ _ _ _ _ (IH _ _ Hrun)).
Qed.

Lemma gen_collect_Forall {A} (P : A -> Prop) (items : list (M St (option A))) :
  Forall (fun item => forall w r w', item w = (Ok (Some r), w') -> P r) items ->
  forall w l w', gen_collect items w = (Ok l, w') -> Forall P l.
Proof.
  induction 1 as [|item items Hitem _ IH]; intros w l w' Hrun; simpl in Hrun.
  - apply ret_Ok in Hrun as [-> _]. constructor.
  - inv_bind Hrun. inv_bind Hrun. apply ret_Ok in Hrun as [-> _].
    specialize (IH _ _ _ Hruna0). destruct a as [x|]; [|exact IH].
    constructor; [eapply Hitem; eauto | exact IH].
Qed.

Lemma logs_any {A} (P : Call -> bool) (m : M St A) : logs P m -> logs (fun _ => true) m.
Proof. apply logs_weaken. reflexivity. Qed.

Lemma standard_item_filtered self load node_id f w r w' :
  tr_node_filter self = Some f ->
  standard_item E self load node_id w = (Ok (Some r), w') -> f r = true.
Proof.
  unfold standard_item. intros -> Hrun. inv_bind Hrun. apply ret_Ok in Hrun as [Hr _].
  destruct a as [node_ref|]; [|discriminate].
  destruct (f node_ref) eqn:Hf; [|discriminate]. congruence.
Qed.

End Consumers.

(** X17: [first()] answers with the head of what [to_list()] returns.
    Whenever [to_list()] succeeds, [first()] succeeds with its first
    handle, or with [None] when the list is empty, and the calls
    [first()] made are an initial part of those [to_list()] made: it
    stops at the first handle.  Conversely, when [first()] returns
    [None], [to_list()] returns the empty list after the same calls. *)
Theorem first_is_head_of_to_list {St} (E : Engine St) (self : TraversalResult)
    (w w' : World St) :
  (forall l, to_list E self w = (Ok l, w') ->
             exists w1, first E self w = (Ok (head l), w1) /\ extends w1 w') /\
  (first E self w = (Ok None, w') -> to_list E self w = (Ok [], w')).
Proof.
  unfold to_list, first. split.
  - intros l Hrun. inv_bind Hrun. rewrite (bind_run _ _ _ _ _ Hruna).
    apply gen_first_head; [|exact Hrun].
    eapply Forall_impl; [eapply execute_items; exact Hruna|].
    intros item. apply logs_any.
  - intros Hrun. inv_bind Hrun. rewrite (bind_run _ _ _ _ _ Hruna).
    now apply gen_first_none.
Qed.

Lemma first_is_head_of_to_list_witness :
  exists w' w1,
    to_list Mem.engine
      (nodes (out (from_ [Sample.bob; Sample.alice]) (Some Mem.knows))) Sample.friends
    = (Ok [Sample.alice; Sample.bob], w') /\
    first Mem.engine
      (nodes (out (from_ [Sample.bob; Sample.alice]) (Some Mem.knows))) Sample.friends
    = (Ok (Some Sample.alice), w1) /\
    extends w1 w'.
Proof.
  exists (to_list Mem.engine
            (nodes (out (from_ [Sample.bob; Sample.alice]) (Some Mem.knows)))
            Sample.friends).2.
  destruct (proj1 (first_is_head_of_to_list Mem.engine
                     (nodes (out (from_ [Sample.bob; Sample.alice]) (Some Mem.knows)))
                     Sample.friends
                     (to_list Mem.engine
                        (nodes (out (from_ [Sample.bob; Sample.alice]) (Some Mem.knows)))
                        Sample.friends).2) [Sample.alice; Sample.bob])
    as (w1 & Hfirst & Hext); [vm_compute; reflexivity|].
  exists w1. split; [vm_compute; reflexivity|]. split; [exact Hfirst | exact Hext].
Defined.

(** X18: a filter is applied to every handle returned.  With a
    predicate set, every handle [to_list()] returns satisfies it, and
    [count()] is the number of handles [to_list()] returns, after the
    same calls. *)
Theorem filter_applies_to_every_result {St} (E : Engine St) (self : TraversalResult)
    (f : NodeRef -> bool) (w w' : World St) (l : list NodeRef) :
  tr_node_filter self = Some f ->
  to_list E self w = (Ok l, w') ->
  Forall (fun r => f r = true) l /\
  count E self w = (Ok (Z.of_nat (length l)), w').
Proof.
  intros Hf Hrun. split.
  - unfold to_list, _execute in Hrun. rewrite Hf in Hrun. simpl in Hrun.
    inv_bind Hrun. inv_bind Hruna. apply ret_Ok in Hruna as [-> ->].
    eapply gen_collect_Forall; [|exact Hrun].
    apply Forall_forall. intros item Hin.
    apply list_elem_of_In, in_map_iff in Hin as (node_id & <- & _).
    intros wi r wo. now apply standard_item_filtered.
  - unfold count. rewrite Hf. unfold to_list in Hrun. inv_bind Hrun.
    rewrite (bind_run _ _ _ _ _ Hruna). now rewrite (bind_run _ _ _ _ _ Hrun).
Qed.

Lemma filter_applies_to_every_result_witness :
  exists l w',
    to_list Mem.engine
      (nodes (where_node (out (from_ [Sample.bob; Sample.alice]) (Some Mem.knows))
                (younger_than 35)))
      Sample.friends = (Ok l, w') /\
    map nr_id l = [1] /\
    Forall (fun r => younger_than 35 r = true) l /\
    count Mem.engine
      (nodes (where_node (out (from_ [Sample.bob; Sample.alice]) (Some Mem.knows))
                (younger_than 35)))
      Sample.friends = (Ok 1, w').
Proof.
  eexists. eexists. split; [vm_compute; reflexivity|]. split; [reflexivity|].
  apply (filter_applies_to_every_result Mem.engine
           (nodes (where_node (out (from_ [Sample.bob; Sample.alice]) (Some Mem.knows))
                     (younger_than 35)))
           (younger_than 35) Sample.friends); [reflexivity | vm_compute; reflexivity].
Defined.

(** ** Chaining steps *)

Lemma for_fold_app {St A B} (f : B -> A -> M St B) (xs ys : list A) : forall acc w,
  for_fold (xs ++ ys) acc f w
  = bind (for_fold xs acc f) (fun acc1 => for_fold ys acc1 f) w.
Proof.
  induction xs as [|x xs IH]; intros acc w; simpl; [reflexivity|].
  unfold bind. destruct (f acc x w) as [[acc1|e] w1]; [|reflexivity].
  rewrite IH. reflexivity.
Qed.

(** X19: steps chain.  A traversal over the steps [steps1 ++ steps2]
    is the traversal over [steps1] followed by the traversal over
    [steps2] from the nodes it reached: [ids()] (and the unfiltered
    [count()]) of the long traversal equals that of the second one,
    started from any handles to the identifiers the first one returned
    and run after it; and when the first part raises, the long
    traversal raises the same after the same calls. *)
Theorem traversal_steps_compose {St} (E : Engine St) (starts : list NodeRef)
    (steps1 steps2 : list TraversalStep) (node_filter : option (NodeRef -> bool))
    (strategy : PropLoadStrategy) (w : World St) :
  let part1 := {| tr_start_nodes := starts; tr_steps := steps1;
                  tr_node_filter := node_filter; tr_prop_strategy := strategy |} in
  let whole := {| tr_start_nodes := starts; tr_steps := steps1 ++ steps2;
                  tr_node_filter := node_filter; tr_prop_strategy := strategy |} in
  (forall mid w1 starts2,
      ids E part1 w = (Ok mid, w1) ->
      map nr_id starts2 = mid ->
      let part2 := {| tr_start_nodes := starts2; tr_steps := steps2;
                      tr_node_filter := node_filter; tr_prop_strategy := strategy |} in
      ids E whole w = ids E part2 w1 /\
      (node_filter = None -> count E whole w = count E part2 w1)) /\
  (forall e w1, ids E part1 w = (Raise e, w1) -> ids E whole w = (Raise e, w1)).
Proof.
  intros part1 whole. unfold ids, _execute_fast. simpl. split.
  - intros mid w1 starts2 Hrun Hmid. split.
    + rewrite for_fold_app, (bind_run _ _ _ _ _ Hrun), Hmid. reflexivity.
    + intros ->. unfold count, _execute_fast_count. simpl. unfold bind at 1.
      rewrite for_fold_app, (bind_run _ _ _ _ _ Hrun), Hmid. reflexivity.
  - intros e w1 Hrun. rewrite for_fold_app. now apply bind_run_Raise.
Qed.

Lemma traversal_steps_compose_witness :
  exists w1,
    builder_ids Mem.engine (out (from_ [Sample.carol]) (Some Mem.knows)) Sample.friends
    = (Ok [2], w1) /\
    builder_ids Mem.engine
      (in_ (out (from_ [Sample.carol]) (Some Mem.knows)) (Some Mem.knows)) Sample.friends
    = builder_ids Mem.engine (in_ (from_ [Sample.bob]) (Some Mem.knows)) w1.
Proof.
  eexists. split; [vm_compute; reflexivity|].
  apply (proj1 (traversal_steps_compose Mem.engine [Sample.carol]
                  [OutStep (Some Mem.knows)] [InStep (Some Mem.knows)] None strategy_none
                  Sample.friends) [2] _ [Sample.bob]); [vm_compute; reflexivity | reflexivity].
Defined.

(** ** Dictionaries *)

Lemma dict_get_set {V} (name k : string) (v : V) (d : Dict.t V) :
  Dict.get name (Dict.set k v d) = if String.eqb name k then Some v else Dict.get name d.
Proof.
  induction d as [|[k' v'] d IH]; simpl.
  - reflexivity.
  - destruct (String.eqb k k') eqn:Hkk; simpl.
    + apply String.eqb_eq in Hkk as <-. now destruct (String.eqb name k).
    + rewrite IH. destruct (String.eqb name k') eqn:Hnk'; [|reflexivity].
      apply String.eqb_eq in Hnk' as ->. destruct (String.eqb k' k) eqn:Hk'k; [|reflexivity].
      apply String.eqb_eq in Hk'k as ->. now rewrite String.eqb_refl in Hkk.
Qed.

Lemma dict_mem_set {V} (name k : string) (v : V) (d : Dict.t V) :
  Dict.mem name (Dict.set k v d) = String.eqb name k || Dict.mem name d.
Proof. unfold Dict.mem. rewrite dict_get_set. now destruct (String.eqb name k). Qed.

Lemma dict_mem_In {V} (name : string) (v : V) (d : Dict.t V) :
  In (name, v) d -> Dict.mem name d = true.
Proof.
  unfold Dict.mem. induction d as [|[k' v'] d IH]; simpl; [tauto|].
  intros [[= -> ->]|Hin]; [now rewrite String.eqb_refl|].
  destruct (String.eqb name k'); [reflexivity | auto].
Qed.

(** ** Results of path queries *)

Section Paths.
Context {St : Type}.
Variable E : Engine St.

Lemma call_r_Ok {A} c (f : St -> Exc A) w a w' :
  call_r c f w = (Ok a, w') ->
  f (w_db w) = Ok a /\ w' = {| w_db := w_db w; w_log := w_log w ++ [c] |}.
Proof. unfold call_r. now intros [= -> <-]. Qed.

Lemma key_resolutions_stable s s' :
  keys_stable E -> key_resolutions E s s' ->
  forall id, get_node_def E id s' = get_node_def E id s /\
             db_get_node_key E id s' = db_get_node_key E id s.
Proof.
  intros Hst. induction 1 as [s|s s1 s2 (nd & name & r & Hstep) _ IH]; intros id; [auto|].
  destruct (Hst _ _ _ _ _ Hstep id) as [H1 H2], (IH id) as [H3 H4]. split; congruence.
Qed.

Lemma path_ref_stable s s' id :
  keys_stable E -> key_resolutions E s s' -> path_ref E s' id = path_ref E s id.
Proof.
  intros Hst Hrtc. destruct (key_resolutions_stable s s' Hst Hrtc id) as [H1 H2].
  unfold path_ref. now rewrite H1, H2.
Qed.

Lemma path_load_loop node_id node_def items : forall props w props' w',
  (forall item, In item items -> In item (nd_props node_def)) ->
  (forall name, Dict.mem name props = true -> Dict.mem name (nd_props node_def) = true) ->
  for_fold items props (path_load_prop E node_id node_def) w = (Ok props', w') ->
  key_resolutions E (w_db w) (w_db w') /\
  forall name, Dict.mem name props' = true -> Dict.mem name (nd_props node_def) = true.
Proof.
  induction items as [|item items IH]; intros props w props' w' Hsub Hdecl Hrun;
    simpl in Hrun.
  - apply ret_Ok in Hrun as [-> ->]. split; [constructor | exact Hdecl].
  - inv_bind Hrun. unfold path_load_prop in Hruna. inv_bind Hruna. inv_bind Hruna.
    apply call_r_Ok in Hrunaa0 as [_ ->].
    assert (Hstep : key_resolutions E (w_db w) (w_db w1)).
    { unfold _resolve_prop_key_id, call_w in Hrunaa.
      destruct (resolve_node_prop_key_id E node_def item.1 (w_db w)) as [r s1] eqn:Hres.
      injection Hrunaa as _ <-. simpl. eapply rtc_l; [|constructor]. eauto. }
    assert (Hw : w0 = {| w_db := w_db w1; w_log := w_log w1 ++ [CGetNodeProp node_id a0] |}
                 /\ forall name, Dict.mem name a = true ->
                                 Dict.mem name (nd_props node_def) = true).
    { destruct a1 as [pv|]; apply ret_Ok in Hruna as [-> ->]; (split; [reflexivity|]);
        [|exact Hdecl].
      intros name. rewrite dict_mem_set.
      destruct (String.eqb name item.1) eqn:Hn; [|apply Hdecl].
      apply String.eqb_eq in Hn as ->. intros _. destruct item as [k v].
      eapply dict_mem_In. apply Hsub. now left. }
    destruct Hw as [-> Hdecl'].
    destruct (IH _ _ _ _ (fun i Hi => Hsub i (or_intror Hi)) Hdecl' Hrun) as [Hrtc Hd].
    split; [|exact Hd]. eapply rtc_trans; [exact Hstep | exact Hrtc].
Qed.

(** One handle of a path: the node type and the key are read in the
    state before, properties are loaded after them. *)
Lemma path_create_node_ref_spec self node_id w o w' :
  path_create_node_ref E self node_id w = (Ok o, w') ->
  option_map strip_props o = path_ref E (w_db w) node_id /\
  (pf_load_props self = false -> o = path_ref E (w_db w) node_id /\ w_db w' = w_db w) /\
  key_resolutions E (w_db w) (w_db w') /\
  (forall h, o = Some h -> props_declared h).
Proof.
  unfold path_create_node_ref, _get_node_def, get_node_key, path_ref. intros Hrun.
  inv_bind Hrun. apply call_r_Ok in Hruna as [Hdef ->]. rewrite Hdef.
  destruct a as [node_def|].
  - inv_bind Hrun. apply call_r_Ok in Hruna as [Hkey ->]. simpl in Hkey. rewrite Hkey.
    inv_bind Hrun. apply ret_Ok in Hrun as [-> ->]. simpl.
    destruct (pf_load_props self).
    + apply path_load_loop in Hruna as [Hrtc Hd]; [|auto|discriminate].
      simpl in Hrtc. split; [now destruct a|]. split; [discriminate|].
      split; [exact Hrtc|]. intros h [= <-]. exact Hd.
    + apply ret_Ok in Hruna as [-> ->]. simpl.
      split; [now destruct a|]. split; [intros _; now destruct a|].
      split; [constructor|]. intros h [= <-] name. discriminate.
  - apply ret_Ok in Hrun as [-> ->]. simpl.
    split; [reflexivity|]. split; [auto|]. split; [constructor|]. discriminate.
Qed.

Lemma omap_path_ref_stable s s' (path : list Z) :
  keys_stable E -> key_resolutions E s s' ->
  omap (path_ref E s') path = omap (path_ref E s) path.
Proof.
  intros Hst Hrtc. induction path as [|id path IH]; [reflexivity|].
  change (omap (path_ref E s') (id :: path))
    with (match path_ref E s' id with
          | Some h => h :: omap (path_ref E s') path
          | None => omap (path_ref E s') path
          end).
  rewrite IH, (path_ref_stable s s' id Hst Hrtc). reflexivity.
Qed.

Lemma omap_cons_path_ref s id (path : list Z) :
  omap (path_ref E s) (id :: path)
  = match path_ref E s id with
    | Some h => h :: omap (path_ref E s) path
    | None => omap (path_ref E s) path
    end.
Proof. reflexivity. Qed.

(** The loop over the engine's path when no properties are loaded. *)
Lemma path_nodes_loop self path : forall acc w nodes w',
  pf_load_props self = false ->
  for_fold path acc (path_nodes E self) w = (Ok nodes, w') ->
  nodes = acc ++ omap (path_ref E (w_db w)) path /\ w_db w' = w_db w.
Proof.
  induction path as [|node_id path IH]; intros acc w nodes w' Hload Hrun; simpl in Hrun.
  - apply ret_Ok in Hrun as [-> ->]. now rewrite app_nil_r.
  - inv_bind Hrun. unfold path_nodes in Hruna. inv_bind Hruna.
    apply ret_Ok in Hruna as [-> ->].
    apply path_create_node_ref_spec in Hrunaa as (_ & Hexact & _).
    destruct (Hexact Hload) as [-> Hdb].
    destruct (IH _ _ _ _ Hload Hrun) as [-> Hdb']. rewrite Hdb in *.
    split; [|exact Hdb']. rewrite omap_cons_path_ref.
    destruct (path_ref E (w_db w) node_id); [now rewrite <- app_assoc | reflexivity].
Qed.

(** The same loop when properties may be loaded, on an engine whose
    key resolutions leave node types and keys alone. *)
Lemma path_nodes_loop_props self path : forall acc w nodes w',
  keys_stable E ->
  for_fold path acc (path_nodes E self) w = (Ok nodes, w') ->
  exists l,
    nodes = acc ++ l /\
    map strip_props l = omap (path_ref E (w_db w)) path /\
    Forall props_declared l /\
    key_resolutions E (w_db w) (w_db w').
Proof.
  induction path as [|node_id path IH]; intros acc w nodes w' Hst Hrun; simpl in Hrun.
  - apply ret_Ok in Hrun as [-> ->]. exists []. rewrite app_nil_r.
    repeat split; constructor.
  - inv_bind Hrun. unfold path_nodes in Hruna. inv_bind Hruna.
    apply ret_Ok in Hruna as [-> ->].
    apply path_create_node_ref_spec in Hrunaa as (Hstrip & _ & Hrtc & Hdecl).
    destruct (IH _ _ _ _ Hst Hrun) as (l & -> & Hl & Fl & Hrtc').
    rewrite (omap_path_ref_stable _ _ _ Hst Hrtc) in Hl.
    rewrite omap_cons_path_ref, <- Hstrip.
    destruct a0 as [h|]; simpl.
    + exists (h :: l). split; [now rewrite <- app_assoc|]. simpl. rewrite Hl.
      split; [reflexivity|]. split; [constructor; auto|].
      eapply rtc_trans; eauto.
    + exists l. split; [reflexivity|]. split; [exact Hl|]. split; [exact Fl|].
      eapply rtc_trans; eauto.
Qed.

Lemma path_result_spec self result w r w' :
  path_result E self result w = (Ok r, w') ->
  (pf_load_props self = false -> r = path_answer E (w_db w) result /\ w_db w' = w_db w) /\
  (keys_stable E ->
   without_props r = path_answer E (w_db w) result /\ Forall props_declared (pr_nodes r)).
Proof.
  unfold path_result, path_answer, without_props. destruct (ep_found result); simpl.
  - intros Hrun. inv_bind Hrun. apply ret_Ok in Hrun as [-> ->]. simpl. split.
    + intros Hload. apply path_nodes_loop in Hruna as [-> Hdb]; auto.
    + intros Hst. apply path_nodes_loop_props in Hruna as (l & -> & Hl & Fl & _); auto.
      simpl. now rewrite Hl.
  - intros Hrun. apply ret_Ok in Hrun as [-> ->]. simpl.
    split; [auto|]. intros _. split; [reflexivity | constructor].
Qed.

Lemma path_etype_id_spec self w et w0 :
  path_etype_id E self w = (Ok et, w0) -> path_edge_type E self (w_db w) et (w_db w0).
Proof.
  unfold path_etype_id, path_edge_type. destruct (pf_edge_type self) as [edge|].
  - intros Hrun. inv_bind Hrun. apply ret_Ok in Hrun as [-> ->].
    unfold _resolve_etype_id, call_w in Hruna.
    destruct (resolve_etype_id E edge (w_db w)) as [res s0]. injection Hruna as -> <-.
    exists a. auto.
  - intros Hrun. apply ret_Ok in Hrun as [-> ->]. auto.
Qed.

End Paths.

(** X20: what a path query returns.  A successful [find()] passes the
    identifiers of source and target, the depth limit, the direction and
    the edge type to the engine's breadth-first search, and a successful
    [find_weighted()] passes them to its Dijkstra search; the edge type
    is none without [via], else the answer of the resolver, and the
    search runs in the state the resolver left.  Without [with_props()]
    the result is exactly the answer built from what the engine found:
    without a path no handle and weight zero; with a path, in its order,
    one handle for each identifier of the engine's path whose node type
    resolves, with the engine's key or the default key, the resolved
    node type and no properties, and the engine's weight.  With
    [with_props()], on an engine where resolving a property key changes
    no node type and no key, the result is that same answer with
    properties added to the handles, all of them declared by the
    handle's node type. *)
Theorem path_result_from_engine {St} (E : Engine St) (self : PathFindingBuilder)
    (w w' : World St) (r : PathResult) :
  (find E self w = (Ok r, w') ->
   exists target et s result,
     pf_target self = Some target /\
     path_edge_type E self (w_db w) et s /\
     db_find_path_bfs E (nr_id (pf_source self)) (nr_id target) et (pf_max_depth self)
       (pf_direction self) s = Ok result /\
     (pf_load_props self = false -> r = path_answer E s result /\ w_db w' = s) /\
     (keys_stable E ->
      without_props r = path_answer E s result /\ Forall props_declared (pr_nodes r))) /\
  (find_weighted E self w = (Ok r, w') ->
   exists target et s result,
     pf_target self = Some target /\
     path_edge_type E self (w_db w) et s /\
     db_find_path_dijkstra E (nr_id (pf_source self)) (nr_id target) et (pf_max_depth self)
       (pf_direction self) s = Ok result /\
     (pf_load_props self = false -> r = path_answer E s result /\ w_db w' = s) /\
     (keys_stable E ->
      without_props r = path_answer E s result /\ Forall props_declared (pr_nodes r))).
Proof.
  split.
  - unfold find. destruct (pf_target self) as [target|]; [|discriminate].
    intros Hrun. inv_bind Hrun. inv_bind Hrun.
    apply path_etype_id_spec in Hruna. unfold find_path_bfs in Hruna0.
    apply call_r_Ok in Hruna0 as [Hres ->]. apply path_result_spec in Hrun.
    exists target, a, (w_db w0), a0. simpl in Hrun. auto.
  - unfold find_weighted. destruct (pf_target self) as [target|]; [|discriminate].
    intros Hrun. inv_bind Hrun. inv_bind Hrun.
    apply path_etype_id_spec in Hruna. unfold find_path_dijkstra in Hruna0.
    apply call_r_Ok in Hruna0 as [Hres ->]. apply path_result_spec in Hrun.
    exists target, a, (w_db w0), a0. simpl in Hrun. auto.
Qed.

(** The in-memory engine interns a property key without touching the
    nodes. *)
Lemma mem_keys_stable : keys_stable Mem.engine.
Proof.
  intros node_def name s r s' Hres id. simpl in Hres. unfold Mem.intern_prop_key in Hres.
  destruct (Mem.index_of name (Mem.prop_keys (Mem.store s)) 0);
    injection Hres as _ <-; split; reflexivity.
Qed.

Lemma path_result_from_engine_witness :
  exists r w',
    find Mem.engine
      (path_with_props (via (to (shortest_path Sample.carol) Sample.alice) Mem.knows))
      Sample.friends = (Ok r, w') /\
    map nr_props (pr_nodes r) = [[]; []; [("name", PyStr "Alice"); ("age", PyInt 30)]] /\
    without_props r
    = {| pr_nodes := [Sample.carol; Sample.bob; Sample.alice]; pr_found := true;
         pr_total_weight := 0 |} /\
    exists result,
      Mem.find_path_bfs 3 1 (Some 0) None "out" (w_db Sample.friends) = Ok result /\
      without_props r = path_answer Mem.engine (w_db Sample.friends) result.
Proof.
  eexists. eexists. split; [vm_compute; reflexivity|]. split; [reflexivity|].
  split; [reflexivity|].
  destruct (proj1 (path_result_from_engine Mem.engine
                     (path_with_props
                        (via (to (shortest_path Sample.carol) Sample.alice) Mem.knows))
                     Sample.friends _ _) ltac:(vm_compute; reflexivity))
    as (target & et & s & result & Ht & Het & Hres & _ & Hprops).
  injection Ht as <-. destruct Het as (i & Hi & ->). injection Hi as <- <-.
  exists result. split; [exact Hres|]. exact (proj1 (Hprops mem_keys_stable)).
Defined.

(** ** Keys *)

Section Keys.
Context {St : Type}.
Variable E : Engine St.

Lemma keys_item_run result node_id w ks w' :
  keys_item E result node_id w = (Ok ks, w') ->
  w_db w' = w_db w /\
  ks = result ++ match kept_key E (w_db w) node_id with Some k => [k] | None => [] end.
Proof.
  unfold keys_item, kept_key, get_node_key, bind. rewrite call_r_run.
  destruct (db_get_node_key E node_id (w_db w)) as [[k|]|e]; [| |discriminate];
    intros Hrun; apply ret_Ok in Hrun as [-> ->]; simpl; (split; [reflexivity|]).
  - now destruct (str_truthy k); rewrite ?app_nil_r.
  - now rewrite app_nil_r.
Qed.

Lemma keys_loop node_ids : forall result w ks w',
  for_fold node_ids result (keys_item E) w = (Ok ks, w') ->
  w_db w' = w_db w /\ ks = result ++ omap (kept_key E (w_db w)) node_ids.
Proof.
  induction node_ids as [|node_id node_ids IH]; intros result w ks w' Hrun; simpl in Hrun.
  - apply ret_Ok in Hrun as [-> ->]. now rewrite app_nil_r.
  - inv_bind Hrun. apply keys_item_run in Hruna as [Hdb ->].
    apply IH in Hrun as [Hdb' ->]. rewrite Hdb in *. split; [exact Hdb'|].
    simpl. destruct (kept_key E (w_db w) node_id); now rewrite <- app_assoc.
Qed.

Lemma omap_length_le {A B} (f : A -> option B) (l : list A) :
  (length (omap f l) <= length l)%nat.
Proof.
  induction l as [|x l IH]; [reflexivity|].
  change (omap f (x :: l)) with (match f x with Some y => y :: omap f l | None => omap f l end).
  destruct (f x); simpl; lia.
Qed.

Lemma kept_key_truthy s node_id k : kept_key E s node_id = Some k -> k <> EmptyString.
Proof.
  unfold kept_key. destruct (db_get_node_key E node_id s) as [[k0|]|e]; try discriminate.
  destruct (str_truthy k0) eqn:Ht; [|discriminate]. intros [= <-] ->. discriminate Ht.
Qed.

End Keys.

(** X21: [keys()] returns the engine's keys of the identifiers [ids()]
    returns, in the same order, leaving out each identifier for which
    the engine has no key or an empty one: it never substitutes the
    default key that handles get, and it never returns an empty key. *)
Theorem keys_are_engine_keys {St} (E : Engine St) (self : TraversalResult)
    (w w' : World St) (ks : list string) :
  keys E self w = (Ok ks, w') ->
  exists node_ids w1,
    ids E self w = (Ok node_ids, w1) /\
    ks = omap (kept_key E (w_db w1)) node_ids /\
    (EmptyString ∉ ks) /\
    (length ks <= length node_ids)%nat.
Proof.
  unfold keys, ids. intros Hrun. inv_bind Hrun. exists a, w0.
  apply keys_loop in Hrun as [_ ->]. simpl.
  split; [exact Hruna|]. split; [reflexivity|]. split.
  - intros Hin. apply list_elem_of_omap in Hin as (node_id & _ & Hk).
    now apply kept_key_truthy in Hk.
  - apply omap_length_le.
Qed.

Lemma keys_are_engine_keys_witness :
  exists w',
    builder_keys Mem.engine (from_ [Sample.alice; Sample.dave]) Sample.friends
    = (Ok ["user:alice"], w') /\
    exists node_ids w1,
      ids Mem.engine (nodes (from_ [Sample.alice; Sample.dave])) Sample.friends
      = (Ok node_ids, w1) /\
      ["user:alice"] = omap (kept_key Mem.engine (w_db w1)) node_ids /\
      (EmptyString ∉ ["user:alice"]) /\
      (length ["user:alice"] <= length node_ids)%nat.
Proof.
  eexists. split; [vm_compute; reflexivity|].
  eapply (keys_are_engine_keys Mem.engine (nodes (from_ [Sample.alice; Sample.dave]))
            Sample.friends _ ["user:alice"]).
  vm_compute. reflexivity.
Defined.

(** ** Properties loaded by a traversal *)

Section LoadedProps.
Context {St : Type}.
Variable E : Engine St.

Lemma load_prop_props_within strategy node_id node_def props item w props' w' :
  In item (nd_props node_def) ->
  props_within strategy node_def props ->
  load_prop E strategy node_id node_def props item w = (Ok props', w') ->
  props_within strategy node_def props'.
Proof.
  intros Hin Hw. unfold load_prop. destruct (should_load strategy item.1) eqn:Hs.
  - intros Hrun. inv_bind Hrun. inv_bind Hrun. destruct a0 as [pv|].
    + apply ret_Ok in Hrun as [-> _]. intros name. rewrite dict_mem_set.
      destruct (String.eqb name item.1) eqn:Hn; [|apply Hw].
      apply String.eqb_eq in Hn as ->. intros _. split; [exact Hs|].
      destruct item as [k v]. eapply dict_mem_In. exact Hin.
    + now apply ret_Ok in Hrun as [-> _].
  - intros Hrun. now apply ret_Ok in Hrun as [-> _].
Qed.

Lemma load_props_loop strategy node_id node_def items : forall props w props' w',
  (forall item, In item items -> In item (nd_props node_def)) ->
  props_within strategy node_def props ->
  for_fold items props (load_prop E strategy node_id node_def) w = (Ok props', w') ->
  props_within strategy node_def props'.
Proof.
  induction items as [|item items IH]; intros props w props' w' Hsub Hw Hrun;
    simpl in Hrun.
  - now apply ret_Ok in Hrun as [-> _].
  - inv_bind Hrun. eapply IH; [| |exact Hrun].
    + intros i Hi. apply Hsub. now right.
    + eapply load_prop_props_within; [|exact Hw|exact Hruna]. apply Hsub. now left.
Qed.

Lemma props_within_nil strategy node_def : props_within strategy node_def [].
Proof. intros name. discriminate. Qed.

Lemma create_node_ref_props_within self node_id load w r w' :
  _create_node_ref E self node_id load w = (Ok (Some r), w') ->
  props_within (tr_prop_strategy self) (nr_node_def r) (nr_props r).
Proof.
  unfold _create_node_ref. intros Hrun. inv_bind Hrun.
  destruct a as [node_def|]; [|apply ret_Ok in Hrun as [[=] _]].
  inv_bind Hrun. inv_bind Hrun. apply ret_Ok in Hrun as [[= ->] _]. simpl.
  destruct load; [|apply ret_Ok in Hruna1 as [-> _]; apply props_within_nil].
  unfold _load_node_props in Hruna1.
  destruct (negb (needs_any_props (tr_prop_strategy self))).
  - apply ret_Ok in Hruna1 as [-> _]. apply props_within_nil.
  - eapply load_props_loop; [|apply props_within_nil|exact Hruna1]. auto.
Qed.

Lemma execute_item_props_within self w items w' :
  _execute E self w = (Ok items, w') ->
  Forall (fun item => forall wi r wj, item wi = (Ok (Some r), wj) ->
                      props_within (tr_prop_strategy self) (nr_node_def r) (nr_props r)) items.
Proof.
  unfold _execute.
  destruct (negb (bool_decide (is_Some (tr_node_filter self))) &&
            negb (needs_any_props (tr_prop_strategy self)));
    intros Hrun; inv_bind Hrun; apply ret_Ok in Hrun as [-> _];
    apply Forall_forall; intros item Hin;
    apply list_elem_of_In, in_map_iff in Hin as (p & <- & _); intros wi r wj Hitem.
  - unfold fast_item in Hitem. inv_bind Hitem. apply ret_Ok in Hitem as [Hr _].
    destruct a0; [|discriminate]. injection Hr as ->. apply props_within_nil.
  - unfold standard_item in Hitem. inv_bind Hitem. apply ret_Ok in Hitem as [Hr _].
    destruct a0 as [node_ref|]; [|discriminate].
    apply create_node_ref_props_within in Hitema.
    destruct (tr_node_filter self) as [f|]; [destruct (f node_ref); [|discriminate]|];
      injection Hr as ->; exact Hitema.
Qed.

Lemma to_list_props_within self w l w' :
  to_list E self w = (Ok l, w') ->
  Forall (fun r => props_within (tr_prop_strategy self) (nr_node_def r) (nr_props r)) l.
Proof.
  unfold to_list. intros Hrun. inv_bind Hrun.
  eapply gen_collect_Forall; [|exact Hrun]. eapply execute_item_props_within. exact Hruna.
Qed.

End LoadedProps.

(** X22: the properties on the handles of a traversal follow its
    loading strategy.  Every property a handle returned by [to_list()]
    carries is one the strategy asks for and one its node type declares
    (so by default none is carried).  In particular after
    [load_props(names)] the handles carry only properties among
    [names], and after [load_props()] without names none at all. *)
Theorem loaded_props_follow_strategy {St} (E : Engine St) (w w' : World St)
    (l : list NodeRef) :
  (forall self,
      to_list E self w = (Ok l, w') ->
      Forall (fun r => forall name,
                  Dict.mem name (nr_props r) = true ->
                  should_load (tr_prop_strategy self) name = true /\
                  Dict.mem name (nd_props (nr_node_def r)) = true) l) /\
  (forall builder names,
      builder_to_list E (load_props builder names) w = (Ok l, w') ->
      Forall (fun r => forall name, Dict.mem name (nr_props r) = true -> name ∈ names) l) /\
  (forall builder,
      builder_to_list E (load_props builder []) w = (Ok l, w') ->
      Forall (fun r => nr_props r = []) l).
Proof.
  split; [|split].
  - intros self Hrun. exact (to_list_props_within E _ _ _ _ Hrun).
  - intros builder names Hrun. apply to_list_props_within in Hrun.
    eapply Forall_impl; [exact Hrun|]. intros r Hr name Hmem.
    destruct (Hr name Hmem) as [Hs _]. unfold should_load in Hs. simpl in Hs.
    apply bool_decide_eq_true in Hs. now apply elem_of_list_to_set in Hs.
  - intros builder Hrun. apply to_list_props_within in Hrun.
    eapply Forall_impl; [exact Hrun|]. intros r Hr.
    destruct (nr_props r) as [|[k v] props] eqn:Hp; [reflexivity|].
    destruct (Hr k) as [Hs _]; [rewrite Hp; apply (dict_mem_In k v), in_eq|].
    unfold should_load in Hs. simpl in Hs. apply bool_decide_eq_true in Hs.
    now apply elem_of_empty in Hs.
Qed.

Lemma loaded_props_follow_strategy_witness :
  exists l w',
    builder_to_list Mem.engine
      (load_props (out (from_ [Sample.bob]) (Some Mem.knows)) ["name"]) Sample.friends
    = (Ok l, w') /\
    map nr_props l = [[("name", PyStr "Alice")]] /\
    Forall (fun r => forall name, Dict.mem name (nr_props r) = true -> name ∈ ["name"]) l.
Proof.
  eexists. eexists. split; [vm_compute; reflexivity|]. split; [reflexivity|].
  eapply (proj1 (proj2 (loaded_props_follow_strategy Mem.engine Sample.friends _ _))
            (out (from_ [Sample.bob]) (Some Mem.knows)) ["name"]).
  vm_compute. reflexivity.
Defined.

(** ** Keyword arguments *)

Lemma dict_get_merge (name : string) (kwargs : Dict.t PyValue) : forall d,
  NoDup (map fst kwargs) ->
  Dict.get name (Dict.merge d kwargs)
  = match Dict.get name kwargs with Some v => Some v | None => Dict.get name d end.
Proof.
  unfold Dict.merge. induction kwargs as [|[k v] kwargs IH]; intros d Hnd; simpl.
  - reflexivity.
  - apply NoDup_cons in Hnd as [Hk Hnd]. rewrite (IH _ Hnd), dict_get_set.
    destruct (String.eqb name k) eqn:Hn; [|reflexivity].
    apply String.eqb_eq in Hn as ->.
    destruct (Dict.get k kwargs) as [v'|] eqn:Hget; [|reflexivity].
    exfalso. apply Hk. clear -Hget. induction kwargs as [|[k' v''] kwargs IH]; simpl in *.
    + discriminate.
    + destruct (String.eqb k k') eqn:Hkk.
      * apply String.eqb_eq in Hkk as ->. apply elem_of_cons. now left.
      * apply elem_of_cons. right. auto.
Qed.

(** X23: in [values(data, **kwargs)] and in the [set(data, **kwargs)]
    of the update builders a keyword overrides the same name of the
    dictionary and every other entry of the dictionary is kept: looking
    a name up in what the executor receives gives the keyword's value
    when there is such a keyword, else the dictionary's. *)
Theorem keywords_override_dictionary (node_def : NodeDef) (ref : NodeRef)
    (data kwargs : Dict.t PyValue) (name : string) :
  NoDup (map fst kwargs) ->
  let merged := match Dict.get name kwargs with
                | Some v => Some v
                | None => Dict.get name data
                end in
  (exists record, ie_data (values node_def (Some data) kwargs) = [record] /\
                  Dict.get name record = merged) /\
  Dict.get name (ue_data (update_set node_def (Some data) kwargs)) = merged /\
  Dict.get name (ur_data (update_ref_set ref (Some data) kwargs)) = merged.
Proof.
  intros Hnd merged. pose proof (dict_get_merge name kwargs data Hnd) as Hm.
  split; [|split; exact Hm]. exists (Dict.merge data kwargs). split; [reflexivity | exact Hm].
Qed.

Lemma keywords_override_dictionary_witness :
  Dict.get "name" (ue_data (update_set Mem.user (Some [("name", PyStr "A"); ("age", PyInt 1)])
                              [("name", PyStr "B")]))
  = Some (PyStr "B") /\
  Dict.get "age" (ue_data (update_set Mem.user (Some [("name", PyStr "A"); ("age", PyInt 1)])
                             [("name", PyStr "B")]))
  = Some (PyInt 1).
Proof.
  split.
  - apply (keywords_override_dictionary Mem.user Sample.alice
             [("name", PyStr "A"); ("age", PyInt 1)] [("name", PyStr "B")] "name").
    apply NoDup_cons. split; [apply not_elem_of_nil | apply NoDup_nil_2].
  - apply (keywords_override_dictionary Mem.user Sample.alice
             [("name", PyStr "A"); ("age", PyInt 1)] [("name", PyStr "B")] "age").
    apply NoDup_cons. split; [apply not_elem_of_nil | apply NoDup_nil_2].
Defined.

(** ** Memoized edge types *)

Section Memoized.
Context {St : Type}.
Variable E : Engine St.

Ltac logs_tac :=
  repeat first
    [ apply logs_ret | apply logs_raise | apply logs_lift | apply logs_get_node_def; reflexivity
    | apply logs_call_w; reflexivity
    | apply logs_call_r; reflexivity
    | apply logs_bind; [|intros ?]
    | apply logs_for_each; intros ?
    | apply logs_for_fold; intros ? ?
    | match goal with
      | |- logs _ (if ?b then _ else _) => destruct b
      | |- logs _ (match ?x with _ => _ end) => destruct x
      | |- logs _ (let '(_, _) := ?x in _) => destruct x
      end ].

Lemma logs_for_fold_Forall {A B} P (Q : A -> Prop) (body : B -> A -> M St B) xs :
  (forall acc x, Q x -> logs P (body acc x)) ->
  Forall Q xs -> forall acc, logs P (for_fold xs acc body).
Proof.
  intros Hb. induction 1 as [|x xs Hx _ IH]; intros acc; simpl; [apply logs_ret|].
  apply logs_bind; auto.
Qed.

Lemma memo_step_etype_id step :
  memoized step -> logs no_etype_resolution (step_etype_id E step).
Proof.
  unfold memoized, step_etype_id.
  destruct (step_edge_def step) as [edge_def|]; [|intros _; apply logs_ret].
  intros [i ->]. apply logs_ret.
Qed.

Lemma memo_fast_step cur step :
  memoized step -> logs no_etype_resolution (fast_step E cur step).
Proof.
  intros Hm. unfold fast_step. apply logs_bind; [now apply memo_step_etype_id|]. intros et.
  unfold expand, neighbor_ids, traverse_out, traverse_in. logs_tac.
Qed.

Lemma memo_keys_step st step :
  memoized step -> logs no_etype_resolution (keys_step E st step).
Proof.
  intros Hm. unfold keys_step. apply logs_bind; [now apply memo_step_etype_id|]. intros et.
  unfold expand_pairs, neighbor_pairs, traverse_out_with_keys, traverse_in_with_keys.
  logs_tac.
Qed.

Lemma memo_execute_fast self :
  Forall memoized (tr_steps self) -> logs no_etype_resolution (_execute_fast E self).
Proof.
  intros Hm. unfold _execute_fast.
  apply (logs_for_fold_Forall _ memoized); [|exact Hm]. intros. now apply memo_fast_step.
Qed.

Lemma memo_execute_fast_with_keys self :
  Forall memoized (tr_steps self) ->
  logs no_etype_resolution (_execute_fast_with_keys E self).
Proof.
  intros Hm. unfold _execute_fast_with_keys. destruct (tr_steps self) as [|s steps].
  - apply logs_ret.
  - apply logs_bind; [|intros; apply logs_ret].
    apply (logs_for_fold_Forall _ memoized); [|exact Hm]. intros. now apply memo_keys_step.
Qed.

Lemma memo_standard_item self load node_id :
  logs no_etype_resolution (standard_item E self load node_id).
Proof.
  unfold standard_item, _create_node_ref, _load_node_props, load_prop, get_node_key,
    _resolve_prop_key_id, get_node_prop.
  logs_tac.
Qed.

Lemma memo_execute_items self w items w' :
  _execute E self w = (Ok items, w') -> Forall (logs no_etype_resolution) items.
Proof.
  unfold _execute.
  destruct (negb (bool_decide (is_Some (tr_node_filter self))) &&
            negb (needs_any_props (tr_prop_strategy self)));
    intros Hrun; inv_bind Hrun; apply ret_Ok in Hrun as [-> _];
    apply Forall_forall; intros item Hin;
    apply list_elem_of_In, in_map_iff in Hin as (p & <- & _).
  - now apply logs_fast_item.
  - apply memo_standard_item.
Qed.

Lemma memo_execute self :
  Forall memoized (tr_steps self) -> logs no_etype_resolution (_execute E self).
Proof.
  intros Hm. unfold _execute.
  destruct (negb (bool_decide (is_Some (tr_node_filter self))) &&
            negb (needs_any_props (tr_prop_strategy self)));
    (apply logs_bind; [|intros; apply logs_ret]).
  - now apply memo_execute_fast_with_keys.
  - now apply memo_execute_fast.
Qed.

End Memoized.

(** X24: a traversal whose steps carry memoized edge type identifiers
    (or follow every edge type) never calls the resolver of edge types,
    whichever way it is consumed: [ids()], [keys()], [count()],
    [to_list()] and [first()] make no such call, whether they succeed
    or fail. *)
Theorem memoized_steps_skip_resolver {St} (E : Engine St) (self : TraversalResult) :
  Forall memoized (tr_steps self) ->
  logs no_etype_resolution (ids E self) /\
  logs no_etype_resolution (keys E self) /\
  logs no_etype_resolution (count E self) /\
  logs no_etype_resolution (to_list E self) /\
  logs no_etype_resolution (first E self).
Proof.
  intros Hm. split; [|split; [|split; [|split]]].
  - now apply memo_execute_fast.
  - unfold keys. apply logs_bind; [now apply memo_execute_fast|]. intros node_ids.
    apply logs_for_fold. intros result node_id. unfold keys_item, get_node_key.
    apply logs_bind; [apply logs_call_r; reflexivity | intros; apply logs_ret].
  - unfold count. destruct (tr_node_filter self).
    + apply logs_bind_dep; [now apply memo_execute|]. intros w items w' Hrun.
      apply logs_bind; [|intros; apply logs_ret].
      apply logs_gen_collect. eapply memo_execute_items; eauto.
    + unfold _execute_fast_count. apply logs_bind; [|intros; apply logs_ret].
      now apply (memo_execute_fast E self).
  - unfold to_list. apply logs_bind_dep; [now apply memo_execute|].
    intros w items w' Hrun. apply logs_gen_collect. eapply memo_execute_items; eauto.
  - unfold first. apply logs_bind_dep; [now apply memo_execute|].
    intros w items w' Hrun. apply logs_gen_first. eapply memo_execute_items; eauto.
Qed.

Lemma memoized_steps_skip_resolver_witness :
  exists w',
    builder_to_list Mem.engine (out (from_ [Sample.alice]) (Some knows_resolved))
      Sample.friends = (Ok [Sample.bob], w') /\
    exists l, w_log w' = w_log Sample.friends ++ l /\
              Forall (fun c => no_etype_resolution c = true) l.
Proof.
  eexists. split; [vm_compute; reflexivity|].
  assert (Hm : Forall memoized
                 (tr_steps (nodes (out (from_ [Sample.alice]) (Some knows_resolved))))).
  { repeat constructor. exists 0. reflexivity. }
  apply (proj1 (proj2 (proj2 (proj2
           (memoized_steps_skip_resolver Mem.engine
              (nodes (out (from_ [Sample.alice]) (Some knows_resolved))) Hm))))
           Sample.friends (Ok [Sample.bob])).
  vm_compute. reflexivity.
Defined.

(** ** Undeclared properties *)

Section Undeclared.
Context {St : Type}.
Variable E : Engine St.
Variable py : Builtins.

(** Skipped items of a loop can be left out. *)
Lemma for_each_filter {A} (keep : A -> bool) (body : A -> M St unit) (xs : list A) :
  (forall x, keep x = false -> body x = ret tt) ->
  forall w, for_each xs body w = for_each (List.filter keep xs) body w.
Proof.
  intros Hskip. induction xs as [|x xs IH]; intros w; simpl; [reflexivity|].
  destruct (keep x) eqn:Hk; simpl.
  - unfold bind. destruct (body x w) as [[[]|e] w1]; [apply IH | reflexivity].
  - rewrite (Hskip _ Hk). unfold bind, ret. apply IH.
Qed.

Lemma not_mem_get {V} (name : string) (d : Dict.t V) :
  Dict.mem name d = false -> Dict.get name d = None.
Proof. unfold Dict.mem. now destruct (Dict.get name d). Qed.

Lemma update_prop_skip node_def node_id kv :
  is_declared (nd_props node_def) kv = false -> update_prop E py node_def node_id kv = ret tt.
Proof.
  destruct kv as [name value]. unfold is_declared, update_prop. simpl. intros Hm.
  now rewrite (not_mem_get _ _ Hm).
Qed.

Lemma update_edge_prop_skip edge_def a t b kv :
  is_declared (ed_props edge_def) kv = false ->
  update_edge_prop E py edge_def a t b kv = ret tt.
Proof.
  destruct kv as [name value]. unfold is_declared, update_edge_prop. simpl. intros Hm.
  now rewrite (not_mem_get _ _ Hm).
Qed.

Lemma link_prop_skip edge_def a t b kv :
  is_stored (ed_props edge_def) kv = false -> link_prop E py edge_def a t b kv = ret tt.
Proof.
  destruct kv as [name value]. unfold is_stored, link_prop. simpl. intros Hs.
  destruct (is_none value); [reflexivity|]. rewrite andb_true_r in Hs.
  now rewrite (not_mem_get _ _ Hs).
Qed.

Lemma try_rollback_ext {A} (m1 m2 : M St A) w :
  m1 w = m2 w -> try_rollback E m1 w = try_rollback E m2 w.
Proof. unfold try_rollback. now intros ->. Qed.

Lemma bind_ext {A B} (m1 m2 : M St A) (k : A -> M St B) w :
  m1 w = m2 w -> bind m1 k w = bind m2 k w.
Proof. unfold bind. now intros ->. Qed.

Lemma bind_ext_r {A B} (m : M St A) (k1 k2 : A -> M St B) w :
  (forall a w1, k1 a w1 = k2 a w1) -> bind m k1 w = bind m k2 w.
Proof. unfold bind. intros Hk. destruct (m w) as [[a|e] w1]; auto. Qed.

Lemma update_body_filter node_def node_id data w :
  update_body E py node_def node_id data w
  = update_body E py node_def node_id (List.filter (is_declared (nd_props node_def)) data) w.
Proof.
  unfold update_body. apply bind_ext, for_each_filter. intros kv. apply update_prop_skip.
Qed.

End Undeclared.

(** X25: mutations ignore what the schema does not declare.  An
    update of a node (by selector or by handle) or of an edge behaves
    exactly as if the entries naming undeclared properties had not been
    given, and a link exactly as if its undeclared entries and its
    entries with value [None] had not been given: same result, same
    calls, same store. *)
Theorem undeclared_properties_are_ignored {St} (E : Engine St) (py : Builtins)
    (w : World St) :
  (forall node_def data id key,
      update_execute E py
        {| ue_node_def := node_def; ue_data := data; ue_where_id := id; ue_where_key := key |} w
      = update_execute E py
          {| ue_node_def := node_def;
             ue_data := List.filter (is_declared (nd_props node_def)) data;
             ue_where_id := id; ue_where_key := key |} w) /\
  (forall ref data,
      update_ref_execute E py {| ur_node_ref := ref; ur_data := data |} w
      = update_ref_execute E py
          {| ur_node_ref := ref;
             ur_data := List.filter (is_declared (nd_props (nr_node_def ref))) data |} w) /\
  (forall src edge_def dst data,
      update_edge_execute E py
        {| ee_src := src; ee_edge_def := edge_def; ee_dst := dst; ee_data := data |} w
      = update_edge_execute E py
          {| ee_src := src; ee_edge_def := edge_def; ee_dst := dst;
             ee_data := List.filter (is_declared (ed_props edge_def)) data |} w) /\
  (forall src edge_def dst props,
      create_link E py src edge_def dst (Some props) w
      = create_link E py src edge_def dst
          (Some (List.filter (is_stored (ed_props edge_def)) props)) w).
Proof.
  split; [|split; [|split]].
  - intros node_def data id key. unfold update_execute. simpl.
    destruct id as [i|], key as [k|]; try reflexivity;
      (apply bind_ext_r; intros [node_id|] w1; [|reflexivity];
       apply bind_ext_r; intros [] w2; apply try_rollback_ext, update_body_filter).
  - intros ref data. unfold update_ref_execute. simpl.
    apply bind_ext_r. intros [] w1. apply try_rollback_ext, update_body_filter.
  - intros src edge_def dst data. unfold update_edge_execute, update_edge_body. simpl.
    apply bind_ext_r. intros et w1. apply bind_ext_r. intros [] w2.
    apply try_rollback_ext, bind_ext, for_each_filter. intros kv.
    apply update_edge_prop_skip.
  - intros src edge_def dst props. unfold create_link, create_link_body. simpl.
    apply bind_ext_r. intros et w1. apply bind_ext_r. intros [] w2.
    apply try_rollback_ext, bind_ext_r. intros [] w3.
    apply bind_ext, for_each_filter. intros kv. apply link_prop_skip.
Qed.

(** ** The order of a frontier *)

Lemma first_occurrences_snoc (l : list Z) (x : Z) :
  first_occurrences (l ++ [x])
  = if decide (x ∈ l) then first_occurrences l else first_occurrences l ++ [x].
Proof.
  unfold first_occurrences. rewrite reverse_snoc. simpl.
  destruct (decide (x ∈ l)) as [Hin|Hin];
    destruct (decide_rel elem_of x (reverse l)) as [Hr|Hr].
  - reflexivity.
  - exfalso. apply Hr. rewrite elem_of_reverse. exact Hin.
  - exfalso. apply Hin. rewrite elem_of_reverse in Hr. exact Hr.
  - now rewrite reverse_cons.
Qed.

Lemma fold_visit_order (l : list Z) : forall (seen : list Z) (acc : gset Z * list Z),
  (forall x, x ∈ acc.1 <-> x ∈ seen) ->
  acc.2 = first_occurrences seen ->
  (fold_left visit l acc).2 = first_occurrences (seen ++ l) /\
  forall x, x ∈ (fold_left visit l acc).1 <-> x ∈ seen ++ l.
Proof.
  induction l as [|n l IH]; intros seen acc Hset Hlist; simpl.
  - now rewrite app_nil_r.
  - rewrite (cons_middle n seen l), app_assoc.
    destruct acc as [visited next_ids]. simpl in Hset, Hlist.
    apply IH; unfold visit; destruct (decide (n ∈ visited)) as [Hin|Hin]; simpl.
    + intros x. rewrite Hset, elem_of_app, list_elem_of_singleton.
      split; [now left|]. intros [Hx| ->]; [exact Hx | now apply Hset].
    + intros x. rewrite elem_of_union, elem_of_singleton, Hset, elem_of_app,
        list_elem_of_singleton. tauto.
    + rewrite first_occurrences_snoc, decide_True; [exact Hlist | now apply Hset].
    + rewrite first_occurrences_snoc, decide_False; [now rewrite Hlist|].
      now rewrite <- Hset.
Qed.

Section Order.
Context {St : Type}.
Variable E : Engine St.

Lemma expand_loop_concat step et cur : forall acc w acc' w',
  for_fold cur acc (expand E step et) w = (Ok acc', w') ->
  exists nss,
    Forall2 (fun m ns => neighbors_of E step et (w_db w) m = Ok ns) cur nss /\
    acc' = fold_left visit (concat nss) acc.
Proof.
  induction cur as [|m cur IH]; intros acc w acc' w' Hrun; simpl in Hrun.
  - apply ret_Ok in Hrun as [-> _]. exists []. split; [constructor | reflexivity].
  - inv_bind Hrun. unfold expand in Hruna. inv_bind Hruna.
    apply ret_Ok in Hruna as [-> ->].
    destruct (neighbor_ids_run E step m et w) as [Hres Hdb].
    rewrite Hrunaa in Hres, Hdb. simpl in Hres, Hdb.
    destruct (IH _ _ _ _ Hrun) as (nss & Hall & ->). rewrite Hdb in Hall.
    exists (a0 :: nss). split; [constructor; [now rewrite <- Hres | exact Hall]|].
    simpl. now rewrite fold_left_app.
Qed.

End Order.

(** X26: the next frontier is in discovery order.  When a step of
    [_execute_fast] (and of [_execute_fast_count]) succeeds, there is an
    answer for every member of the current frontier: the engine's list
    of its out-neighbours or of its in-neighbours, and for a [both] step
    the list of the union of the two in the order in which the host
    lists that set.  The next frontier is the concatenation of those
    answers, taken member by member in frontier order, with every
    identifier kept only where it occurs first. *)
Theorem frontier_in_discovery_order {St} (E : Engine St) (cur : list Z)
    (step : TraversalStep) (w w' : World St) (next : list Z) :
  fast_step E cur step w = (Ok next, w') ->
  exists et w1 nss,
    step_etype_id E step w = (Ok et, w1) /\
    Forall2 (fun m ns => neighbors_of E step et (w_db w1) m = Ok ns) cur nss /\
    next = first_occurrences (concat nss).
Proof.
  unfold fast_step. intros Hrun. inv_bind Hrun. inv_bind Hrun.
  apply ret_Ok in Hrun as [-> _].
  apply expand_loop_concat in Hruna0 as (nss & Hall & ->).
  exists a, w0, nss. split; [exact Hruna|]. split; [exact Hall|].
  apply (fold_visit_order (concat nss) [] (∅, [])); [|reflexivity].
  intros x. simpl. rewrite elem_of_empty, elem_of_nil. tauto.
Qed.

Lemma frontier_in_discovery_order_witness :
  exists w' et w1 nss,
    fast_step Mem.engine [2; 1] (BothStep (Some Mem.knows)) Sample.friends
    = (Ok [1; 3; 2], w') /\
    step_etype_id Mem.engine (BothStep (Some Mem.knows)) Sample.friends = (Ok et, w1) /\
    Forall2 (fun m ns => neighbors_of Mem.engine (BothStep (Some Mem.knows)) et (w_db w1) m
                         = Ok ns) [2; 1] nss /\
    [1; 3; 2] = first_occurrences (concat nss).
Proof.
  eexists.
  destruct (frontier_in_discovery_order Mem.engine [2; 1] (BothStep (Some Mem.knows))
              Sample.friends
              (fast_step Mem.engine [2; 1] (BothStep (Some Mem.knows)) Sample.friends).2
              [1; 3; 2]) as (et & w1 & nss & Het & Hall & Hnext);
    [vm_compute; reflexivity|].
  exists et, w1, nss. split; [vm_compute; reflexivity|]. auto.
Defined.

(** ** Traversals from no node *)

Section EmptyStart.
Context {St : Type}.
Variable E : Engine St.

Lemma logs_etype_only step : logs only_etype_resolution (step_etype_id E step).
Proof.
  unfold step_etype_id. destruct (step_edge_def step) as [edge_def|]; [|apply logs_ret].
  destruct (_etype_id edge_def); [apply logs_ret|].
  apply logs_bind; [apply logs_call_w; reflexivity | intros; apply logs_ret].
Qed.

Lemma fast_step_nil step w r w' :
  fast_step E [] step w = (r, w') ->
  (forall next, r = Ok next -> next = []) /\
  exists l, w_log w' = w_log w ++ l /\ Forall (fun c => only_etype_resolution c = true) l.
Proof.
  unfold fast_step, bind. simpl. intros Hrun.
  destruct (step_etype_id E step w) as [[et|e] w1] eqn:Het.
  - unfold ret in Hrun. injection Hrun as <- <-.
    split; [now intros next [= <-] | exact (logs_etype_only step _ _ _ Het)].
  - injection Hrun as <- <-.
    split; [discriminate | exact (logs_etype_only step _ _ _ Het)].
Qed.

Lemma keys_step_nil prev step w r w' :
  keys_step E ([], prev) step w = (r, w') ->
  (forall st, r = Ok st -> st = ([], [])) /\
  exists l, w_log w' = w_log w ++ l /\ Forall (fun c => only_etype_resolution c = true) l.
Proof.
  unfold keys_step, bind. simpl. intros Hrun.
  destruct (step_etype_id E step w) as [[et|e] w1] eqn:Het.
  - unfold ret in Hrun. injection Hrun as <- <-.
    split; [now intros st [= <-] | exact (logs_etype_only step _ _ _ Het)].
  - injection Hrun as <- <-.
    split; [discriminate | exact (logs_etype_only step _ _ _ Het)].
Qed.

Lemma fast_loop_nil steps : forall w r w',
  for_fold steps [] (fast_step E) w = (r, w') ->
  (forall l, r = Ok l -> l = []) /\
  exists l, w_log w' = w_log w ++ l /\ Forall (fun c => only_etype_resolution c = true) l.
Proof.
  induction steps as [|step steps IH]; intros w r w' Hrun; simpl in Hrun.
  - injection Hrun as <- <-. split; [now intros l [= <-]|].
    exists []. now rewrite app_nil_r.
  - unfold bind in Hrun. destruct (fast_step E [] step w) as [[next|e] w1] eqn:Hstep.
    + destruct (fast_step_nil _ _ _ _ Hstep) as [Hnext (l1 & Hl1 & F1)].
      rewrite (Hnext _ eq_refl) in Hrun.
      destruct (IH _ _ _ Hrun) as [Hr (l2 & Hl2 & F2)]. split; [exact Hr|].
      exists (l1 ++ l2). split; [now rewrite Hl2, Hl1, app_assoc | now apply Forall_app].
    + injection Hrun as <- <-. split; [discriminate|].
      exact (proj2 (fast_step_nil _ _ _ _ Hstep)).
Qed.

Lemma keys_loop_nil steps : forall prev w r w',
  for_fold steps ([], prev) (keys_step E) w = (r, w') ->
  (forall st, r = Ok st -> st = ([], prev) \/ st = ([], [])) /\
  exists l, w_log w' = w_log w ++ l /\ Forall (fun c => only_etype_resolution c = true) l.
Proof.
  induction steps as [|step steps IH]; intros prev w r w' Hrun; simpl in Hrun.
  - injection Hrun as <- <-. split; [intros st [= <-]; now left|].
    exists []. now rewrite app_nil_r.
  - unfold bind in Hrun. destruct (keys_step E ([], prev) step w) as [[st1|e] w1] eqn:Hstep.
    + destruct (keys_step_nil _ _ _ _ _ Hstep) as [Hst (l1 & Hl1 & F1)].
      rewrite (Hst _ eq_refl) in Hrun.
      destruct (IH _ _ _ _ Hrun) as [Hr (l2 & Hl2 & F2)]. split.
      * intros st Hok. right. destruct (Hr st Hok); assumption.
      * exists (l1 ++ l2). split; [now rewrite Hl2, Hl1, app_assoc | now apply Forall_app].
    + injection Hrun as <- <-. split; [discriminate|].
      exact (proj2 (keys_step_nil _ _ _ _ _ Hstep)).
Qed.

Lemma execute_nil self w items w' :
  tr_start_nodes self = [] ->
  _execute E self w = (Ok items, w') -> items = [].
Proof.
  unfold _execute, _execute_fast, _execute_fast_with_keys. intros ->. simpl.
  destruct (negb (bool_decide (is_Some (tr_node_filter self))) &&
            negb (needs_any_props (tr_prop_strategy self))); intros Hrun; inv_bind Hrun;
    apply ret_Ok in Hrun as [-> _].
  - destruct (tr_steps self) as [|step steps].
    + now apply ret_Ok in Hruna as [-> _].
    + inv_bind Hruna. apply ret_Ok in Hruna as [-> _].
      destruct (proj1 (keys_loop_nil _ _ _ _ _ Hrunaa) _ eq_refl) as [-> | ->]; reflexivity.
  - now rewrite (proj1 (fast_loop_nil _ _ _ _ Hruna) _ eq_refl).
Qed.

End EmptyStart.

(** X27: a traversal from no start node finds nothing and asks the
    engine for no neighbour.  Whatever its steps, filter and loading
    strategy, [ids()] makes only resolver calls for the edge types of
    its steps, and when the consumers succeed [ids()], [keys()] and
    [to_list()] return the empty list, [first()] returns [None] and
    [count()] returns zero. *)
Theorem empty_start_finds_nothing {St} (E : Engine St) (self : TraversalResult)
    (w w' : World St) :
  tr_start_nodes self = [] ->
  logs only_etype_resolution (ids E self) /\
  (forall l, ids E self w = (Ok l, w') -> l = []) /\
  (forall l, keys E self w = (Ok l, w') -> l = []) /\
  (forall l, to_list E self w = (Ok l, w') -> l = []) /\
  (forall r, first E self w = (Ok r, w') -> r = None) /\
  (forall n, count E self w = (Ok n, w') -> n = 0).
Proof.
  intros Hs. split; [|split; [|split; [|split; [|split]]]].
  - intros w0 r w1. unfold ids, _execute_fast. rewrite Hs. simpl. intros Hrun.
    exact (proj2 (fast_loop_nil E _ _ _ _ Hrun)).
  - intros l. unfold ids, _execute_fast. rewrite Hs. simpl. intros Hrun.
    exact (proj1 (fast_loop_nil E _ _ _ _ Hrun) _ eq_refl).
  - intros l. unfold keys, _execute_fast. rewrite Hs. simpl. intros Hrun. inv_bind Hrun.
    rewrite (proj1 (fast_loop_nil E _ _ _ _ Hruna) _ eq_refl) in Hrun.
    now apply ret_Ok in Hrun as [-> _].
  - intros l. unfold to_list. intros Hrun. inv_bind Hrun.
    rewrite (execute_nil E _ _ _ _ Hs Hruna) in Hrun. now apply ret_Ok in Hrun as [-> _].
  - intros r. unfold first. intros Hrun. inv_bind Hrun.
    rewrite (execute_nil E _ _ _ _ Hs Hruna) in Hrun. now apply ret_Ok in Hrun as [-> _].
  - intros n. unfold count. destruct (tr_node_filter self).
    + intros Hrun. inv_bind Hrun. rewrite (execute_nil E _ _ _ _ Hs Hruna) in Hrun.
      inv_bind Hrun. apply ret_Ok in Hruna0 as [-> _]. now apply ret_Ok in Hrun as [-> _].
    + unfold _execute_fast_count. rewrite Hs. simpl. intros Hrun. inv_bind Hrun.
      rewrite (proj1 (fast_loop_nil E _ _ _ _ Hruna) _ eq_refl) in Hrun.
      now apply ret_Ok in Hrun as [-> _].
Qed.

Lemma empty_start_finds_nothing_witness :
  exists w',
    builder_to_list Mem.engine
      (both (out (from_ []) (Some Mem.knows)) None) Sample.friends = (Ok [], w') /\
    forall n,
      builder_count Mem.engine
        (both (out (from_ []) (Some Mem.knows)) None) Sample.friends = (Ok n, w') ->
      n = 0.
Proof.
  eexists. split; [vm_compute; reflexivity|].
  apply (proj2 (proj2 (proj2 (proj2 (proj2
           (empty_start_finds_nothing Mem.engine
              (nodes (both (out (from_ []) (Some Mem.knows)) None)) Sample.friends _
              eq_refl)))))).
Defined.

(** ** One update, three selectors *)

(** X28: the selectors lead to the same operation.  An update through
    a handle is the update by the handle's identifier and node type: the
    handle is trusted, no lookup is made.  An update or a delete by a
    key that the engine resolves is, after that one lookup, the update
    or delete by the identifier found. *)
Theorem selectors_agree {St} (E : Engine St) (py : Builtins) (w : World St) :
  (forall ref data,
      update_ref_execute E py {| ur_node_ref := ref; ur_data := data |} w
      = update_execute E py
          {| ue_node_def := nr_node_def ref; ue_data := data;
             ue_where_id := Some (nr_id ref); ue_where_key := None |} w) /\
  (forall node_def data key id,
      str_truthy key = true ->
      db_get_node_by_key E key (w_db w) = Ok (Some id) ->
      update_execute E py
        {| ue_node_def := node_def; ue_data := data;
           ue_where_id := None; ue_where_key := Some key |} w
      = update_execute E py
          {| ue_node_def := node_def; ue_data := data;
             ue_where_id := Some id; ue_where_key := None |}
          {| w_db := w_db w; w_log := w_log w ++ [CGetNodeByKey key] |}) /\
  (forall key id,
      str_truthy key = true ->
      db_get_node_by_key E key (w_db w) = Ok (Some id) ->
      delete_execute E (delete_where None (Some key)) w
      = delete_execute E (delete_where (Some id) None)
          {| w_db := w_db w; w_log := w_log w ++ [CGetNodeByKey key] |}).
Proof.
  split; [|split].
  - intros ref data. reflexivity.
  - intros node_def data key id Ht Hget. unfold update_execute, resolve_where. simpl.
    rewrite Ht. unfold bind at 1, get_node_by_key. rewrite call_r_run, Hget. reflexivity.
  - intros key id Ht Hget. unfold delete_execute, delete_where, resolve_where. simpl.
    rewrite Ht. unfold bind at 1, get_node_by_key. rewrite call_r_run, Hget. reflexivity.
Qed.

Lemma selectors_agree_witness :
  delete_execute Mem.engine (delete_where None (Some "user:carol")) Sample.friends
  = delete_execute Mem.engine (delete_where (Some 3) None)
      {| w_db := w_db Sample.friends; w_log := [CGetNodeByKey "user:carol"] |}.
Proof.
  apply (proj2 (proj2 (selectors_agree Mem.engine Mem.builtins Sample.friends))
           "user:carol" 3); reflexivity.
Defined.
